(** * World-info activation policy of the world-book tool

    A shallow embedding of [WorldInfoIntegration.shouldActivateItem],
    [matchKeys], [addSingleEntry] and the logger module, with the
    properties of the activation policy proved over it.

    Strings.  A JavaScript string is a sequence of 16-bit code units.  The
    embedding covers the strings whose code units are all below 256
    (Latin-1), which is exactly what [string] holds: one [ascii] per code
    unit.  On this alphabet [toLowerCase] and the case folding of the
    regular-expression engine act unit by unit.  The properties of
    matching are stated over the corpus and the keywords as they are
    compared ([Spec.folded]) and over the engine's comparison of units
    ([Spec.sameUnits]); a property that rests on the alphabet says so.

    Numbers.  A finite JavaScript number is a binary64 value, and so a
    rational: [probability] and the random draw are values of [Q],
    compared exactly, and the product [Math.random() * 100] is rounded to
    the nearest binary64 value as the machine rounds it. *)

From Stdlib Require Import Bool List String Ascii NArith ZArith QArith Lia Lqa.
From Stdlib Require Import DecimalString.
From Stdlib Require Import Qround.
From Stdlib Require DecimalPos.
Import ListNotations.

Local Close Scope Q_scope.
Local Open Scope string_scope.
Local Open Scope list_scope.

Set Implicit Arguments.

(* ================================================================== *)
(** * Code units *)
(* ================================================================== *)

Module CodeUnit.

Definition code (c : ascii) : N := N_of_ascii c.

Definition between (lo hi n : N) : bool := ((lo <=? n) && (n <=? hi))%N.

(** [String.prototype.toLowerCase] on one Latin-1 unit: A-Z and the
    accented capitals U+00C0..U+00DE (the multiplication sign U+00D7
    apart) move up by 32. *)
Definition toLower (c : ascii) : ascii :=
  let n := code c in
  if between 65 90 n || (between 192 222 n && negb (n =? 215)%N)
  then ascii_of_N (n + 32) else c.

(** ECMAScript [Canonicalize] without the [u] flag.  With [ignoreCase]
    the unit is replaced by its upper-case form when that is one unit:
    a-z and U+00E0..U+00FE (the division sign U+00F7 apart) move down
    by 32, the micro sign goes to U+039C, y-diaeresis to U+0178, and
    sharp s (whose upper case is two units) stays. *)
Definition canonicalize (ignoreCase : bool) (c : ascii) : N :=
  let n := code c in
  if negb ignoreCase then n
  else if between 97 122 n then (n - 32)%N
  else if (n =? 181)%N then 924%N
  else if between 224 254 n && negb (n =? 247)%N then (n - 32)%N
  else if (n =? 255)%N then 376%N
  else n.

(** ECMAScript [WordCharacters] without the [u] flag: [A-Za-z0-9_]. *)
Definition isWordChar (c : ascii) : bool :=
  let n := code c in
  between 48 57 n || between 65 90 n || (n =? 95)%N || between 97 122 n.

(** ECMAScript [SyntaxCharacter]: ^ $ \ . * + ? ( ) [ ] { } | *)
Definition isSyntaxCharacter (c : ascii) : bool :=
  existsb (Ascii.eqb c)
    ["^"; "$"; "\"; "."; "*"; "+"; "?"; "("; ")"; "["; "]"; "{"; "}"; "|"]%char.

End CodeUnit.

(* ================================================================== *)
(** * Strings *)
(* ================================================================== *)

Module Str.

(** [s.toLowerCase()] *)
Fixpoint toLowerCase (s : string) : string :=
  match s with
  | EmptyString => EmptyString
  | String c s' => String (CodeUnit.toLower c) (toLowerCase s')
  end.

(** [s.includes(key)]: [key] occurs in [s] at some position. *)
Fixpoint includes (s key : string) : bool :=
  String.prefix key s ||
  match s with
  | EmptyString => false
  | String _ s' => includes s' key
  end.

(** [arr.join(sep)] on an array of strings. *)
Definition join (sep : string) (l : list string) : string := String.concat sep l.

(** The code unit before the end of [s], if any. *)
Fixpoint lastChar (s : string) : option ascii :=
  match s with
  | EmptyString => None
  | String c EmptyString => Some c
  | String _ s' => lastChar s'
  end.

Definition firstChar (s : string) : option ascii :=
  match s with
  | EmptyString => None
  | String c _ => Some c
  end.

(** [s.replace(/[.*+?^${}()|[\]\\]/g, '\\$&')]: every unit of the class
    gets a backslash in front of it. *)
Definition inEscapeClass (c : ascii) : bool :=
  existsb (Ascii.eqb c)
    ["."; "*"; "+"; "?"; "^"; "$"; "{"; "}"; "("; ")"; "|"; "["; "]"; "\"]%char.

Fixpoint escapeRegExp (s : string) : string :=
  match s with
  | EmptyString => EmptyString
  | String c s' =>
      if inEscapeClass c then String "\" (String c (escapeRegExp s'))
      else String c (escapeRegExp s')
  end.

End Str.

(* ================================================================== *)
(** * Regular expressions: the fragment [new RegExp] is given *)
(* ================================================================== *)

Module RegExp.

Inductive Node : Type :=
| Empty
| Char (c : ascii)
| WordBoundary
| Seq (a b : Node)
| Disjunction (a b : Node)
| Group (a : Node).

Inductive Error : Type :=
| SyntaxError          (* the constructor throws *)
| OutsideFragment.     (* classes, quantifiers, anchors, other escapes *)

(** ** Parsing a pattern string *)

(** One open disjunction: the alternatives closed so far and the
    alternative being read. *)
Record Frame := mkFrame { alts : option Node; cur : Node }.

Definition emptyFrame : Frame := mkFrame None Empty.

Definition addTerm (f : Frame) (t : Node) : Frame :=
  mkFrame (alts f) (Seq (cur f) t).

Definition closeFrame (f : Frame) : Node :=
  match alts f with
  | None => cur f
  | Some d => Disjunction d (cur f)
  end.

Definition nextAlternative (f : Frame) : Frame :=
  mkFrame (Some (closeFrame f)) Empty.

Fixpoint parseFrom (s : string) (top : Frame) (stack : list Frame)
  : Node + Error :=
  match s with
  | EmptyString =>
      match stack with
      | [] => inl (closeFrame top)
      | _ :: _ => inr SyntaxError
      end
  | String "\" EmptyString => inr SyntaxError
  | String "\" (String c s') =>
      if Ascii.eqb c "b" then parseFrom s' (addTerm top WordBoundary) stack
      else if CodeUnit.isSyntaxCharacter c
           then parseFrom s' (addTerm top (Char c)) stack
           else inr OutsideFragment
  | String "(" s' => parseFrom s' emptyFrame (top :: stack)
  | String ")" s' =>
      match stack with
      | [] => inr SyntaxError
      | f :: stack' => parseFrom s' (addTerm f (Group (closeFrame top))) stack'
      end
  | String "|" s' => parseFrom s' (nextAlternative top) stack
  | String c s' =>
      if CodeUnit.isSyntaxCharacter c then inr OutsideFragment
      else parseFrom s' (addTerm top (Char c)) stack
  end.

Definition parse (pattern : string) : Node + Error :=
  parseFrom pattern emptyFrame [].

(** ** The regular-expression object *)

Record t := mkRegExp { source : Node; global : bool; ignoreCase : bool }.

(** [new RegExp(pattern, flags)] with flags ['g'] or ['gi']. *)
Definition new (pattern : string) (ignoreCaseFlag : bool) : t + Error :=
  match parse pattern with
  | inl n => inl (mkRegExp n true ignoreCaseFlag)
  | inr e => inr e
  end.

(** ** Matching *)

(** A position in the input: the unit before it and the units from it. *)
Record Pos := mkPos { before : option ascii; rest : string }.

Definition isWordAt (c : option ascii) : bool :=
  match c with
  | None => false
  | Some c => CodeUnit.isWordChar c
  end.

(** [\b] holds where exactly one of the two neighbours is a word unit. *)
Definition isBoundary (a b : option ascii) : bool :=
  xorb (isWordAt a) (isWordAt b).

(** The backtracking matcher, in continuation-passing style as in the
    ECMAScript specification. *)
Fixpoint m (ic : bool) (r : Node) (x : Pos) (k : Pos -> bool) : bool :=
  match r with
  | Empty => k x
  | Char c =>
      match rest x with
      | EmptyString => false
      | String d s' =>
          if (CodeUnit.canonicalize ic d =? CodeUnit.canonicalize ic c)%N
          then k (mkPos (Some d) s') else false
      end
  | WordBoundary =>
      if isBoundary (before x) (Str.firstChar (rest x)) then k x else false
  | Seq a b => m ic a x (fun y => m ic b y k)
  | Disjunction a b => m ic a x k || m ic b x k
  | Group a => m ic a x k
  end.

(** [RegExpBuiltinExec] from [lastIndex]: try every start position up
    to and including the end of the input. *)
Fixpoint searchFrom (ic : bool) (r : Node) (prev : option ascii) (s : string)
  : bool :=
  m ic r (mkPos prev s) (fun _ => true) ||
  match s with
  | EmptyString => false
  | String c s' => searchFrom ic r (Some c) s'
  end.

(** [regex.test(text)] on a regular expression just constructed, whose
    [lastIndex] is 0. *)
Definition test (re : t) (text : string) : bool :=
  searchFrom (ignoreCase re) (source re) None text.

End RegExp.


(* ================================================================== *)
(** * JavaScript values used by the entries *)
(* ================================================================== *)

Module Js.

(** A numeric property that may be absent ([undefined]) or [null]. *)
Inductive Number : Type :=
| Undefined
| Null
| Num (q : Q).

(** [ToNumber]; [None] is NaN. *)
Definition toNumber (v : Number) : option Q :=
  match v with
  | Undefined => None
  | Null => Some 0%Q
  | Num q => Some q
  end.

Definition Qlt_bool (a b : Q) : bool := negb (Qle_bool b a).

(** [a < b] on numbers; a comparison with NaN is false. *)
Definition lessThan (a b : option Q) : bool :=
  match a, b with
  | Some x, Some y => Qlt_bool x y
  | _, _ => false
  end.

(** [a > b] *)
Definition greaterThan (a b : option Q) : bool := lessThan b a.

(** ** Binary64 arithmetic *)

(** [num / den] rounded to the nearest integer, a tie going to the even
    one (roundTiesToEven). *)
Definition roundTiesToEven (num den : Z) : Z :=
  let q := (num / den)%Z in
  match (2 * (num mod den) ?= den)%Z with
  | Lt => q
  | Gt => (q + 1)%Z
  | Eq => if Z.even q then q else (q + 1)%Z
  end.

(** The unit in the last place of [n / d], counted in powers of two from
    2^(-1074): a value in [2^e, 2^(e+1)) has 53 significant bits, so its
    unit is 2^(e-52), and no unit is below 2^(-1074). *)
Definition shift (n d : positive) : Z :=
  Z.max (Z.log2 (Zpos n * 2 ^ 1074 / Zpos d) - 52) 0.

(** The binary64 value nearest to the positive rational [n / d]. *)
Definition roundPositive (n d : positive) : Q :=
  let s := shift n d in
  Qmake (roundTiesToEven (Zpos n * 2 ^ 1074) (Zpos d * 2 ^ s) * 2 ^ s) (2 ^ 1074).

(** The binary64 value nearest to a rational whose magnitude is below
    2^1024, where the machine's result is finite. *)
Definition roundDouble (q : Q) : Q :=
  match Qnum q with
  | Z0 => 0%Q
  | Zpos n => roundPositive n (Qden q)
  | Zneg n => (- roundPositive n (Qden q))%Q
  end.

(** [a * b] on two numbers: the exact product, rounded. *)
Definition times (a b : Q) : Q := roundDouble (a * b).

(** The rational is a binary64 value. *)
Definition isDouble (q : Q) : Prop := (roundDouble q == q)%Q.

Definition truthy (v : Number) : bool :=
  match v with
  | Num q => negb (Qeq_bool q 0)
  | _ => false
  end.

(** [v || d] with a numeric default. *)
Definition orNum (v : Number) (d : Q) : Number :=
  if truthy v then v else Num d.

(** [v || null] *)
Definition orNull (v : Number) : Number :=
  if truthy v then v else Null.

(** [z || d] on an integer property; [None] is [undefined] or [null]. *)
Definition orInt (v : option Z) (d : Z) : Z :=
  match v with
  | Some z => if (z =? 0)%Z then d else z
  | None => d
  end.

(** [z || null] on an integer property. *)
Definition orNullInt (v : option Z) : option Z :=
  match v with
  | Some z => if (z =? 0)%Z then None else Some z
  | None => None
  end.

(** [s || d] on a string property: the empty string is falsy. *)
Definition orStr (v : option string) (d : string) : string :=
  match v with
  | Some EmptyString | None => d
  | Some s => s
  end.

(** [b || false] *)
Definition orFalse (v : option bool) : bool :=
  match v with
  | Some b => b
  | None => false
  end.

(** [a || []]: every array is truthy, the empty one too. *)
Definition orEmpty (A : Type) (v : option (list A)) : list A :=
  match v with
  | Some l => l
  | None => []
  end.

(** [!a || a.length === 0] *)
Definition noElements (A : Type) (v : option (list A)) : bool :=
  match v with
  | Some (_ :: _) => false
  | _ => true
  end.

(** [arr.slice(start)]: a negative [start] counts from the end. *)
Definition slice (A : Type) (arr : list A) (start : Z) : list A :=
  let len := Z.of_nat (List.length arr) in
  let k := if (start <? 0)%Z then Z.max (len + start) 0 else Z.min start len in
  skipn (Z.to_nat k) arr.

(** Template-literal rendering of an integer. *)
Definition showInt (z : Z) : string := NilZero.string_of_int (Z.to_int z).

End Js.

(* ================================================================== *)
(** * Data model *)
(* ================================================================== *)

(** A chat message of the host; only [mes] is read. *)
Record Message := mkMessage { mes : option string }.

(** An element of [this.selectedItems]. *)
Record Item := mkItem {
  id : string;
  enabled : bool;
  worldName : string;
  uid : Z;
  name : string;
  content : string;
  key : option (list string);
  keysecondary : option (list string);
  constant : bool;
  order : Js.Number;
  depth : Js.Number;
  position : Z;
  role : Js.Number;
  probability : Js.Number;
  scan_depth : option Z;
  case_sensitive : bool;
  match_whole_words : bool;
  sticky : Js.Number;
  cooldown : Js.Number;
  delay : Js.Number;
  selectiveLogic : Js.Number;
  disable : bool
}.

(** [entryData.extensions] of a host world-info entry. *)
Record Extensions := mkExtensions {
  ext_depth : Js.Number;
  ext_role : Js.Number;
  ext_probability : Js.Number;
  ext_scan_depth : option Z;
  ext_case_sensitive : option bool;
  ext_match_whole_words : option bool
}.

(** A host world-info entry, as [loadWorldInfo] hands it over. *)
Record EntryData := mkEntryData {
  e_comment : option string;
  e_content : option string;
  e_key : option (list string);
  e_keysecondary : option (list string);
  e_constant : option bool;
  e_insertion_order : Js.Number;
  e_extensions : option Extensions;
  e_sticky : Js.Number;
  e_cooldown : Js.Number;
  e_delay : Js.Number;
  e_selectiveLogic : Js.Number;
  e_disable : option bool
}.

(** Constants imported from the host ([world-info.js], [script.js]). *)
Record Host := mkHost {
  world_info_position_atDepth : Z;
  extension_prompt_types_IN_CHAT : Z;
  extension_prompt_roles_SYSTEM : Z
}.

(** ** The logger and its console *)

Inductive LogMessage : Type :=
| ProbabilityCheckFailed (name : string) (roll : Q) (probability : Js.Number)
| NoKeywords (name : string)
| SkipItem (name : string)
| InjectItem (name : string) (constant : bool)
| InjectDetails (depth role order : Js.Number)
| ClearItem (name : string)
| RefreshAll (total : nat)
| InjectDone (enabledCount total : nat)
| EntryDataEmpty
| AddingEntry (label worldName : string)
| EntryExists (label : string)
| EntryAdded (label : string).

Inductive Level : Type := DEBUG | INFO | WARN | ERROR.

(** One invocation of a method of the [logger] object. *)
Record LogCall := mkLogCall { level : Level; message : LogMessage }.

(** One line written to the browser console. *)
Record ConsoleLine := mkConsoleLine {
  line_level : Level;
  line_time : Z;
  line_prefix : string;
  line_message : LogMessage
}.

(** One call of the host's [setExtensionPrompt]. *)
Record PromptCall := mkPromptCall {
  prompt_key : string;
  prompt_value : string;
  prompt_type : Z;
  prompt_depth : Js.Number;
  prompt_scan : bool;
  prompt_role : Js.Number
}.

Inductive Toast : Type :=
| ToastInfo (text : string)
| ToastSuccess (label : string).

(** ** The state evaluation runs in *)

Record World := mkWorld {
  selectedItems : list Item;            (* this.selectedItems *)
  chat : option (list Message);         (* getContext().chat *)
  randomSource : nat -> Q;              (* the successive Math.random() *)
  randomCalls : nat;                    (* how many were taken *)
  clock : Z;                            (* Date.now() *)
  loggerCalls : list LogCall;           (* calls received by the logger *)
  console : list ConsoleLine;           (* what reached the console *)
  promptCalls : list PromptCall;        (* calls of setExtensionPrompt *)
  saveRequests : nat;                   (* calls of saveSettingsDebounced *)
  toastr : option (list Toast);         (* None: toastr is undefined *)
  host : Host
}.

Definition set_selectedItems (l : list Item) (w : World) : World :=
  mkWorld l (chat w) (randomSource w) (randomCalls w) (clock w) (loggerCalls w)
    (console w) (promptCalls w) (saveRequests w) (toastr w) (host w).

Definition set_randomCalls (n : nat) (w : World) : World :=
  mkWorld (selectedItems w) (chat w) (randomSource w) n (clock w) (loggerCalls w)
    (console w) (promptCalls w) (saveRequests w) (toastr w) (host w).

Definition set_loggerCalls (l : list LogCall) (w : World) : World :=
  mkWorld (selectedItems w) (chat w) (randomSource w) (randomCalls w) (clock w) l
    (console w) (promptCalls w) (saveRequests w) (toastr w) (host w).

Definition set_console (l : list ConsoleLine) (w : World) : World :=
  mkWorld (selectedItems w) (chat w) (randomSource w) (randomCalls w) (clock w)
    (loggerCalls w) l (promptCalls w) (saveRequests w) (toastr w) (host w).

Definition set_promptCalls (l : list PromptCall) (w : World) : World :=
  mkWorld (selectedItems w) (chat w) (randomSource w) (randomCalls w) (clock w)
    (loggerCalls w) (console w) l (saveRequests w) (toastr w) (host w).

Definition set_saveRequests (n : nat) (w : World) : World :=
  mkWorld (selectedItems w) (chat w) (randomSource w) (randomCalls w) (clock w)
    (loggerCalls w) (console w) (promptCalls w) n (toastr w) (host w).

Definition set_toastr (t : option (list Toast)) (w : World) : World :=
  mkWorld (selectedItems w) (chat w) (randomSource w) (randomCalls w) (clock w)
    (loggerCalls w) (console w) (promptCalls w) (saveRequests w) t (host w).

(* ================================================================== *)
(** * Evaluation: state passing with exceptions *)
(* ================================================================== *)

Inductive Exception : Type :=
| RegExpError (e : RegExp.Error).

Inductive Outcome (A : Type) : Type :=
| Returned (a : A) (w : World)
| Threw (e : Exception) (w : World).

Arguments Threw {A} e w.

Definition M (A : Type) : Type := World -> Outcome A.

Definition ret (A : Type) (a : A) : M A := fun w => Returned a w.

Definition bind (A B : Type) (c : M A) (f : A -> M B) : M B :=
  fun w =>
    match c w with
    | Returned a w' => f a w'
    | Threw e w' => Threw e w'
    end.

Definition throw (A : Type) (e : Exception) : M A := fun w => Threw e w.

Arguments throw {A} e.

Definition gets (A : Type) (f : World -> A) : M A := fun w => Returned (f w) w.

Definition modify (f : World -> World) : M unit := fun w => Returned tt (f w).

Declare Scope js_scope.
Delimit Scope js_scope with js.
Notation "x <- c ;; k" := (bind c (fun x => k))
  (at level 61, c at next level, right associativity) : js_scope.
Notation "c ;; k" := (bind c (fun _ => k))
  (at level 61, right associativity) : js_scope.
Local Open Scope js_scope.

(** A computation that can only throw, run inside [M]. *)
Definition lift (A : Type) (r : A + Exception) : M A :=
  match r with
  | inl a => ret a
  | inr e => throw e
  end.

(** [forEach] over an array. *)
Fixpoint forEach (A : Type) (f : A -> M unit) (l : list A) : M unit :=
  match l with
  | [] => ret tt
  | a :: l' => f a ;; forEach f l'
  end.

(** ** Host primitives *)

(** [Math.random()] *)
Definition Math_random : M Q :=
  fun w => Returned (randomSource w (randomCalls w)) (set_randomCalls (S (randomCalls w)) w).

(** [Date.now()] *)
Definition Date_now : M Z := gets clock.

(** [getContext().chat] *)
Definition getContext_chat : M (option (list Message)) := gets chat.

(** [setExtensionPrompt(key, value, position, depth, scan, role)] *)
Definition setExtensionPrompt (k v : string) (ty : Z) (d : Js.Number)
  (scan : bool) (r : Js.Number) : M unit :=
  modify (fun w => set_promptCalls (promptCalls w ++ [mkPromptCall k v ty d scan r]) w).

(** [saveSettingsDebounced()] *)
Definition saveSettingsDebounced : M unit :=
  modify (fun w => set_saveRequests (S (saveRequests w)) w).

(** [if (typeof toastr !== 'undefined') toastr.<kind>(...)] *)
Definition toast (t : Toast) : M unit :=
  modify (fun w =>
    match toastr w with
    | Some l => set_toastr (Some (l ++ [t])) w
    | None => w
    end).

(* ================================================================== *)
(** * logger.js *)
(* ================================================================== *)

Module logger.

Definition ENABLE_LOGGING : bool := false.

Definition LOG_PREFIX : string := "[Acsus-Paws-Puffs]".

(** The console line; [getTimestamp()] is kept as the clock value it
    renders. *)
Definition write (lv : Level) (msg : LogMessage) : M unit :=
  modify (fun w => set_console (console w ++ [mkConsoleLine lv (clock w) LOG_PREFIX msg]) w).

(** Every method notes the call it received, then writes to the console
    when logging is switched on. *)
Definition method (lv : Level) (msg : LogMessage) : M unit :=
  modify (fun w => set_loggerCalls (loggerCalls w ++ [mkLogCall lv msg]) w) ;;
  if ENABLE_LOGGING then write lv msg else ret tt.

Definition debug : LogMessage -> M unit := method DEBUG.
Definition info : LogMessage -> M unit := method INFO.
Definition warn : LogMessage -> M unit := method WARN.
Definition error : LogMessage -> M unit := method ERROR.

End logger.

(* ================================================================== *)
(** * WorldInfoIntegration *)
(* ================================================================== *)

(** The pattern [`\\b(${escapedKeys.join('|')})\\b`]. *)
Definition wholeWordPattern (searchKeys : list string) : string :=
  ("\b(" ++ Str.join "|" (map Str.escapeRegExp searchKeys) ++ ")\b")%string.

(** [matchKeys(text, keys, caseSensitive, wholeWords)] *)
Definition matchKeys (text : string) (keys : list string)
  (caseSensitive wholeWords : bool) : bool + Exception :=
  match keys with
  | [] => inl false
  | _ :: _ =>
      let searchText := if caseSensitive then text else Str.toLowerCase text in
      let searchKeys := if caseSensitive then keys else map Str.toLowerCase keys in
      if wholeWords then
        match RegExp.new (wholeWordPattern searchKeys) (negb caseSensitive) with
        | inl regex => inl (RegExp.test regex searchText)
        | inr e => inr (RegExpError e)
        end
      else
        inl (existsb (fun k => Str.includes searchText k) searchKeys)
  end.

(** [m.mes || ''] *)
Definition messageText (msg : Message) : string := Js.orStr (mes msg) "".

(** [item.scan_depth || 10] *)
Definition scanDepth (item : Item) : Z := Js.orInt (scan_depth item) 10.

(** [chat.slice(-scanDepth)] *)
Definition recentMessages (item : Item) (chat : list Message) : list Message :=
  Js.slice chat (- scanDepth item).

(** [recentMessages.map(m => m.mes || '').join(' ')] *)
Definition searchTextOf (item : Item) (chat : list Message) : string :=
  Str.join " " (map messageText (recentMessages item chat)).

(** Steps 4 to 6 of [shouldActivateItem]: what runs once the probability
    check has let the entry through. *)
Definition keywordSteps (item : Item) : M bool :=
  if Js.noElements (key item) && Js.noElements (keysecondary item) then
    logger.warn (NoKeywords (name item)) ;;
    ret false
  else
    contextChat <- getContext_chat ;;
    let chat := Js.orEmpty contextChat in
    let searchText := searchTextOf item chat in
    primaryMatch <- lift (matchKeys searchText (Js.orEmpty (key item))
                            (case_sensitive item) (match_whole_words item)) ;;
    secondaryMatch <-
      (if negb (Js.noElements (keysecondary item))
       then lift (matchKeys searchText (Js.orEmpty (keysecondary item))
                    (case_sensitive item) (match_whole_words item))
       else ret false) ;;
    ret (primaryMatch || secondaryMatch).

(** [shouldActivateItem(item)] *)
Definition shouldActivateItem (item : Item) : M bool :=
  if constant item then ret true
  else if disable item then ret false
  else if Js.lessThan (Js.toNumber (probability item)) (Some 100%Q) then
    r <- Math_random ;;
    let roll := Js.times r 100 in
    if Js.greaterThan (Some roll) (Js.toNumber (probability item)) then
      logger.debug (ProbabilityCheckFailed (name item) roll (probability item)) ;;
      ret false
    else keywordSteps item
  else keywordSteps item.

(** [updateItemPrompt(item)] *)
Definition updateItemPrompt (item : Item) : M unit :=
  let k := ("paws_wi_" ++ id item)%string in
  h <- gets host ;;
  let IN_CHAT := extension_prompt_types_IN_CHAT h in
  let SYSTEM := Js.Num (inject_Z (extension_prompt_roles_SYSTEM h)) in
  if enabled item then
    shouldActivate <- shouldActivateItem item ;;
    if negb shouldActivate then
      logger.debug (SkipItem (name item)) ;;
      setExtensionPrompt k "" IN_CHAT (Js.Num 0) false SYSTEM
    else
      let d := match depth item with Js.Null => Js.Num 4 | v => v end in
      let r := match role item with Js.Null | Js.Undefined => SYSTEM | v => v end in
      logger.debug (InjectItem (name item) (constant item)) ;;
      logger.debug (InjectDetails d r (Js.orNum (order item) 100)) ;;
      setExtensionPrompt k (content item) IN_CHAT d false r
  else
    logger.debug (ClearItem (name item)) ;;
    setExtensionPrompt k "" IN_CHAT (Js.Num 0) false SYSTEM.

(** [injectAllItems()] *)
Definition injectAllItems : M unit :=
  items <- gets selectedItems ;;
  logger.debug (RefreshAll (List.length items)) ;;
  forEach updateItemPrompt items ;;
  items' <- gets selectedItems ;;
  logger.debug (InjectDone (List.length (filter enabled items')) (List.length items')).

(** [saveSelectedItems()]: the settings object is made to point at
    [this.selectedItems] itself, so the world keeps the one array, and a
    debounced save is requested. *)
Definition saveSelectedItems : M unit := saveSettingsDebounced.

(** [renderActivatedItems()] rebuilds the list in the document from
    [this.selectedItems]; the document is not part of [World]. *)
Definition renderActivatedItems : M unit := ret tt.

(** The literals of [addSingleEntry]. *)
Definition unnamed : string := "未命名".
Definition unnamedEntry : string := "未命名条目".
Definition alreadyThere : string := "该条目已存在".

(** [entryData.extensions?.f] *)
Definition ext (A : Type) (f : Extensions -> A) (undefined : A) (e : EntryData) : A :=
  match e_extensions e with
  | Some x => f x
  | None => undefined
  end.

(** The object literal pushed by [addSingleEntry]. *)
Definition newItem (atDepth : Z) (now : Z) (worldName : string) (uid : Z)
  (entryData : EntryData) : Item :=
  {| id := (worldName ++ "_" ++ Js.showInt uid ++ "_" ++ Js.showInt now)%string;
     enabled := true;
     worldName := worldName;
     uid := uid;
     name := Js.orStr (e_comment entryData) unnamedEntry;
     content := Js.orStr (e_content entryData) "";
     key := Some (Js.orEmpty (e_key entryData));
     keysecondary := Some (Js.orEmpty (e_keysecondary entryData));
     constant := Js.orFalse (e_constant entryData);
     order := Js.orNum (e_insertion_order entryData) 100;
     depth := Js.orNum (ext ext_depth Js.Undefined entryData) 4;
     position := atDepth;
     role := Js.orNum (ext ext_role Js.Undefined entryData) 0;
     probability := Js.orNum (ext ext_probability Js.Undefined entryData) 100;
     scan_depth := Js.orNullInt (ext ext_scan_depth None entryData);
     case_sensitive := Js.orFalse (ext ext_case_sensitive None entryData);
     match_whole_words := Js.orFalse (ext ext_match_whole_words None entryData);
     sticky := Js.orNum (e_sticky entryData) 0;
     cooldown := Js.orNum (e_cooldown entryData) 0;
     delay := Js.orNum (e_delay entryData) 0;
     selectiveLogic := Js.orNum (e_selectiveLogic entryData) 0;
     disable := Js.orFalse (e_disable entryData) |}.

(** [this.selectedItems.some(item => item.worldName === worldName && item.uid === uid)] *)
Definition alreadySelected (world : string) (u : Z) (items : list Item) : bool :=
  existsb (fun item => String.eqb (worldName item) world && Z.eqb (uid item) u) items.

(** [addSingleEntry(worldName, uid, entryData)] *)
Definition addSingleEntry (worldName : string) (uid : Z)
  (entryData : option EntryData) : M unit :=
  match entryData with
  | None => logger.warn EntryDataEmpty
  | Some entryData =>
      logger.debug (AddingEntry (Js.orStr (e_comment entryData) unnamed) worldName) ;;
      items <- gets selectedItems ;;
      if alreadySelected worldName uid items then
        logger.warn (EntryExists (Js.orStr (e_comment entryData) (Js.showInt uid))) ;;
        toast (ToastInfo alreadyThere)
      else
        h <- gets host ;;
        now <- Date_now ;;
        modify (fun w =>
          set_selectedItems
            (selectedItems w ++ [newItem (world_info_position_atDepth h) now worldName uid entryData])
            w) ;;
        saveSelectedItems ;;
        renderActivatedItems ;;
        injectAllItems ;;
        logger.info (EntryAdded (Js.orStr (e_comment entryData) unnamedEntry)) ;;
        toast (ToastSuccess (Js.orStr (e_comment entryData) unnamedEntry))
  end.

(* ================================================================== *)
(** * Reference notions the properties are stated with *)
(* ================================================================== *)

Module Spec.

(** The last [n] elements of a list, oldest first. *)
Definition lastN (A : Type) (n : nat) (l : list A) : list A :=
  rev (firstn n (rev l)).

(** [k] occurs in [text] as a plain substring. *)
Definition occursIn (k text : string) : Prop :=
  exists pre post, text = (pre ++ k ++ post)%string.

(** [k] occurs in [text] between two word boundaries. *)
Definition occursAsWholeWord (k text : string) : Prop :=
  exists pre post,
    text = (pre ++ k ++ post)%string
    /\ RegExp.isBoundary (Str.lastChar pre) (Str.firstChar (k ++ post)) = true
    /\ RegExp.isBoundary (Str.lastChar (pre ++ k)) (Str.firstChar post) = true.

(** The keywords as compared: lower-cased unless case-sensitive. *)
Definition folded (caseSensitive : bool) (s : string) : string :=
  if caseSensitive then s else Str.toLowerCase s.

(** The node that reads the units of [k] one after the other, after [n]. *)
Fixpoint literal (n : RegExp.Node) (k : string) : RegExp.Node :=
  match k with
  | EmptyString => n
  | String c k' => literal (RegExp.Seq n (RegExp.Char c)) k'
  end.

(** The disjunction of the literals of [k :: ks], built left to right
    from the frame [f]. *)
Fixpoint alternatives (f : RegExp.Frame) (k : string) (ks : list string)
  : RegExp.Frame :=
  let f' := RegExp.mkFrame (RegExp.alts f) (literal (RegExp.cur f) k) in
  match ks with
  | [] => f'
  | k' :: ks' => alternatives (RegExp.nextAlternative f') k' ks'
  end.

(** The syntax tree of [\b(k1|k2|...)\b]. *)
Definition wholeWordNode (k : string) (ks : list string) : RegExp.Node :=
  RegExp.Seq
    (RegExp.Seq
       (RegExp.Seq RegExp.Empty RegExp.WordBoundary)
       (RegExp.Group (RegExp.closeFrame (alternatives RegExp.emptyFrame k ks))))
    RegExp.WordBoundary.

(** The positions at which a match of [r] started at [x] can end. *)
Fixpoint ends (ic : bool) (r : RegExp.Node) (x : RegExp.Pos) : list RegExp.Pos :=
  match r with
  | RegExp.Empty => [x]
  | RegExp.Char c =>
      match RegExp.rest x with
      | EmptyString => []
      | String d s' =>
          if (CodeUnit.canonicalize ic d =? CodeUnit.canonicalize ic c)%N
          then [RegExp.mkPos (Some d) s'] else []
      end
  | RegExp.WordBoundary =>
      if RegExp.isBoundary (RegExp.before x) (Str.firstChar (RegExp.rest x))
      then [x] else []
  | RegExp.Seq a b => flat_map (ends ic b) (ends ic a x)
  | RegExp.Disjunction a b => ends ic a x ++ ends ic b x
  | RegExp.Group a => ends ic a x
  end.

(** The unit before the position reached after reading [s] from a
    position whose previous unit is [prev]. *)
Definition lastAfter (prev : option ascii) (s : string) : option ascii :=
  match s with
  | EmptyString => prev
  | _ => Str.lastChar s
  end.

(** Reading the units of [k] from [x], compared as the engine compares
    them; the position reached, if they all agree. *)
Fixpoint readLiteral (ic : bool) (k : string) (x : RegExp.Pos) : option RegExp.Pos :=
  match k with
  | EmptyString => Some x
  | String c k' =>
      match RegExp.rest x with
      | EmptyString => None
      | String d s' =>
          if (CodeUnit.canonicalize ic d =? CodeUnit.canonicalize ic c)%N
          then readLiteral ic k' (RegExp.mkPos (Some d) s') else None
      end
  end.

(** The two strings agree unit by unit as the engine compares units:
    after [Canonicalize], which without [ignoreCase] leaves a unit as it
    is. *)
Fixpoint sameUnits (ic : bool) (a b : string) : Prop :=
  match a, b with
  | EmptyString, EmptyString => True
  | String c a', String d b' =>
      CodeUnit.canonicalize ic c = CodeUnit.canonicalize ic d /\ sameUnits ic a' b'
  | _, _ => False
  end.

(** The units of [k] are read in [text] between two word boundaries:
    [text] holds, between two word boundaries, a stretch that agrees
    with [k] unit by unit as the engine compares units. *)
Definition readAsWholeWord (ic : bool) (k text : string) : Prop :=
  exists pre mid post,
    text = (pre ++ mid ++ post)%string
    /\ sameUnits ic mid k
    /\ RegExp.isBoundary (Str.lastChar pre) (Str.firstChar (mid ++ post)) = true
    /\ RegExp.isBoundary (Str.lastChar (pre ++ mid)) (Str.firstChar post) = true.

(** A match of [r] started at [x] can end at [y]. *)
Definition Matches (ic : bool) (r : RegExp.Node) (x y : RegExp.Pos) : Prop :=
  In y (ends ic r x).

(** A match of one of the alternatives already closed in a frame. *)
Definition closed (ic : bool) (f : RegExp.Frame) (x y : RegExp.Pos) : Prop :=
  match RegExp.alts f with
  | Some d => Matches ic d x y
  | None => False
  end.

(** Units on which the engine's comparison is plain equality: all of
    them without [ignoreCase], the lower-cased ones with it. *)
Definition faithful (ic : bool) (c : ascii) : Prop :=
  ic = false \/ CodeUnit.toLower c = c.

Fixpoint Faithful (ic : bool) (s : string) : Prop :=
  match s with
  | EmptyString => True
  | String c s' => faithful ic c /\ Faithful ic s'
  end.

(** A left inverse of the case folding on lower-cased units. *)
Definition unfoldCase (n : N) : ascii :=
  if (n =? 924)%N then ascii_of_N 181
  else if (n =? 376)%N then ascii_of_N 255
  else CodeUnit.toLower (ascii_of_N n).

(** ** Observing an evaluation *)

(** The world after [logger.<level>(msg)]: with logging switched off
    only the record of calls grows. *)
Definition logged (lv : Level) (msg : LogMessage) (w : World) : World :=
  set_loggerCalls (loggerCalls w ++ [mkLogCall lv msg]) w.

Definition isWarn (c : LogCall) : bool :=
  match level c with
  | WARN => true
  | _ => false
  end.

(** How many of the calls are warnings. *)
Definition warnings (l : list LogCall) : nat := List.length (filter isWarn l).

(** The value [Math.random() * 100] the next draw gives. *)
Definition nextRoll (w : World) : Q := Js.times (randomSource w (randomCalls w)) 100.

(** The probability check turns the entry away: its probability is
    below 100 and the draw is above it. *)
Definition gateBlocks (item : Item) (w : World) : bool :=
  Js.lessThan (Js.toNumber (probability item)) (Some 100%Q)
  && Js.greaterThan (Some (nextRoll w)) (Js.toNumber (probability item)).

(** The world once a draw has been taken. *)
Definition afterDraw (w : World) : World := set_randomCalls (S (randomCalls w)) w.

(** The world the keyword steps start in. *)
Definition afterGate (item : Item) (w : World) : World :=
  if Js.lessThan (Js.toNumber (probability item)) (Some 100%Q)
  then afterDraw w else w.

(** The answer of [matchKeys] as a boolean. *)
Definition matches (text : string) (keys : list string)
  (caseSensitive wholeWords : bool) : bool :=
  match matchKeys text keys caseSensitive wholeWords with
  | inl b => b
  | inr _ => false
  end.

(** The primary list matches, or the secondary list does when it is
    not empty. *)
Definition keywordMatch (item : Item) (text : string) : bool :=
  matches text (Js.orEmpty (key item)) (case_sensitive item) (match_whole_words item)
  || (if Js.noElements (keysecondary item) then false
      else matches text (Js.orEmpty (keysecondary item))
             (case_sensitive item) (match_whole_words item)).

(** The entry asks for the last [n] messages: its own scan depth, a
    positive count, or 10 when it has none. *)
Definition depthIs (item : Item) (n : nat) : Prop :=
  match scan_depth item with
  | Some z => (0 < z)%Z /\ n = Z.to_nat z
  | None => n = 10
  end.

(** The entry has a keyword list that is not empty. *)
Definition hasKeywords (item : Item) : bool :=
  negb (Js.noElements (key item) && Js.noElements (keysecondary item)).

(** The value an evaluation returned, if it returned. *)
Definition result (A : Type) (o : Outcome A) : option A :=
  match o with
  | Returned a _ => Some a
  | Threw _ _ => None
  end.

(** The world an evaluation ended in. *)
Definition final (A : Type) (o : Outcome A) : World :=
  match o with
  | Returned _ w => w
  | Threw _ w => w
  end.

(** Everything an evaluation of the predicate could reach, the draw
    counter and the logger's record apart, is as it was. *)
Definition untouched (w w' : World) : Prop :=
  selectedItems w' = selectedItems w
  /\ chat w' = chat w
  /\ randomSource w' = randomSource w
  /\ clock w' = clock w
  /\ console w' = console w
  /\ promptCalls w' = promptCalls w
  /\ saveRequests w' = saveRequests w
  /\ toastr w' = toastr w
  /\ host w' = host w.

(** The entry with another [probability]. *)
Definition withProbability (p : Js.Number) (item : Item) : Item :=
  {| id := id item; enabled := enabled item; worldName := worldName item;
     uid := uid item; name := name item; content := content item;
     key := key item; keysecondary := keysecondary item;
     constant := constant item; order := order item; depth := depth item;
     position := position item; role := role item;
     probability := p;
     scan_depth := scan_depth item; case_sensitive := case_sensitive item;
     match_whole_words := match_whole_words item; sticky := sticky item;
     cooldown := cooldown item; delay := delay item;
     selectiveLogic := selectiveLogic item; disable := disable item |}.

(** The entry with other keyword lists. *)
Definition withKeys (k ks : option (list string)) (item : Item) : Item :=
  {| id := id item; enabled := enabled item; worldName := worldName item;
     uid := uid item; name := name item; content := content item;
     key := k; keysecondary := ks;
     constant := constant item; order := order item; depth := depth item;
     position := position item; role := role item;
     probability := probability item;
     scan_depth := scan_depth item; case_sensitive := case_sensitive item;
     match_whole_words := match_whole_words item; sticky := sticky item;
     cooldown := cooldown item; delay := delay item;
     selectiveLogic := selectiveLogic item; disable := disable item |}.

End Spec.

(* ================================================================== *)
(** * Concrete entries and conversations *)
(* ================================================================== *)

Module Sample.

(** A keyword entry: not constant, not disabled. *)
Definition entry (k ks : list string) (p : Js.Number) (sd : option Z)
  (caseSensitive wholeWords : bool) : Item :=
  {| id := "book_1_0"; enabled := true; worldName := "book"; uid := 1;
     name := "lore"; content := "text";
     key := Some k; keysecondary := Some ks; constant := false;
     order := Js.Num 100; depth := Js.Num 4; position := 4; role := Js.Num 0;
     probability := p; scan_depth := sd;
     case_sensitive := caseSensitive; match_whole_words := wholeWords;
     sticky := Js.Num 0; cooldown := Js.Num 0; delay := Js.Num 0;
     selectiveLogic := Js.Num 0; disable := false |}.

(** The same with the two flags set as given. *)
Definition flagged (isConstant isDisabled : bool) (k : list string) : Item :=
  {| id := "book_2_0"; enabled := true; worldName := "book"; uid := 2;
     name := "pinned"; content := "text";
     key := Some k; keysecondary := Some []; constant := isConstant;
     order := Js.Num 100; depth := Js.Num 4; position := 4; role := Js.Num 0;
     probability := Js.Num 50; scan_depth := None;
     case_sensitive := false; match_whole_words := false;
     sticky := Js.Num 0; cooldown := Js.Num 0; delay := Js.Num 0;
     selectiveLogic := Js.Num 0; disable := isDisabled |}.

Definition said (s : string) : Message := mkMessage (Some s).

(** A world whose chat holds the given texts and whose every
    [Math.random()] is [r]. *)
Definition world (texts : list string) (r : Q) : World :=
  {| selectedItems := []; chat := Some (map said texts);
     randomSource := fun _ => r; randomCalls := 0; clock := 1700000000000;
     loggerCalls := []; console := []; promptCalls := []; saveRequests := 0;
     toastr := Some []; host := mkHost 4 1 0 |}.

(** Ten messages; the keyword [dragon] stands only in the third from
    the end. *)
Definition tenMessages : list string :=
  ["one"; "two"; "three"; "four"; "five"; "six"; "seven";
   "a dragon appears"; "nine"; "ten"].

(** A host entry whose extensions carry the given probability and scan
    depth. *)
Definition hostEntry (p : Js.Number) (sd : option Z) : EntryData :=
  {| e_comment := Some "lore"; e_content := Some "text";
     e_key := Some ["cat"]; e_keysecondary := Some [];
     e_constant := Some false; e_insertion_order := Js.Num 100;
     e_extensions :=
       Some {| ext_depth := Js.Num 4; ext_role := Js.Num 0;
               ext_probability := p; ext_scan_depth := sd;
               ext_case_sensitive := Some false;
               ext_match_whole_words := Some false |};
     e_sticky := Js.Num 0; e_cooldown := Js.Num 0; e_delay := Js.Num 0;
     e_selectiveLogic := Js.Num 0; e_disable := Some false |}.

End Sample.

(* ================================================================== *)
(** * Notions for the prompt sink and the list of entries *)
(* ================================================================== *)

Module Obs.

(** The key under which an entry writes to the prompt sink. *)
Definition promptKey (item : Item) : string := ("paws_wi_" ++ id item)%string.

(** A call that clears a key: empty text, depth 0, system role. *)
Definition clears (h : Host) (call : PromptCall) : Prop :=
  prompt_value call = ""%string
  /\ prompt_depth call = Js.Num 0
  /\ prompt_role call = Js.Num (inject_Z (extension_prompt_roles_SYSTEM h)).

(** The call that clears the key of [item]. *)
Definition clearCall (h : Host) (item : Item) : PromptCall :=
  mkPromptCall (promptKey item) "" (extension_prompt_types_IN_CHAT h) (Js.Num 0) false
    (Js.Num (inject_Z (extension_prompt_roles_SYSTEM h))).

(** [call] is what the sink receives for [item]: under the entry's own
    key, in chat, either the entry's content or a clearing call; a
    switched-off entry is cleared, a constant one that is switched on is
    written, a disabled one that is not constant is cleared. *)
Definition Delivers (h : Host) (item : Item) (call : PromptCall) : Prop :=
  prompt_key call = promptKey item
  /\ prompt_type call = extension_prompt_types_IN_CHAT h
  /\ prompt_scan call = false
  /\ (prompt_value call = content item \/ clears h call)
  /\ (enabled item = false -> clears h call)
  /\ (enabled item = true -> constant item = true -> prompt_value call = content item)
  /\ (constant item = false -> disable item = true -> clears h call).

(** Evaluating the entry takes a draw: it is switched on, neither
    constant nor disabled, and its probability is below 100. *)
Definition drawsOne (item : Item) : bool :=
  enabled item && negb (constant item) && negb (disable item)
  && Js.lessThan (Js.toNumber (probability item)) (Some 100%Q).

(** What injection leaves alone: everything but the draw counter, the
    logger's record and the record of the sink. *)
Definition kept (w w' : World) : Prop :=
  selectedItems w' = selectedItems w
  /\ chat w' = chat w
  /\ randomSource w' = randomSource w
  /\ clock w' = clock w
  /\ console w' = console w
  /\ saveRequests w' = saveRequests w
  /\ toastr w' = toastr w
  /\ host w' = host w.

(** The pair an entry is recognised by when it is added. *)
Definition origin (item : Item) : string * Z := (worldName item, uid item).

(** The text holds a word unit. *)
Fixpoint hasWordChar (s : string) : bool :=
  match s with
  | EmptyString => false
  | String c s' => CodeUnit.isWordChar c || hasWordChar s'
  end.

(** The entry with another scan depth. *)
Definition withScanDepth (sd : option Z) (item : Item) : Item :=
  {| id := id item; enabled := enabled item; worldName := worldName item;
     uid := uid item; name := name item; content := content item;
     key := key item; keysecondary := keysecondary item;
     constant := constant item; order := order item; depth := depth item;
     position := position item; role := role item;
     probability := probability item;
     scan_depth := sd; case_sensitive := case_sensitive item;
     match_whole_words := match_whole_words item; sticky := sticky item;
     cooldown := cooldown item; delay := delay item;
     selectiveLogic := selectiveLogic item; disable := disable item |}.

(** [k] occurs in [text] in the way the mode asks for. *)
Definition occurs (wholeWords : bool) (k text : string) : Prop :=
  if wholeWords then Spec.occursAsWholeWord k text else Spec.occursIn k text.

(** The first and the last unit of [k] are word units. *)
Definition wordEnded (k : string) : Prop :=
  RegExp.isWordAt (Str.firstChar k) = true /\ RegExp.isWordAt (Str.lastChar k) = true.

End Obs.

(* ================================================================== *)
(** * Text of the edit form *)
(* ================================================================== *)

Module Text.

(** ECMAScript [WhiteSpace] and [LineTerminator] among the 8-bit units:
    tab, line feed, vertical tab, form feed, carriage return, space and
    no-break space. *)
Definition isWhiteSpace (c : ascii) : bool :=
  let n := CodeUnit.code c in
  CodeUnit.between 9 13 n || (n =? 32)%N || (n =? 160)%N.

Fixpoint trimStart (s : string) : string :=
  match s with
  | EmptyString => EmptyString
  | String c s' => if isWhiteSpace c then trimStart s' else s
  end.

Fixpoint trimEnd (s : string) : string :=
  match s with
  | EmptyString => EmptyString
  | String c s' =>
      match trimEnd s' with
      | EmptyString => if isWhiteSpace c then EmptyString else String c EmptyString
      | t => String c t
      end
  end.

(** [s.trim()] *)
Definition trim (s : string) : string := trimEnd (trimStart s).

(** [s.split(sep)] with a separator of one unit: the pieces between the
    separators, of which there is always at least one. *)
Fixpoint split (sep : ascii) (s : string) : list string :=
  match s with
  | EmptyString => [EmptyString]
  | String c s' =>
      if Ascii.eqb c sep then EmptyString :: split sep s'
      else match split sep s' with
           | piece :: pieces => String c piece :: pieces
           | [] => [String c EmptyString]
           end
  end.

Definition nonEmpty (s : string) : bool :=
  match s with
  | EmptyString => false
  | String _ _ => true
  end.

(** [input.split(',').map(k => k.trim()).filter(k => k)] *)
Definition parseKeys (input : string) : list string :=
  filter nonEmpty (map trim (split "," input)).

(** The value of a digit in the given radix, if it is one. *)
Definition digitValue (radix : Z) (c : ascii) : option Z :=
  let n := Z.of_N (CodeUnit.code c) in
  let v := if ((48 <=? n) && (n <=? 57))%Z then Some (n - 48)%Z
           else if ((97 <=? n) && (n <=? 122))%Z then Some (n - 87)%Z
           else if ((65 <=? n) && (n <=? 90))%Z then Some (n - 55)%Z
           else None in
  match v with
  | Some d => if (d <? radix)%Z then Some d else None
  | None => None
  end.

(** The value of the longest prefix of digits; [None] when it is empty. *)
Fixpoint readDigits (radix : Z) (s : string) (acc : Z) (seen : bool) : option Z :=
  match s with
  | EmptyString => if seen then Some acc else None
  | String c s' =>
      match digitValue radix c with
      | Some d => readDigits radix s' (acc * radix + d)%Z true
      | None => if seen then Some acc else None
      end
  end.

(** [parseInt(s)] without a radix; [None] is NaN.  The integer read is
    kept exactly: it is the value of the source for every integer that a
    number holds exactly, those up to 2^53 in absolute value, which is
    the range the properties below are stated for. *)
Definition parseInt (s : string) : option Z :=
  let s1 := trimStart s in
  let '(sign, s2) :=
    match s1 with
    | String "-" r => ((-1)%Z, r)
    | String "+" r => (1%Z, r)
    | _ => (1%Z, s1)
    end in
  let '(radix, s3) :=
    match s2 with
    | String "0" (String "x" r) => (16%Z, r)
    | String "0" (String "X" r) => (16%Z, r)
    | _ => (10%Z, s2)
    end in
  match readDigits radix s3 0%Z false with
  | Some n => Some (sign * n)%Z
  | None => None
  end.

(** A keyword as the edit form keeps it: not empty, without a comma,
    without white space at either end. *)
Definition clean (k : string) : Prop :=
  k <> EmptyString
  /\ ~ In ","%char (list_ascii_of_string k)
  /\ (forall c, Str.firstChar k = Some c -> isWhiteSpace c = false)
  /\ (forall c, Str.lastChar k = Some c -> isWhiteSpace c = false).

End Text.

(* ================================================================== *)
(** * Arrays: [slice] with two bounds, [find], assignment in place *)
(* ================================================================== *)

Module Arr.

(** A relative index brought into [0, len]. *)
Definition clamp (len i : Z) : Z :=
  if (i <? 0)%Z then Z.max (len + i) 0 else Z.min i len.

(** [arr.slice(start, end)] *)
Definition slice2 (A : Type) (arr : list A) (start stop : Z) : list A :=
  let len := Z.of_nat (List.length arr) in
  let k := clamp len start in
  let final := clamp len stop in
  firstn (Z.to_nat (final - k)) (skipn (Z.to_nat k) arr).

(** The first element that satisfies [p] replaced by its image: what an
    assignment to a field of the object returned by [find] does to the
    array that holds the object. *)
Fixpoint updateFirst (A : Type) (p : A -> bool) (f : A -> A) (l : list A) : list A :=
  match l with
  | [] => []
  | a :: l' => if p a then f a :: l' else a :: updateFirst p f l'
  end.

End Arr.

(* ================================================================== *)
(** * The list of selected entries: edit, delete, toggle, clear *)
(* ================================================================== *)

Module Manage.

Inductive Method : Type := EditItem | DeleteItem | ToggleItem.

(** What these methods hand to the logger. *)
Inductive Message : Type :=
| ItemMissing (method : Method) (itemId : string)
| Editing (name : string)
| Edited (name : string)
| Deleting (name : string)
| InjectionCleared (name : string)
| Deleted (name : string)
| Toggled (name : string) (nowEnabled : bool)
| NothingToClear
| AboutToClear (count : nat)
| AllInjectionsCleared (count : nat)
| AllCleared (count : nat)
| ClearCancelled.

Inductive ToastText : Type :=
| SavedToast (name : string)
| DeletedToast
| ClearedToast.

Inductive Notice : Type :=
| Logged (lv : Level) (m : Message)
| Toasted (t : ToastText).

(** The instance once its drawer is built: the world, the page of the
    list of selected entries, what that list shows, the page bar (the
    page and the number of pages it was bound with, when displayed), and
    the notices of the methods below. *)
Record State := mkState {
  world : World;
  activatedPage : Z;
  shown : list Item;
  pager : option (Z * Z);
  notices : list Notice
}.

(** [this.activatedPerPage], set once by the constructor. *)
Definition activatedPerPage : Z := 5.

Inductive Result (A : Type) : Type :=
| Done (a : A) (s : State)
| Failed (e : Exception) (s : State).

Arguments Failed {A} e s.

Definition C (A : Type) : Type := State -> Result A.

Definition done (A : Type) (a : A) : C A := fun s => Done a s.

Definition andThen (A B : Type) (c : C A) (f : A -> C B) : C B :=
  fun s =>
    match c s with
    | Done a s' => f a s'
    | Failed e s' => Failed e s'
    end.

Declare Scope manage_scope.
Delimit Scope manage_scope with manage.
Notation "x <- c ;; k" := (andThen c (fun x => k))
  (at level 61, c at next level, right associativity) : manage_scope.
Notation "c ;; k" := (andThen c (fun _ => k))
  (at level 61, right associativity) : manage_scope.

Definition setWorld (w : World) (s : State) : State :=
  mkState w (activatedPage s) (shown s) (pager s) (notices s).

(** A computation on the world, run on the world of the instance. *)
Definition onWorld (A : Type) (c : M A) : C A :=
  fun s =>
    match c (world s) with
    | Returned a w => Done a (setWorld w s)
    | Threw e w => Failed e (setWorld w s)
    end.

Definition note (n : Notice) : C unit :=
  fun s => Done tt (mkState (world s) (activatedPage s) (shown s) (pager s)
                      (notices s ++ [n])).

(** [logger.<level>(...)]; logging is switched off
    ([logger.ENABLE_LOGGING]), so nothing goes to the console. *)
Definition log (lv : Level) (m : Message) : C unit := note (Logged lv m).

(** [if (typeof toastr !== 'undefined') toastr.success(...)] *)
Definition notify (t : ToastText) : C unit :=
  fun s =>
    match toastr (world s) with
    | Some _ => note (Toasted t) s
    | None => Done tt s
    end.

(** [this.selectedItems = items] *)
Definition setItems (items : list Item) : C unit :=
  onWorld (modify (set_selectedItems items)).

(** [Math.ceil(n / this.activatedPerPage)] *)
Definition totalPagesOf (n : nat) : Z :=
  Qceiling (inject_Z (Z.of_nat n) / inject_Z activatedPerPage).

(** The entries of page [page]. *)
Definition pageItems (items : list Item) (page : Z) : list Item :=
  let start := ((page - 1) * activatedPerPage)%Z in
  Arr.slice2 items start (start + activatedPerPage)%Z.

(** [renderActivatedItems()]: the page is brought back into the pages
    there are, the entries of that page are shown, and the page bar is
    displayed when there is more than one page.  With no entry the list
    shows none, the bar is hidden and the page is left as it is. *)
Definition renderActivatedItems : C unit :=
  fun s =>
    let items := selectedItems (world s) in
    match items with
    | [] => Done tt (mkState (world s) (activatedPage s) [] None (notices s))
    | _ :: _ =>
        let totalPages := totalPagesOf (List.length items) in
        let page := Z.min (activatedPage s) (Z.max 1 totalPages) in
        Done tt (mkState (world s) page (pageItems items page)
                   (if (1 <? totalPages)%Z then Some (page, totalPages) else None)
                   (notices s))
    end.

(** What is in view: the page, the entries shown, the page bar. *)
Definition view (s : State) : Z * list Item * option (Z * Z) :=
  (activatedPage s, shown s, pager s).

(** The state a computation ended in. *)
Definition final (A : Type) (r : Result A) : State :=
  match r with
  | Done _ s => s
  | Failed _ s => s
  end.

(** What [renderActivatedItems] leaves in view for a list and a page. *)
Definition viewOf (items : list Item) (page : Z) : Z * list Item * option (Z * Z) :=
  match items with
  | [] => (page, [], None)
  | _ :: _ =>
      let totalPages := totalPagesOf (List.length items) in
      let p := Z.min page (Z.max 1 totalPages) in
      (p, pageItems items p, if (1 <? totalPages)%Z then Some (p, totalPages) else None)
  end.

(** What is shown is a page of the list: the page is one of the pages
    there are, the entries shown are the five (or fewer, on the last
    page) of that page, and the page bar, when displayed, tells the page
    and the number of pages, of which there are several.  With no entry
    nothing is shown. *)
Definition settled (s : State) : Prop :=
  let items := selectedItems (world s) in
  (1 <= activatedPage s)%Z
  /\ (forall c t, pager s = Some (c, t) ->
       c = activatedPage s /\ t = totalPagesOf (List.length items) /\ (1 < t)%Z)
  /\ (items = [] -> shown s = [] /\ pager s = None)
  /\ (items <> [] ->
      (activatedPage s <= totalPagesOf (List.length items))%Z
      /\ shown s = firstn 5 (skipn (Z.to_nat (5 * (activatedPage s - 1))) items)).

Inductive PageAction : Type := Prev | Next.

(** A click on a button of the page bar, with the page and the number of
    pages the bar was bound with.  A bar that is not displayed cannot be
    clicked. *)
Definition clickPage (action : PageAction) : C unit :=
  fun s =>
    match pager s with
    | None => Done tt s
    | Some (currentPage, totalPages) =>
        match action with
        | Prev =>
            if (1 <? currentPage)%Z
            then renderActivatedItems
                   (mkState (world s) (activatedPage s - 1) (shown s) (pager s) (notices s))
            else Done tt s
        | Next =>
            if (currentPage <? totalPages)%Z
            then renderActivatedItems
                   (mkState (world s) (activatedPage s + 1) (shown s) (pager s) (notices s))
            else Done tt s
        end
    end.

Definition hasId (itemId : string) (item : Item) : bool := String.eqb (id item) itemId.

(** [setExtensionPrompt(`paws_wi_${item.id}`, '', IN_CHAT, 0, false, SYSTEM)] *)
Definition clearPrompt (item : Item) : M unit :=
  bind (gets host) (fun h =>
    setExtensionPrompt ("paws_wi_" ++ id item)%string "" (extension_prompt_types_IN_CHAT h)
      (Js.Num 0) false (Js.Num (inject_Z (extension_prompt_roles_SYSTEM h)))).

(** The entry with its switch set. *)
Definition withEnabled (b : bool) (item : Item) : Item :=
  {| id := id item; enabled := b; worldName := worldName item;
     uid := uid item; name := name item; content := content item;
     key := key item; keysecondary := keysecondary item;
     constant := constant item; order := order item; depth := depth item;
     position := position item; role := role item;
     probability := probability item;
     scan_depth := scan_depth item; case_sensitive := case_sensitive item;
     match_whole_words := match_whole_words item; sticky := sticky item;
     cooldown := cooldown item; delay := delay item;
     selectiveLogic := selectiveLogic item; disable := disable item |}.

(** What the fields of the edit popup hold when it is closed. *)
Record EditForm := mkEditForm {
  f_content : string;
  f_constant : string;
  f_key : string;
  f_keysecondary : string;
  f_case_sensitive : bool;
  f_scan_depth : string;
  f_probability : string;
  f_depth : string;
  f_order : string
}.

(** The assignments of [editItem] to the entry. *)
Definition applyForm (atDepth : Z) (form : EditForm) (item : Item) : Item :=
  {| id := id item; enabled := enabled item; worldName := worldName item;
     uid := uid item; name := name item;
     content := f_content form;
     key := Some (Text.parseKeys (f_key form));
     keysecondary := Some (Text.parseKeys (f_keysecondary form));
     constant := String.eqb (f_constant form) "true";
     order := Js.Num (inject_Z (Js.orInt (Text.parseInt (f_order form)) 100));
     depth := Js.Num (inject_Z (Js.orInt (Text.parseInt (f_depth form)) 4));
     position := atDepth;
     role := match role item with Js.Undefined => Js.Num 0 | r => r end;
     probability := Js.Num (inject_Z (Js.orInt (Text.parseInt (f_probability form)) 100));
     scan_depth := Some (Js.orInt (Text.parseInt (f_scan_depth form)) 10);
     case_sensitive := f_case_sensitive form;
     match_whole_words := match_whole_words item; sticky := sticky item;
     cooldown := cooldown item; delay := delay item;
     selectiveLogic := selectiveLogic item; disable := disable item |}.

(** What [parseInt(field) || d] stores, said of the stored value by
    [holds]: the default when the field does not parse or parses to 0,
    and the integer read otherwise, for an integer that a number holds
    exactly. *)
Definition storedFrom (field : string) (d : Z) (holds : Z -> Prop) : Prop :=
  (Text.parseInt field = None \/ Text.parseInt field = Some 0%Z -> holds d)
  /\ (forall z, Text.parseInt field = Some z -> z <> 0%Z ->
        (Z.abs z <= 9007199254740991)%Z -> holds z).

Local Open Scope manage_scope.

(** [editItem(itemId)], given what the popup resolves to and the fields
    of its form.  No other handler changes the list while the popup is
    open. *)
Definition editItem (itemId : string) (saved : bool) (form : EditForm) : C unit :=
  fun s =>
    match find (hasId itemId) (selectedItems (world s)) with
    | None => log WARN (ItemMissing EditItem itemId) s
    | Some item =>
        (log DEBUG (Editing (name item)) ;;
         if saved then
           let item' := applyForm (world_info_position_atDepth (host (world s))) form item in
           setItems (Arr.updateFirst (hasId itemId) (fun _ => item') (selectedItems (world s))) ;;
           onWorld saveSelectedItems ;;
           renderActivatedItems ;;
           onWorld (updateItemPrompt item') ;;
           notify (SavedToast (name item')) ;;
           log INFO (Edited (name item'))
         else done tt) s
    end.

(** [deleteItem(id)] *)
Definition deleteItem (itemId : string) : C unit :=
  fun s =>
    match find (hasId itemId) (selectedItems (world s)) with
    | None => log WARN (ItemMissing DeleteItem itemId) s
    | Some item =>
        (log DEBUG (Deleting (name item)) ;;
         onWorld (clearPrompt item) ;;
         log DEBUG (InjectionCleared (name item)) ;;
         setItems (filter (fun i => negb (hasId itemId i)) (selectedItems (world s))) ;;
         onWorld saveSelectedItems ;;
         renderActivatedItems ;;
         log INFO (Deleted (name item)) ;;
         notify DeletedToast) s
    end.

(** [toggleItem(id)] *)
Definition toggleItem (itemId : string) : C unit :=
  fun s =>
    match find (hasId itemId) (selectedItems (world s)) with
    | None => log WARN (ItemMissing ToggleItem itemId) s
    | Some item =>
        let item' := withEnabled (negb (enabled item)) item in
        (setItems (Arr.updateFirst (hasId itemId) (fun _ => item') (selectedItems (world s))) ;;
         onWorld saveSelectedItems ;;
         renderActivatedItems ;;
         onWorld (updateItemPrompt item') ;;
         log INFO (Toggled (name item') (enabled item'))) s
    end.

(** [clearAllItems()], given the answer to its [confirm] dialog, which
    is only asked when there is an entry. *)
Definition clearAllItems (confirmed : bool) : C unit :=
  fun s =>
    let items := selectedItems (world s) in
    match items with
    | [] => log DEBUG NothingToClear s
    | _ :: _ =>
        let count := List.length items in
        (log DEBUG (AboutToClear count) ;;
         if confirmed then
           onWorld (forEach clearPrompt items) ;;
           log DEBUG (AllInjectionsCleared count) ;;
           setItems [] ;;
           onWorld saveSelectedItems ;;
           renderActivatedItems ;;
           log INFO (AllCleared count) ;;
           notify ClearedToast
         else log DEBUG ClearCancelled) s
    end.

End Manage.

(* ================================================================== *)
(** * A drawer with two entries *)
(* ================================================================== *)

Module Scene.

(** A keyword entry and a constant entry, of different ids. *)
Definition two : list Item :=
  [Sample.entry ["cat"] [] (Js.Num 100) None false false;
   Sample.flagged true false ["dog"]].

(** The instance with the given entries selected, on its first page. *)
Definition listed (items : list Item) : Manage.State :=
  {| Manage.world :=
       {| selectedItems := items; chat := Some [Sample.said "a cat"];
          randomSource := fun _ => 0%Q; randomCalls := 0; clock := 1700000000000;
          loggerCalls := []; console := []; promptCalls := []; saveRequests := 0;
          toastr := Some []; host := mkHost 4 1 0 |};
     Manage.activatedPage := 1;
     Manage.shown := [];
     Manage.pager := None;
     Manage.notices := [] |}.

(** An edit form that changes the keywords and the numbers. *)
Definition form : Manage.EditForm :=
  {| Manage.f_content := "new text";
     Manage.f_constant := "false";
     Manage.f_key := " cat , dog,, ";
     Manage.f_keysecondary := "";
     Manage.f_case_sensitive := true;
     Manage.f_scan_depth := "0";
     Manage.f_probability := "";
     Manage.f_depth := "2";
     Manage.f_order := "abc" |}.

End Scene.

(* ================================================================== *)
(** * Strings: basic facts *)
(* ================================================================== *)

Section StringFacts.

Local Open Scope string_scope.

Lemma append_nil_r (s : string) : s ++ "" = s.
Proof. induction s as [|c s IH]; simpl; [reflexivity | now rewrite IH]. Qed.

Lemma append_assoc (a b c : string) : (a ++ b) ++ c = a ++ (b ++ c).
Proof. induction a as [|x a IH]; simpl; [reflexivity | now rewrite IH]. Qed.

Lemma prefix_occurs (k s : string) :
  String.prefix k s = true <-> exists post, s = k ++ post.
Proof.
  revert s; induction k as [|c k IH]; intros s.
  - split; [intros _; exists s; reflexivity | intros _; now destruct s].
  - destruct s as [|d s]; simpl.
    + split; [discriminate | intros [post H]; discriminate].
    + destruct (ascii_dec c d) as [->|Hne].
      * rewrite IH. split; intros [post H]; exists post.
        -- now rewrite H.
        -- now inversion H.
      * split; [discriminate | intros [post H]; inversion H; congruence].
Qed.

Lemma includes_occurs (s k : string) :
  Str.includes s k = true <-> Spec.occursIn k s.
Proof.
  unfold Spec.occursIn. induction s as [|c s IH].
  - change (Str.includes "" k) with (String.prefix k "" || false).
    rewrite orb_false_r, prefix_occurs. split.
    + intros [post H]. exists "", post. exact H.
    + intros [pre [post H]]. destruct pre; simpl in H.
      * now exists post.
      * discriminate.
  - change (Str.includes (String c s) k)
      with (String.prefix k (String c s) || Str.includes s k).
    rewrite orb_true_iff, prefix_occurs, IH. split.
    + intros [[post H] | [pre [post H]]].
      * exists "", post. exact H.
      * exists (String c pre), post. simpl. now rewrite H.
    + intros [pre [post H]]. destruct pre as [|d pre]; simpl in H.
      * left. now exists post.
      * right. exists pre, post. now inversion H.
Qed.

Lemma toLowerCase_empty (s : string) : Str.toLowerCase s = "" <-> s = "".
Proof. destruct s; simpl; split; intros H; try reflexivity; discriminate. Qed.

Lemma toLowerCase_append (a b : string) :
  Str.toLowerCase (a ++ b) = Str.toLowerCase a ++ Str.toLowerCase b.
Proof. induction a as [|c a IH]; simpl; [reflexivity | now rewrite IH]. Qed.

Lemma lastChar_cons (c : ascii) (s : string) :
  Str.lastChar (String c s) = Spec.lastAfter (Some c) s.
Proof. destruct s; reflexivity. Qed.

Lemma lastAfter_append (prev : option ascii) (a b : string) :
  Spec.lastAfter prev (a ++ b) = Spec.lastAfter (Spec.lastAfter prev a) b.
Proof.
  revert prev; induction a as [|c a IH]; intros prev; [reflexivity|].
  change (String c a ++ b) with (String c (a ++ b)).
  unfold Spec.lastAfter at 1 3.
  rewrite !lastChar_cons. apply IH.
Qed.

Lemma lastChar_lastAfter (s : string) : Str.lastChar s = Spec.lastAfter None s.
Proof. destruct s; reflexivity. Qed.

End StringFacts.

(* ================================================================== *)
(** * The pattern built by [matchKeys] always parses *)
(* ================================================================== *)

Section Parsing.

Import RegExp.
Local Open Scope string_scope.

Lemma parseFrom_plain (c : ascii) (s : string) (top : Frame) (stack : list Frame) :
  Str.inEscapeClass c = false ->
  parseFrom (String c s) top stack = parseFrom s (addTerm top (Char c)) stack.
Proof.
  destruct c as [[|] [|] [|] [|] [|] [|] [|] [|]]; intros H;
    vm_compute in H; try discriminate H; reflexivity.
Qed.

Lemma parseFrom_escaped (c : ascii) (s : string) (top : Frame) (stack : list Frame) :
  Str.inEscapeClass c = true ->
  parseFrom (String "\" (String c s)) top stack
  = parseFrom s (addTerm top (Char c)) stack.
Proof.
  destruct c as [[|] [|] [|] [|] [|] [|] [|] [|]]; intros H;
    vm_compute in H; try discriminate H; reflexivity.
Qed.

Lemma parseFrom_literal (k rest : string) (top : Frame) (stack : list Frame) :
  parseFrom (Str.escapeRegExp k ++ rest) top stack
  = parseFrom rest (mkFrame (alts top) (Spec.literal (cur top) k)) stack.
Proof.
  revert top; induction k as [|c k IH]; intros top.
  - destruct top; reflexivity.
  - simpl Str.escapeRegExp. destruct (Str.inEscapeClass c) eqn:E.
    + change (parseFrom (String "\" (String c (Str.escapeRegExp k ++ rest))) top stack
              = parseFrom rest (mkFrame (alts top) (Spec.literal (cur top) (String c k))) stack).
      rewrite parseFrom_escaped by exact E. rewrite IH. reflexivity.
    + change (parseFrom (String c (Str.escapeRegExp k ++ rest)) top stack
              = parseFrom rest (mkFrame (alts top) (Spec.literal (cur top) (String c k))) stack).
      rewrite parseFrom_plain by exact E. rewrite IH. reflexivity.
Qed.

Lemma parseFrom_alternatives (ks : list string) (k rest : string)
  (f : Frame) (stack : list Frame) :
  parseFrom (Str.join "|" (map Str.escapeRegExp (k :: ks)) ++ rest) f stack
  = parseFrom rest (Spec.alternatives f k ks) stack.
Proof.
  revert k f; induction ks as [|k' ks IH]; intros k f.
  - apply parseFrom_literal.
  - change (Str.join "|" (map Str.escapeRegExp (k :: k' :: ks)))
      with (Str.escapeRegExp k ++ "|" ++ Str.join "|" (map Str.escapeRegExp (k' :: ks))).
    rewrite append_assoc, parseFrom_literal.
    change (("|" ++ Str.join "|" (map Str.escapeRegExp (k' :: ks))) ++ rest)
      with (String "|" (Str.join "|" (map Str.escapeRegExp (k' :: ks)) ++ rest)).
    change (parseFrom (Str.join "|" (map Str.escapeRegExp (k' :: ks)) ++ rest)
              (nextAlternative (mkFrame (alts f) (Spec.literal (cur f) k))) stack
            = parseFrom rest (Spec.alternatives f k (k' :: ks)) stack).
    rewrite IH. reflexivity.
Qed.

Lemma parse_wholeWordPattern (k : string) (ks : list string) :
  parse (wholeWordPattern (k :: ks)) = inl (Spec.wholeWordNode k ks).
Proof.
  unfold parse, wholeWordPattern.
  change (parseFrom (Str.join "|" (map Str.escapeRegExp (k :: ks)) ++ ")\b")
            emptyFrame [addTerm emptyFrame WordBoundary]
          = inl (Spec.wholeWordNode k ks)).
  rewrite parseFrom_alternatives. reflexivity.
Qed.

End Parsing.

(* ================================================================== *)
(** * What the matcher accepts *)
(* ================================================================== *)

Section Matching.

Import RegExp.
Local Open Scope string_scope.

Variable ic : bool.

Lemma existsb_flat_map (A B : Type) (f : A -> list B) (g : B -> bool) (l : list A) :
  existsb g (flat_map f l) = existsb (fun a => existsb g (f a)) l.
Proof.
  induction l as [|a l IH]; simpl; [reflexivity|].
  now rewrite existsb_app, IH.
Qed.

Lemma existsb_pointwise (A : Type) (f g : A -> bool) (l : list A) :
  (forall a, f a = g a) -> existsb f l = existsb g l.
Proof. intros H; induction l as [|a l IH]; simpl; [reflexivity | now rewrite H, IH]. Qed.

(** The continuation-passing matcher succeeds exactly when the
    continuation accepts one of the end positions. *)
Lemma m_ends (r : Node) (x : Pos) (k : Pos -> bool) :
  m ic r x k = existsb k (Spec.ends ic r x).
Proof.
  revert x k; induction r as [| c | | a IHa b IHb | a IHa b IHb | a IHa]; intros x k; simpl.
  - now rewrite orb_false_r.
  - destruct (rest x) as [|d s']; [reflexivity|].
    destruct (_ =? _)%N; simpl; [now rewrite orb_false_r | reflexivity].
  - destruct (isBoundary _ _); simpl; [now rewrite orb_false_r | reflexivity].
  - rewrite IHa, existsb_flat_map. apply existsb_pointwise. intros y. apply IHb.
  - now rewrite IHa, IHb, existsb_app.
  - apply IHa.
Qed.

Lemma m_accepts (r : Node) (x : Pos) :
  m ic r x (fun _ => true) = true <-> exists y, Spec.Matches ic r x y.
Proof.
  rewrite m_ends, existsb_exists. unfold Spec.Matches.
  split; intros [y H]; exists y; tauto.
Qed.

Lemma Matches_Empty (x y : Pos) : Spec.Matches ic Empty x y <-> y = x.
Proof. unfold Spec.Matches; simpl. intuition congruence. Qed.

Lemma Matches_Seq (a b : Node) (x y : Pos) :
  Spec.Matches ic (Seq a b) x y
  <-> exists z, Spec.Matches ic a x z /\ Spec.Matches ic b z y.
Proof. unfold Spec.Matches; simpl. apply in_flat_map. Qed.

Lemma Matches_Disjunction (a b : Node) (x y : Pos) :
  Spec.Matches ic (Disjunction a b) x y
  <-> Spec.Matches ic a x y \/ Spec.Matches ic b x y.
Proof. unfold Spec.Matches; simpl. apply in_app_iff. Qed.

Lemma Matches_Group (a : Node) (x y : Pos) :
  Spec.Matches ic (Group a) x y <-> Spec.Matches ic a x y.
Proof. reflexivity. Qed.

Lemma Matches_WordBoundary (x y : Pos) :
  Spec.Matches ic WordBoundary x y
  <-> y = x /\ isBoundary (before x) (Str.firstChar (rest x)) = true.
Proof.
  unfold Spec.Matches; simpl. destruct (isBoundary _ _); simpl.
  - intuition congruence.
  - intuition discriminate.
Qed.

Lemma Matches_Char (c : ascii) (x y : Pos) :
  Spec.Matches ic (Char c) x y <-> Spec.readLiteral ic (String c "") x = Some y.
Proof.
  unfold Spec.Matches; simpl. destruct (rest x) as [|d s']; simpl.
  - intuition discriminate.
  - destruct (_ =? _)%N; simpl; intuition congruence.
Qed.

Lemma readLiteral_step (c : ascii) (k : string) (x y : Pos) :
  Spec.readLiteral ic (String c k) x = Some y
  <-> exists z, Spec.readLiteral ic (String c "") x = Some z
                /\ Spec.readLiteral ic k z = Some y.
Proof.
  simpl. destruct (rest x) as [|d s'].
  - split; [discriminate | intros [z [H _]]; discriminate].
  - destruct (_ =? _)%N.
    + split.
      * intros H. eexists; split; [reflexivity | exact H].
      * intros [z [H1 H2]]. inversion H1; subst. exact H2.
    + split; [discriminate | intros [z [H _]]; discriminate].
Qed.

Lemma Matches_literal (k : string) (n : Node) (x y : Pos) :
  Spec.Matches ic (Spec.literal n k) x y
  <-> exists z, Spec.Matches ic n x z /\ Spec.readLiteral ic k z = Some y.
Proof.
  revert n x y; induction k as [|c k IH]; intros n x y.
  - simpl. split.
    + intros H. exists y. split; [exact H | reflexivity].
    + intros [z [H1 H2]]. inversion H2; subst. exact H1.
  - change (Spec.literal n (String c k)) with (Spec.literal (Seq n (Char c)) k).
    rewrite IH. split.
    + intros [z [H1 H2]]. apply Matches_Seq in H1. destruct H1 as [u [Hu Hc]].
      exists u. split; [exact Hu|]. apply readLiteral_step.
      exists z. split; [now apply Matches_Char | exact H2].
    + intros [u [Hu H]]. apply readLiteral_step in H. destruct H as [z [Hc H2]].
      exists z. split; [|exact H2]. apply Matches_Seq.
      exists u. split; [exact Hu | now apply Matches_Char].
Qed.

Lemma Matches_closeFrame (f : Frame) (x y : Pos) :
  Spec.Matches ic (closeFrame f) x y
  <-> Spec.closed ic f x y \/ Spec.Matches ic (cur f) x y.
Proof.
  unfold closeFrame, Spec.closed. destruct (alts f).
  - apply Matches_Disjunction.
  - tauto.
Qed.

Lemma Matches_alternatives (ks : list string) (k : string) (f : Frame) (x y : Pos) :
  Spec.Matches ic (closeFrame (Spec.alternatives f k ks)) x y
  <-> Spec.closed ic f x y
      \/ (exists z, Spec.Matches ic (cur f) x z /\ Spec.readLiteral ic k z = Some y)
      \/ (exists k', In k' ks /\ Spec.readLiteral ic k' x = Some y).
Proof.
  revert k f; induction ks as [|k' ks IH]; intros k f.
  - simpl Spec.alternatives. rewrite Matches_closeFrame. unfold Spec.closed; simpl.
    rewrite Matches_literal. split.
    + intros [H|H]; [now left | right; now left].
    + intros [H|[H|[k' [[] _]]]]; [now left | now right].
  - change (Spec.alternatives f k (k' :: ks))
      with (Spec.alternatives
              (nextAlternative (mkFrame (alts f) (Spec.literal (cur f) k))) k' ks).
    rewrite IH. unfold Spec.closed at 1. simpl alts. simpl cur.
    rewrite Matches_closeFrame. unfold Spec.closed; simpl alts; simpl cur.
    rewrite Matches_literal. split.
    + intros [[H|H]|[[z [Hz H]]|[k'' [Hin H]]]].
      * now left.
      * right; now left.
      * apply Matches_Empty in Hz; subst z.
        right; right. exists k'. split; [now left | exact H].
      * right; right. exists k''. split; [now right | exact H].
    + intros [H|[H|[k'' [[->|Hin] H]]]].
      * left; now left.
      * left; now right.
      * right; left. exists x. split; [now apply Matches_Empty | exact H].
      * right; right. exists k''. now split.
Qed.

(** A match of [\b(k1|k2|...)\b] at [x]: a boundary at [x], one of the
    keywords read from there, a boundary where it ends. *)
Lemma m_wholeWordNode (k : string) (ks : list string) (x : Pos) :
  m ic (Spec.wholeWordNode k ks) x (fun _ => true) = true
  <-> isBoundary (before x) (Str.firstChar (rest x)) = true
      /\ exists k' y, In k' (k :: ks)
           /\ Spec.readLiteral ic k' x = Some y
           /\ isBoundary (before y) (Str.firstChar (rest y)) = true.
Proof.
  rewrite m_accepts. unfold Spec.wholeWordNode. split.
  - intros [y H].
    apply Matches_Seq in H. destruct H as [z2 [H Hb2]].
    apply Matches_Seq in H. destruct H as [z1 [H Hg]].
    apply Matches_Seq in H. destruct H as [z0 [He Hb1]].
    apply Matches_Empty in He. subst z0.
    apply Matches_WordBoundary in Hb1. destruct Hb1 as [-> Hb1].
    apply Matches_WordBoundary in Hb2. destruct Hb2 as [-> Hb2].
    apply Matches_Group, Matches_alternatives in Hg.
    split; [exact Hb1|].
    destruct Hg as [[]|[[z [Hz H]]|[k' [Hin H]]]].
    + apply Matches_Empty in Hz. subst z.
      exists k, z2. repeat split; [now left | exact H | exact Hb2].
    + exists k', z2. repeat split; [now right | exact H | exact Hb2].
  - intros [Hb1 [k' [y [Hin [Hr Hb2]]]]].
    exists y. apply Matches_Seq. exists y. split.
    + apply Matches_Seq. exists x. split.
      * apply Matches_Seq. exists x. split;
          [now apply Matches_Empty | now apply Matches_WordBoundary].
      * apply Matches_Group, Matches_alternatives.
        destruct Hin as [->|Hin].
        -- right; left. exists x. split; [now apply Matches_Empty | exact Hr].
        -- right; right. exists k'. now split.
    + now apply Matches_WordBoundary.
Qed.

(** [test] looks for a start position anywhere in the text. *)
Lemma searchFrom_spec (r : Node) (s : string) (prev : option ascii) :
  searchFrom ic r prev s = true
  <-> exists pre s', s = pre ++ s'
        /\ m ic r (mkPos (Spec.lastAfter prev pre) s') (fun _ => true) = true.
Proof.
  revert prev; induction s as [|c s IH]; intros prev.
  - change (searchFrom ic r prev "")
      with (m ic r (mkPos prev "") (fun _ => true) || false).
    rewrite orb_false_r. split.
    + intros H. exists "", "". split; [reflexivity | exact H].
    + intros [pre [s' [E H]]]. destruct pre; [|discriminate].
      simpl in E. subst s'. exact H.
  - change (searchFrom ic r prev (String c s))
      with (m ic r (mkPos prev (String c s)) (fun _ => true)
            || searchFrom ic r (Some c) s).
    rewrite orb_true_iff, IH. split.
    + intros [H|[pre [s' [E H]]]].
      * exists "", (String c s). split; [reflexivity | exact H].
      * exists (String c pre), s'. split; [simpl; now rewrite E|].
        unfold Spec.lastAfter at 1. rewrite lastChar_cons. exact H.
    + intros [pre [s' [E H]]]. destruct pre as [|d pre].
      * left. simpl in E. subst s'. exact H.
      * right. simpl in E. inversion E; subst.
        exists pre, s'. split; [reflexivity|].
        unfold Spec.lastAfter in H at 1. rewrite lastChar_cons in H. exact H.
Qed.

End Matching.

(* ================================================================== *)
(** * Case folding *)
(* ================================================================== *)

Section Folding.

Import RegExp.
Local Open Scope string_scope.

Lemma toLower_idempotent (c : ascii) :
  CodeUnit.toLower (CodeUnit.toLower c) = CodeUnit.toLower c.
Proof. destruct c as [[|] [|] [|] [|] [|] [|] [|] [|]]; reflexivity. Qed.

Lemma unfoldCase_canonicalize (c : ascii) :
  Spec.unfoldCase (CodeUnit.canonicalize true (CodeUnit.toLower c)) = CodeUnit.toLower c.
Proof. destruct c as [[|] [|] [|] [|] [|] [|] [|] [|]]; reflexivity. Qed.

Lemma canonicalize_injective (ic : bool) (c d : ascii) :
  Spec.faithful ic c -> Spec.faithful ic d ->
  CodeUnit.canonicalize ic c = CodeUnit.canonicalize ic d -> c = d.
Proof.
  destruct ic; intros Hc Hd H.
  - destruct Hc as [Hc|Hc]; [discriminate|].
    destruct Hd as [Hd|Hd]; [discriminate|].
    rewrite <- Hc, <- Hd, <- (unfoldCase_canonicalize c), <- (unfoldCase_canonicalize d).
    rewrite Hc, Hd, H. reflexivity.
  - unfold CodeUnit.canonicalize, CodeUnit.code in H; simpl in H.
    rewrite <- (ascii_N_embedding c), <- (ascii_N_embedding d), H. reflexivity.
Qed.

Lemma Faithful_false (s : string) : Spec.Faithful false s.
Proof. induction s; simpl; [exact I | split; [now left | assumption]]. Qed.

Lemma Faithful_toLowerCase (ic : bool) (s : string) :
  Spec.Faithful ic (Str.toLowerCase s).
Proof.
  induction s as [|c s IH]; simpl; [exact I|].
  split; [right; apply toLower_idempotent | exact IH].
Qed.

Lemma Faithful_folded (caseSensitive : bool) (s : string) :
  Spec.Faithful (negb caseSensitive) (Spec.folded caseSensitive s).
Proof.
  destruct caseSensitive; simpl; [apply Faithful_false | apply Faithful_toLowerCase].
Qed.

Lemma Faithful_suffix (ic : bool) (a b : string) :
  Spec.Faithful ic (a ++ b) -> Spec.Faithful ic b.
Proof. induction a as [|c a IH]; simpl; [trivial | intros [_ H]; auto]. Qed.

(** On faithful units, reading a keyword is reading its very units. *)
Lemma readLiteral_exact (ic : bool) (k s : string) (p : option ascii) (y : Pos) :
  Spec.Faithful ic k -> Spec.Faithful ic s ->
  Spec.readLiteral ic k (mkPos p s) = Some y
  <-> exists post, s = k ++ post /\ y = mkPos (Spec.lastAfter p k) post.
Proof.
  revert s p; induction k as [|c k IH]; intros s p Hk Hs.
  - simpl. split.
    + intros H. inversion H; subst. now exists s.
    + intros [post [-> ->]]. reflexivity.
  - destruct Hk as [Hc Hk]. simpl Spec.readLiteral.
    destruct s as [|d s]; simpl rest.
    + split; [discriminate | intros [post [H _]]; discriminate].
    + destruct Hs as [Hd Hs].
      destruct (N.eqb_spec (CodeUnit.canonicalize ic d) (CodeUnit.canonicalize ic c))
        as [E|E].
      * apply (canonicalize_injective Hd Hc) in E. subst d.
        rewrite (IH s (Some c) Hk Hs).
        unfold Spec.lastAfter at 2. rewrite lastChar_cons.
        split; intros [post [H1 H2]]; exists post.
        -- now rewrite H1.
        -- split; [now inversion H1 | exact H2].
      * split; [discriminate|]. intros [post [H _]].
        inversion H; subst. now elim E.
Qed.

(** [test] on the tree of [\b(k1|k2|...)\b]. *)
Lemma test_wholeWordNode (ic : bool) (k : string) (ks : list string) (text : string) :
  Spec.Faithful ic text ->
  (forall k', In k' (k :: ks) -> Spec.Faithful ic k') ->
  test (mkRegExp (Spec.wholeWordNode k ks) true ic) text = true
  <-> exists k', In k' (k :: ks) /\ Spec.occursAsWholeWord k' text.
Proof.
  intros Ht Hks. unfold test; simpl source; simpl ignoreCase.
  rewrite searchFrom_spec. split.
  - intros [pre [s' [E H]]]. apply m_wholeWordNode in H.
    destruct H as [Hb1 [k' [y [Hin [Hr Hb2]]]]].
    simpl before in Hb1; simpl rest in Hb1.
    apply readLiteral_exact in Hr;
      [| now apply Hks | rewrite E in Ht; now apply Faithful_suffix in Ht].
    destruct Hr as [post [-> ->]]. simpl in Hb2.
    exists k'. split; [exact Hin|]. exists pre, post. repeat split.
    + exact E.
    + now rewrite lastChar_lastAfter.
    + now rewrite lastChar_lastAfter, lastAfter_append.
  - intros [k' [Hin [pre [post [E [Hb1 Hb2]]]]]].
    exists pre, (k' ++ post). split; [exact E|].
    apply m_wholeWordNode. simpl before; simpl rest. split.
    + now rewrite <- lastChar_lastAfter.
    + exists k', (mkPos (Spec.lastAfter (Spec.lastAfter None pre) k') post).
      split; [exact Hin|]. split.
      * apply readLiteral_exact;
          [now apply Hks | rewrite E in Ht; now apply Faithful_suffix in Ht|].
        now exists post.
      * simpl. now rewrite <- lastAfter_append, <- lastChar_lastAfter.
Qed.

(** Reading a keyword from a position: the stretch read agrees with the
    keyword unit by unit as the engine compares units. *)
Lemma readLiteral_units (ic : bool) (k s : string) (p : option ascii) (y : Pos) :
  Spec.readLiteral ic k (mkPos p s) = Some y
  <-> exists mid post,
        s = mid ++ post /\ Spec.sameUnits ic mid k
        /\ y = mkPos (Spec.lastAfter p mid) post.
Proof.
  revert s p; induction k as [|c k IH]; intros s p.
  - simpl. split.
    + intros H. inversion H; subst. exists "", s. now repeat split.
    + intros [mid [post [-> [Hu ->]]]]. destruct mid; [reflexivity | now elim Hu].
  - simpl Spec.readLiteral. destruct s as [|d s]; simpl rest.
    + split; [discriminate|]. intros [mid [post [E [Hu _]]]].
      destruct mid; [now elim Hu | discriminate E].
    + destruct (N.eqb_spec (CodeUnit.canonicalize ic d) (CodeUnit.canonicalize ic c))
        as [E|E].
      * rewrite (IH s (Some d)). split.
        -- intros [mid [post [-> [Hu ->]]]]. exists (String d mid), post.
           split; [reflexivity|]. split; [now split|].
           unfold Spec.lastAfter at 2. now rewrite lastChar_cons.
        -- intros [mid [post [Es [Hu ->]]]]. destruct mid as [|d' mid]; [now elim Hu|].
           simpl in Es. inversion Es; subst d' s. destruct Hu as [_ Hu].
           exists mid, post. split; [reflexivity|]. split; [exact Hu|].
           unfold Spec.lastAfter at 1. now rewrite lastChar_cons.
      * split; [discriminate|]. intros [mid [post [Es [Hu _]]]].
        destruct mid as [|d' mid]; [now elim Hu|].
        simpl in Es. inversion Es; subst d' s. destruct Hu as [Hc _]. now elim E.
Qed.

(** Without [ignoreCase] the units agree exactly when the strings are
    equal. *)
Lemma sameUnits_exact (a b : string) : Spec.sameUnits false a b <-> a = b.
Proof.
  revert b; induction a as [|c a IH]; intros [|d b]; simpl;
    try (split; [intros [] | discriminate]); [tauto|].
  rewrite IH. unfold CodeUnit.canonicalize, CodeUnit.code; simpl. split.
  - intros [E ->]. f_equal.
    rewrite <- (ascii_N_embedding c), <- (ascii_N_embedding d), E. reflexivity.
  - intros E. inversion E. now split.
Qed.

Lemma sameUnits_refl (ic : bool) (s : string) : Spec.sameUnits ic s s.
Proof. induction s; simpl; [exact I | now split]. Qed.

(** [test] on the tree of [\b(k1|k2|...)\b], on any text. *)
Lemma test_wholeWordNode_units (ic : bool) (k : string) (ks : list string) (text : string) :
  test (mkRegExp (Spec.wholeWordNode k ks) true ic) text = true
  <-> exists k', In k' (k :: ks) /\ Spec.readAsWholeWord ic k' text.
Proof.
  unfold test; simpl source; simpl ignoreCase.
  rewrite searchFrom_spec. split.
  - intros [pre [s' [E H]]]. apply m_wholeWordNode in H.
    destruct H as [Hb1 [k' [y [Hin [Hr Hb2]]]]].
    simpl before in Hb1; simpl rest in Hb1.
    apply readLiteral_units in Hr. destruct Hr as [mid [post [-> [Hu ->]]]].
    simpl in Hb2.
    exists k'. split; [exact Hin|]. exists pre, mid, post. repeat split.
    + exact E.
    + exact Hu.
    + now rewrite lastChar_lastAfter.
    + now rewrite lastChar_lastAfter, lastAfter_append.
  - intros [k' [Hin [pre [mid [post [E [Hu [Hb1 Hb2]]]]]]]].
    exists pre, (mid ++ post). split; [exact E|].
    apply m_wholeWordNode. simpl before; simpl rest. split.
    + now rewrite <- lastChar_lastAfter.
    + exists k', (mkPos (Spec.lastAfter (Spec.lastAfter None pre) mid) post).
      split; [exact Hin|]. split.
      * apply readLiteral_units. exists mid, post. now repeat split.
      * simpl. now rewrite <- lastAfter_append, <- lastChar_lastAfter.
Qed.

End Folding.

(* ================================================================== *)
(** * [matchKeys] *)
(* ================================================================== *)

Section MatchKeys.

Local Open Scope string_scope.

Lemma matchKeys_nil (text : string) (caseSensitive wholeWords : bool) :
  matchKeys text [] caseSensitive wholeWords = inl false.
Proof. reflexivity. Qed.

Lemma searchKeys_folded (caseSensitive : bool) (keys : list string) :
  (if caseSensitive then keys else map Str.toLowerCase keys)
  = map (Spec.folded caseSensitive) keys.
Proof. destruct caseSensitive; simpl; [now rewrite map_id | reflexivity]. Qed.

(** Whole-word mode: the pattern parses, and [test] answers whether some
    keyword stands between word boundaries. *)
Lemma matchKeys_wholeWords (text : string) (keys : list string) (caseSensitive : bool) :
  exists b, matchKeys text keys caseSensitive true = inl b
    /\ (b = true <->
        exists k, In k keys
          /\ Spec.occursAsWholeWord (Spec.folded caseSensitive k)
               (Spec.folded caseSensitive text)).
Proof.
  destruct keys as [|k ks].
  - exists false. split; [reflexivity|].
    split; [discriminate | intros [k [[] _]]].
  - unfold matchKeys. rewrite searchKeys_folded.
    change (map (Spec.folded caseSensitive) (k :: ks))
      with (Spec.folded caseSensitive k :: map (Spec.folded caseSensitive) ks).
    unfold RegExp.new. rewrite parse_wholeWordPattern.
    eexists. split; [reflexivity|].
    change (if caseSensitive then text else Str.toLowerCase text)
      with (Spec.folded caseSensitive text).
    rewrite test_wholeWordNode.
    + change (Spec.folded caseSensitive k :: map (Spec.folded caseSensitive) ks)
        with (map (Spec.folded caseSensitive) (k :: ks)).
      split.
      * intros [k' [Hin H]]. apply in_map_iff in Hin.
        destruct Hin as [k0 [<- Hin]]. now exists k0.
      * intros [k0 [Hin H]]. exists (Spec.folded caseSensitive k0).
        split; [now apply in_map | exact H].
    + apply Faithful_folded.
    + intros k' Hin.
      change (Spec.folded caseSensitive k :: map (Spec.folded caseSensitive) ks)
        with (map (Spec.folded caseSensitive) (k :: ks)) in Hin.
      apply in_map_iff in Hin. destruct Hin as [k0 [<- _]].
      apply Faithful_folded.
Qed.

(** Whole-word mode on any text: [test] answers whether the units of
    some keyword are read between word boundaries. *)
Lemma matchKeys_wholeWords_units (text : string) (keys : list string)
  (caseSensitive : bool) :
  exists b, matchKeys text keys caseSensitive true = inl b
    /\ (b = true <->
        exists k, In k keys
          /\ Spec.readAsWholeWord (negb caseSensitive) (Spec.folded caseSensitive k)
               (Spec.folded caseSensitive text)).
Proof.
  destruct keys as [|k ks].
  - exists false. split; [reflexivity|].
    split; [discriminate | intros [k [[] _]]].
  - unfold matchKeys. rewrite searchKeys_folded.
    change (map (Spec.folded caseSensitive) (k :: ks))
      with (Spec.folded caseSensitive k :: map (Spec.folded caseSensitive) ks).
    unfold RegExp.new. rewrite parse_wholeWordPattern.
    eexists. split; [reflexivity|].
    change (if caseSensitive then text else Str.toLowerCase text)
      with (Spec.folded caseSensitive text).
    rewrite test_wholeWordNode_units.
    change (Spec.folded caseSensitive k :: map (Spec.folded caseSensitive) ks)
      with (map (Spec.folded caseSensitive) (k :: ks)).
    split.
    + intros [k' [Hin H]]. apply in_map_iff in Hin.
      destruct Hin as [k0 [<- Hin]]. now exists k0.
    + intros [k0 [Hin H]]. exists (Spec.folded caseSensitive k0).
      split; [now apply in_map | exact H].
Qed.

(** Substring mode. *)
Lemma matchKeys_substring (text : string) (keys : list string) (caseSensitive : bool) :
  exists b, matchKeys text keys caseSensitive false = inl b
    /\ (b = true <->
        exists k, In k keys
          /\ Spec.occursIn (Spec.folded caseSensitive k)
               (Spec.folded caseSensitive text)).
Proof.
  destruct keys as [|k ks].
  - exists false. split; [reflexivity|].
    split; [discriminate | intros [k [[] _]]].
  - unfold matchKeys. rewrite searchKeys_folded.
    eexists. split; [reflexivity|].
    change (if caseSensitive then text else Str.toLowerCase text)
      with (Spec.folded caseSensitive text).
    rewrite existsb_exists. split.
    + intros [k' [Hin H]]. apply in_map_iff in Hin.
      destruct Hin as [k0 [<- Hin]]. exists k0.
      split; [exact Hin | now apply includes_occurs].
    + intros [k0 [Hin H]]. exists (Spec.folded caseSensitive k0).
      split; [now apply in_map | now apply includes_occurs].
Qed.

(** [matchKeys] never throws. *)
Lemma matchKeys_returns (text : string) (keys : list string)
  (caseSensitive wholeWords : bool) :
  exists b, matchKeys text keys caseSensitive wholeWords = inl b.
Proof.
  destruct wholeWords.
  - destruct (matchKeys_wholeWords text keys caseSensitive) as [b [H _]]. now exists b.
  - destruct (matchKeys_substring text keys caseSensitive) as [b [H _]]. now exists b.
Qed.

End MatchKeys.

(* ================================================================== *)
(** * Running [shouldActivateItem] *)
(* ================================================================== *)

Section Running.

Local Open Scope string_scope.

Lemma matches_correct (text : string) (keys : list string) (cs ww : bool) :
  matchKeys text keys cs ww = inl (Spec.matches text keys cs ww).
Proof.
  unfold Spec.matches.
  destruct (matchKeys_returns text keys cs ww) as [b H]. now rewrite H.
Qed.

Lemma logger_method_run (lv : Level) (msg : LogMessage) (w : World) :
  logger.method lv msg w = Returned tt (Spec.logged lv msg w).
Proof. reflexivity. Qed.

Lemma keywordSteps_run (item : Item) (w : World) :
  keywordSteps item w =
  if Spec.hasKeywords item
  then Returned (Spec.keywordMatch item (searchTextOf item (Js.orEmpty (chat w)))) w
  else Returned false (Spec.logged WARN (NoKeywords (name item)) w).
Proof.
  unfold keywordSteps, Spec.hasKeywords.
  destruct (Js.noElements (key item) && Js.noElements (keysecondary item)); simpl negb.
  - reflexivity.
  - unfold bind, getContext_chat, gets, Spec.keywordMatch.
    rewrite matches_correct. simpl lift. unfold ret at 1.
    destruct (Js.noElements (keysecondary item)); simpl negb; cbv iota.
    + reflexivity.
    + rewrite matches_correct. reflexivity.
Qed.

Lemma shouldActivateItem_run (item : Item) (w : World) :
  shouldActivateItem item w =
  if constant item then Returned true w
  else if disable item then Returned false w
  else if Spec.gateBlocks item w
       then Returned false
              (Spec.logged DEBUG
                 (ProbabilityCheckFailed (name item) (Spec.nextRoll w) (probability item))
                 (Spec.afterDraw w))
       else keywordSteps item (Spec.afterGate item w).
Proof.
  unfold shouldActivateItem, Spec.gateBlocks, Spec.afterGate.
  destruct (constant item); [reflexivity|].
  destruct (disable item); [reflexivity|].
  destruct (Js.lessThan (Js.toNumber (probability item)) (Some 100%Q)); simpl andb.
  - unfold bind at 1. unfold Math_random.
    change (Js.times (randomSource w (randomCalls w)) 100) with (Spec.nextRoll w).
    change (set_randomCalls (S (randomCalls w)) w) with (Spec.afterDraw w).
    destruct (Js.greaterThan (Some (Spec.nextRoll w)) (Js.toNumber (probability item)));
      reflexivity.
  - reflexivity.
Qed.

Lemma untouched_refl (w : World) : Spec.untouched w w.
Proof. repeat split. Qed.

Lemma untouched_logged (lv : Level) (msg : LogMessage) (w : World) :
  Spec.untouched w (Spec.logged lv msg w).
Proof. repeat split. Qed.

Lemma untouched_afterDraw (w : World) : Spec.untouched w (Spec.afterDraw w).
Proof. repeat split. Qed.

Lemma untouched_trans (a b c : World) :
  Spec.untouched a b -> Spec.untouched b c -> Spec.untouched a c.
Proof.
  unfold Spec.untouched. intros H1 H2.
  repeat match goal with H : _ /\ _ |- _ => destruct H end.
  repeat split; congruence.
Qed.

Lemma untouched_afterGate (item : Item) (w : World) :
  Spec.untouched w (Spec.afterGate item w).
Proof.
  unfold Spec.afterGate. destruct (Js.lessThan _ _);
    [apply untouched_afterDraw | apply untouched_refl].
Qed.

(** Every evaluation returns a boolean, and leaves the world as it was
    but for the draw counter and the logger's record. *)
Lemma shouldActivateItem_returns (item : Item) (w : World) :
  exists b w', shouldActivateItem item w = Returned b w' /\ Spec.untouched w w'.
Proof.
  rewrite shouldActivateItem_run.
  destruct (constant item); [exists true, w; split; [reflexivity | apply untouched_refl]|].
  destruct (disable item); [exists false, w; split; [reflexivity | apply untouched_refl]|].
  destruct (Spec.gateBlocks item w).
  - eexists _, _. split; [reflexivity|].
    eapply untouched_trans; [apply untouched_afterDraw | apply untouched_logged].
  - rewrite keywordSteps_run. destruct (Spec.hasKeywords item).
    + eexists _, _. split; [reflexivity | apply untouched_afterGate].
    + eexists _, _. split; [reflexivity|].
      eapply untouched_trans; [apply untouched_afterGate | apply untouched_logged].
Qed.

End Running.

(* ================================================================== *)
(** * Numbers and windows *)
(* ================================================================== *)

Unset Implicit Arguments.

Section Numbers.

Lemma lessThan_spec (a b : Q) :
  Js.lessThan (Some a) (Some b) = true <-> (a < b)%Q.
Proof.
  unfold Js.lessThan, Js.Qlt_bool. rewrite negb_true_iff. split.
  - intros H. apply Qnot_le_lt. intros Hle.
    apply Qle_bool_iff in Hle. congruence.
  - intros H. destruct (Qle_bool b a) eqn:E; [|reflexivity].
    apply Qle_bool_iff in E. now apply Qlt_not_le in H.
Qed.

Lemma lessThan_false (a b : Q) :
  Js.lessThan (Some a) (Some b) = false <-> ~ (a < b)%Q.
Proof.
  rewrite <- lessThan_spec. destruct (Js.lessThan (Some a) (Some b)).
  - split; [discriminate | intros H; now elim H].
  - split; [discriminate | reflexivity].
Qed.

(** The rounded integer is within one half of the quotient. *)
Lemma roundTiesToEven_near (num den : Z) :
  (0 < den)%Z ->
  (2 * Js.roundTiesToEven num den * den <= 2 * num + den)%Z
  /\ (2 * num - den <= 2 * Js.roundTiesToEven num den * den)%Z
  /\ (0 <= num -> 0 <= Js.roundTiesToEven num den)%Z.
Proof.
  intros Hd. unfold Js.roundTiesToEven.
  pose proof (Z.div_mod num den ltac:(lia)) as E.
  pose proof (Z.mod_pos_bound num den Hd) as B.
  assert (P : (0 <= num -> 0 <= num / den)%Z) by (intros; apply Z.div_pos; lia).
  destruct (Z.compare_spec (2 * (num mod den)) den) as [C|C|C];
    [destruct (Z.even (num / den))|..]; repeat split; try nia.
Qed.

Lemma shift_nonneg (n d : positive) : (0 <= Js.shift n d)%Z.
Proof. unfold Js.shift. lia. Qed.

(** Below 128 the unit in the last place is at most 2^(-46). *)
Lemma shift_below_128 (n d : positive) :
  (Zpos n < 128 * Zpos d)%Z -> (Js.shift n d <= 1028)%Z.
Proof.
  intros H. unfold Js.shift.
  set (P := (2 ^ 1074)%Z).
  assert (HP : (0 < P)%Z) by (apply Z.pow_pos_nonneg; lia).
  set (N := (Zpos n * P / Zpos d)%Z).
  assert (HN : (N < 2 ^ 1081)%Z).
  { apply Z.div_lt_upper_bound; [lia|].
    replace (2 ^ 1081)%Z with (128 * P)%Z
      by (unfold P; change 1081%Z with (7 + 1074)%Z; rewrite Z.pow_add_r by lia; reflexivity).
    nia. }
  assert (H0 : (0 <= N)%Z) by (apply Z.div_pos; lia).
  destruct (Z.eq_dec N 0) as [->|Hne]; [simpl; lia|].
  assert (Z.log2 N < 1081)%Z by (apply Z.log2_lt_pow2; lia).
  lia.
Qed.

(** Rounding does not carry a value up to 100 - 100 * 2^(-53) to 100. *)
Lemma roundPositive_below_100 (n d : positive) :
  (Zpos n * 2 ^ 53 <= (100 * 2 ^ 53 - 100) * Zpos d)%Z ->
  (0 <= Js.roundPositive n d)%Q /\ (Js.roundPositive n d < 100)%Q.
Proof.
  intros H.
  assert (H128 : (Zpos n < 128 * Zpos d)%Z) by lia.
  pose proof (shift_below_128 n d H128) as Hs.
  pose proof (shift_nonneg n d) as Hs0.
  unfold Js.roundPositive. set (s := Js.shift n d) in *.
  set (A := (2 ^ 1021)%Z).
  assert (HA : (0 < A)%Z) by (apply Z.pow_pos_nonneg; lia).
  assert (HP : (2 ^ 1074 = A * 2 ^ 53)%Z)
    by (unfold A; rewrite <- Z.pow_add_r by lia; reflexivity).
  assert (HT : (0 < 2 ^ s)%Z) by (apply Z.pow_pos_nonneg; lia).
  assert (HT' : (2 ^ s <= 128 * A)%Z).
  { replace (128 * A)%Z with (2 ^ 1028)%Z
      by (unfold A; change 1028%Z with (7 + 1021)%Z; rewrite Z.pow_add_r by lia; reflexivity).
    apply Z.pow_le_mono_r; lia. }
  destruct (roundTiesToEven_near (Zpos n * 2 ^ 1074) (Zpos d * 2 ^ s) ltac:(lia))
    as (Hup & _ & Hpos).
  assert (HR : (0 <= Js.roundTiesToEven (Zpos n * 2 ^ 1074) (Zpos d * 2 ^ s))%Z)
    by (apply Hpos; lia).
  clear Hpos.
  remember (Js.roundTiesToEven (Zpos n * 2 ^ 1074) (Zpos d * 2 ^ s)) as R eqn:ER.
  clear ER.
  assert (Hdp : (Z.pos (2 ^ 1074) = 2 ^ 1074)%Z) by reflexivity.
  unfold Qle, Qlt. cbn [Qnum Qden]. rewrite Hdp. rewrite HP in *.
  remember (2 ^ s)%Z as T eqn:ET. clear ET.
  remember (2 ^ 53)%Z as B eqn:EB.
  assert (HB : (0 < B)%Z) by (subst B; reflexivity).
  clear EB HP Hdp.
  split; [nia|].
  assert (E1 : (Zpos n * B * A <= (100 * B - 100) * Zpos d * A)%Z) by nia.
  assert (E2 : (2 * R * T * Zpos d <= 2 * (Zpos n * B * A) + Zpos d * T)%Z) by nia.
  assert (E3 : (Zpos d * T <= Zpos d * (128 * A))%Z) by nia.
  assert (E4 : (2 * (R * T) * Zpos d < 2 * (100 * (A * B)) * Zpos d)%Z) by nia.
  nia.
Qed.

(** A binary64 number below 1 is at most 1 - 2^(-53). *)
Lemma roundPositive_fixed_below_1 (n d : positive) :
  (Js.roundPositive n d == Zpos n # d)%Q -> (Zpos n < Zpos d)%Z ->
  (Zpos n * 2 ^ 53 <= (2 ^ 53 - 1) * Zpos d)%Z.
Proof.
  unfold Js.roundPositive, Qeq. cbn [Qnum Qden]. intros E Hlt.
  assert (Hdp : (Z.pos (2 ^ 1074) = 2 ^ 1074)%Z) by reflexivity.
  rewrite Hdp in E. clear Hdp.
  pose proof (shift_nonneg n d) as Hs0.
  set (s := Js.shift n d) in *.
  set (A := (2 ^ 1021)%Z).
  assert (HA : (0 < A)%Z) by (apply Z.pow_pos_nonneg; lia).
  assert (HP : (2 ^ 1074 = A * 2 ^ 53)%Z)
    by (unfold A; rewrite <- Z.pow_add_r by lia; reflexivity).
  remember (Js.roundTiesToEven (Zpos n * 2 ^ 1074) (Zpos d * 2 ^ s)) as R eqn:ER.
  clear ER.
  destruct (Z.le_gt_cases 1021 s) as [Hs|Hs].
  - assert (HT : (2 ^ s = A * 2 ^ (s - 1021))%Z)
      by (unfold A; rewrite <- Z.pow_add_r by lia; f_equal; lia).
    assert (HU : (0 < 2 ^ (s - 1021))%Z) by (apply Z.pow_pos_nonneg; lia).
    rewrite HT, HP in E.
    remember (2 ^ (s - 1021))%Z as U eqn:EU. clear EU HT.
    remember (2 ^ 53)%Z as B eqn:EB.
    assert (HB : (0 < B)%Z) by (subst B; reflexivity).
    clear EB HP.
    assert (E' : (R * U * Zpos d = Zpos n * B)%Z) by nia.
    assert (HK : (R * U < B)%Z) by nia.
    nia.
  - subst s. unfold Js.shift in Hs.
    set (N := (Zpos n * 2 ^ 1074 / Zpos d)%Z) in *.
    assert (H0 : (0 <= N)%Z) by (apply Z.div_pos; [apply Z.mul_nonneg_nonneg; lia | lia]).
    assert (HN : (N < 2 ^ 1073)%Z).
    { destruct (Z.eq_dec N 0) as [->|Hne]; [reflexivity|].
      pose proof (Z.log2_spec N ltac:(lia)) as [_ Hup].
      eapply Z.lt_le_trans; [exact Hup|].
      apply Z.pow_le_mono_r; lia. }
    assert (HD : (Zpos n * 2 ^ 1074 < 2 ^ 1073 * Zpos d)%Z).
    { pose proof (Z.div_mod (Zpos n * 2 ^ 1074) (Zpos d) ltac:(lia)) as Ed.
      pose proof (Z.mod_pos_bound (Zpos n * 2 ^ 1074) (Zpos d) ltac:(lia)) as Bd.
      fold N in Ed. nia. }
    assert (HQ : (2 ^ 1074 = 2 * 2 ^ 1073)%Z)
      by (change 1074%Z with (1 + 1073)%Z; rewrite Z.pow_add_r by lia; reflexivity).
    rewrite HQ in HD.
    assert (HC : (0 < 2 ^ 1073)%Z) by (apply Z.pow_pos_nonneg; lia).
    remember (2 ^ 1073)%Z as C eqn:EC. clear EC HQ HN.
    assert (H2 : (2 * Zpos n < Zpos d)%Z) by nia.
    assert (HB : (2 <= 2 ^ 53)%Z) by (change 2%Z with (2 ^ 1)%Z at 1; apply Z.pow_le_mono_r; lia).
    nia.
Qed.

(** [Math.random() * 100] lies in [0,100) when [Math.random()] is a
    binary64 value in [0,1). *)
Lemma times_100_range (r : Q) :
  (0 <= r)%Q -> (r < 1)%Q -> Js.isDouble r ->
  (0 <= Js.times r 100)%Q /\ (Js.times r 100 < 100)%Q.
Proof.
  intros H0 H1 Hd.
  assert (Hr : (Qnum r * 2 ^ 53 <= (2 ^ 53 - 1) * Zpos (Qden r))%Z).
  { unfold Js.isDouble, Js.roundDouble in Hd. destruct r as [[|n|n] d]; cbn [Qnum Qden] in *.
    - lia.
    - apply roundPositive_fixed_below_1; [exact Hd|].
      unfold Qlt in H1; simpl in H1. lia.
    - unfold Qle in H0; simpl in H0. lia. }
  unfold Js.times, Js.roundDouble.
  destruct r as [[|n|n] d]; cbn [Qnum Qden Qmult] in *.
  - split; [apply Qle_refl | reflexivity].
  - change (Z.pos n * 100)%Z with (Z.pos (n * 100)).
    apply roundPositive_below_100.
    rewrite !Pos2Z.inj_mul. lia.
  - unfold Qle in H0; simpl in H0. lia.
Qed.

(** [chat.slice(-d)] with a positive [d] is the last [d] messages. *)
Lemma slice_last (A : Type) (l : list A) (d : Z) :
  (0 < d)%Z -> Js.slice l (- d) = Spec.lastN (Z.to_nat d) l.
Proof.
  intros Hd. unfold Js.slice, Spec.lastN.
  destruct (Z.ltb_spec (- d) 0) as [_|H]; [|lia].
  rewrite firstn_rev, rev_involutive. f_equal. lia.
Qed.



End Numbers.

(* ================================================================== *)
(** * Checks on concrete inputs *)
(* ================================================================== *)

Section Checks.

Example pattern_of_two_keys :
  wholeWordPattern ["a.b"; "c++"]%string = "\b(a\.b|c\+\+)\b"%string.
Proof. reflexivity. Qed.

Example parse_of_two_keys :
  RegExp.parse "\b(cat|a\.b)\b" = inl (Spec.wholeWordNode "cat" ["a.b"%string]).
Proof. reflexivity. Qed.

Example unbalanced_pattern_throws :
  RegExp.parse "\b(cat" = inr RegExp.SyntaxError.
Proof. reflexivity. Qed.

Example escaped_dot_is_literal :
  matchKeys "axb" ["a.b"%string] true true = inl false
  /\ matchKeys "say a.b now" ["a.b"%string] true true = inl true.
Proof. split; reflexivity. Qed.

Example case_sensitive_keyword :
  matchKeys "the cat sat" ["Cat"%string] true false = inl false
  /\ matchKeys "the cat sat" ["Cat"%string] false false = inl true
  /\ matchKeys "the cat sat" ["Cat"%string] true true = inl false
  /\ matchKeys "the cat sat" ["Cat"%string] false true = inl true.
Proof. repeat split; reflexivity. Qed.

Example slice_counts_from_the_end :
  Js.slice [1; 2; 3; 4; 5]%nat (-2) = [4; 5]%nat
  /\ Js.slice [1; 2; 3]%nat (-10) = [1; 2; 3]%nat
  /\ Js.slice [1; 2; 3; 4; 5]%nat 3 = [4; 5]%nat.
Proof. repeat split; reflexivity. Qed.

(** A [null] probability is read as 0 by the comparisons: the entry is
    turned away by every draw above 0. *)
Remark null_probability_reads_as_zero (item : Item) (w : World) :
  probability item = Js.Null ->
  Spec.gateBlocks item w = true <-> (0 < Spec.nextRoll w)%Q.
Proof.
  intros Hp. unfold Spec.gateBlocks, Js.greaterThan. rewrite Hp. simpl Js.toNumber.
  rewrite andb_true_iff, !lessThan_spec. split; [tauto | intros H; split; [reflexivity | exact H]].
Qed.

(** The draw is the rounded product: with [Math.random()] at
    1170935903116329 / 2^52 the exact product with 100 is above 26 and
    the binary64 product is 26, so an entry of probability 26 is let
    through, and one without keywords is warned about. *)
Example roll_is_rounded :
  (26 < (1170935903116329 # 4503599627370496) * 100)%Q
  /\ Js.isDouble (1170935903116329 # 4503599627370496)
  /\ (Spec.nextRoll (Sample.world ["hello"] (1170935903116329 # 4503599627370496)) == 26)%Q
  /\ Spec.gateBlocks (Sample.entry [] [] (Js.Num 26) None false false)
       (Sample.world ["hello"] (1170935903116329 # 4503599627370496)) = false
  /\ loggerCalls
       (Spec.final
          (shouldActivateItem (Sample.entry [] [] (Js.Num 26) None false false)
             (Sample.world ["hello"] (1170935903116329 # 4503599627370496))))
     = [mkLogCall WARN (NoKeywords "lore")].
Proof. repeat split; vm_compute; reflexivity. Qed.

(** With logging switched off no logger method writes to the console. *)
Remark logger_is_silent (lv : Level) (msg : LogMessage) (w : World) :
  exists w', logger.method lv msg w = Returned tt w' /\ console w' = console w.
Proof. eexists; split; reflexivity. Qed.

End Checks.

(* ================================================================== *)
(** * The activation policy *)
(* ================================================================== *)

(** C6.  The constant flag is looked at first and the disable flag second:
    a constant entry is always active, whatever its disable flag, its
    probability, its keywords and the chat; an entry that is not constant
    and is disabled is never active, whatever the rest.  Neither case
    takes a draw or calls the logger: the world is returned as it was. *)
Theorem C6_constant_then_disable (item : Item) (w : World) :
  (constant item = true -> shouldActivateItem item w = Returned true w)
  /\ (constant item = false -> disable item = true ->
      shouldActivateItem item w = Returned false w).
Proof.
  rewrite shouldActivateItem_run. split.
  - intros ->. reflexivity.
  - intros -> ->. reflexivity.
Qed.

Lemma C6_constant_then_disable_witness :
  constant (Sample.flagged true true ["cat"]) = true
  /\ shouldActivateItem (Sample.flagged true true ["cat"]) (Sample.world ["hello"] (3 # 4))
     = Returned true (Sample.world ["hello"] (3 # 4))
  /\ constant (Sample.flagged false true ["cat"]) = false
  /\ disable (Sample.flagged false true ["cat"]) = true
  /\ shouldActivateItem (Sample.flagged false true ["cat"]) (Sample.world ["a cat"] (0 # 1))
     = Returned false (Sample.world ["a cat"] (0 # 1)).
Proof.
  split; [reflexivity|].
  split; [apply (proj1 (C6_constant_then_disable _ _)); reflexivity|].
  split; [reflexivity|].
  split; [reflexivity|].
  apply (proj2 (C6_constant_then_disable _ _)); reflexivity.
Defined.

(** C1 as stated fails: an entry without keywords whose probability is 50
    and whose draw is 75 is turned away by the probability check, which
    comes first, and no warning is made. *)
Lemma C1_warning_not_on_every_draw :
  ~ (forall (item : Item) (w : World),
        Js.noElements (key item) = true ->
        Js.noElements (keysecondary item) = true ->
        constant item = false -> disable item = false ->
        exists w' delta,
          shouldActivateItem item w = Returned false w'
          /\ loggerCalls w' = loggerCalls w ++ delta
          /\ Spec.warnings delta = 1).
Proof.
  intros H.
  destruct (H (Sample.entry [] [] (Js.Num 50) None false false)
              (Sample.world ["hello"] (3 # 4))
              eq_refl eq_refl eq_refl eq_refl) as [w' [delta [Hrun [Hlog Hn]]]].
  rewrite shouldActivateItem_run in Hrun.
  change (Spec.gateBlocks (Sample.entry [] [] (Js.Num 50) None false false)
            (Sample.world ["hello"] (3 # 4))) with true in Hrun.
  simpl in Hrun. inversion Hrun; subst w'; clear Hrun.
  simpl in Hlog. subst delta. discriminate Hn.
Qed.

(** C1, amended.  An entry with no keyword in either list, not constant
    and not disabled, is never active.  The logger's [warn] is called
    exactly once, with the no-keywords message, when the probability check
    lets the entry through, and not at all when that check turns it away.
    With logging switched off nothing is written to the console. *)
Theorem C1_no_keywords_never_activates (item : Item) (w : World) :
  Js.noElements (key item) = true ->
  Js.noElements (keysecondary item) = true ->
  constant item = false -> disable item = false ->
  exists w' delta,
    shouldActivateItem item w = Returned false w'
    /\ loggerCalls w' = loggerCalls w ++ delta
    /\ Spec.warnings delta = (if Spec.gateBlocks item w then 0 else 1)
    /\ (Spec.gateBlocks item w = false ->
        delta = [mkLogCall WARN (NoKeywords (name item))])
    /\ console w' = console w.
Proof.
  intros Hk Hs Hc Hd. rewrite shouldActivateItem_run, Hc, Hd.
  destruct (Spec.gateBlocks item w).
  - eexists _, _. split; [reflexivity|].
    split; [reflexivity|]. split; [reflexivity|].
    split; [discriminate | reflexivity].
  - rewrite keywordSteps_run. unfold Spec.hasKeywords. rewrite Hk, Hs. simpl.
    eexists _, _. split; [reflexivity|].
    split; [|split; [|split]].
    + unfold Spec.logged, Spec.afterGate. simpl.
      destruct (Js.lessThan _ _); reflexivity.
    + reflexivity.
    + reflexivity.
    + unfold Spec.afterGate. destruct (Js.lessThan _ _); reflexivity.
Qed.

Lemma C1_no_keywords_never_activates_witness :
  exists w' delta,
    shouldActivateItem (Sample.entry [] [] (Js.Num 100) None false false)
      (Sample.world ["hello"] (3 # 4)) = Returned false w'
    /\ loggerCalls w' = loggerCalls (Sample.world ["hello"] (3 # 4)) ++ delta
    /\ Spec.warnings delta
       = (if Spec.gateBlocks (Sample.entry [] [] (Js.Num 100) None false false)
               (Sample.world ["hello"] (3 # 4)) then 0 else 1)
    /\ (Spec.gateBlocks (Sample.entry [] [] (Js.Num 100) None false false)
          (Sample.world ["hello"] (3 # 4)) = false ->
        delta = [mkLogCall WARN
                   (NoKeywords (name (Sample.entry [] [] (Js.Num 100) None false false)))])
    /\ console w' = console (Sample.world ["hello"] (3 # 4)).
Proof.
  apply (C1_no_keywords_never_activates
           (Sample.entry [] [] (Js.Num 100) None false false)
           (Sample.world ["hello"] (3 # 4))); reflexivity.
Defined.

Section KeywordSteps.

Lemma gateBlocks_spec (item : Item) (w : World) (p : Q) :
  probability item = Js.Num p ->
  Spec.gateBlocks item w = true <-> (p < 100)%Q /\ (p < Spec.nextRoll w)%Q.
Proof.
  intros Hp. unfold Spec.gateBlocks, Js.greaterThan. rewrite Hp. simpl Js.toNumber.
  now rewrite andb_true_iff, !lessThan_spec.
Qed.

Lemma matches_nil (text : string) (cs ww : bool) : Spec.matches text [] cs ww = false.
Proof. reflexivity. Qed.

Lemma orEmpty_noElements (A : Type) (v : option (list A)) :
  Js.noElements v = true -> Js.orEmpty v = [].
Proof. destruct v as [[|a l]|]; simpl; intros H; try reflexivity; discriminate. Qed.

Lemma keywordMatch_without_keywords (item : Item) (text : string) :
  Spec.hasKeywords item = false -> Spec.keywordMatch item text = false.
Proof.
  unfold Spec.hasKeywords, Spec.keywordMatch. rewrite negb_false_iff, andb_true_iff.
  intros [Hk Hs]. rewrite Hs, (orEmpty_noElements _ _ Hk). reflexivity.
Qed.

(** The keyword steps return the keyword match, take no draw and leave
    the world as it was but for the logger's record. *)
Lemma keywordSteps_value (item : Item) (w : World) :
  exists w',
    keywordSteps item w
    = Returned (Spec.keywordMatch item (searchTextOf item (Js.orEmpty (chat w)))) w'
    /\ randomCalls w' = randomCalls w
    /\ Spec.untouched w w'.
Proof.
  rewrite keywordSteps_run. destruct (Spec.hasKeywords item) eqn:E.
  - exists w. repeat split.
  - rewrite (keywordMatch_without_keywords _ _ E).
    eexists. split; [reflexivity|]. split; [reflexivity | apply untouched_logged].
Qed.

Lemma chat_afterGate (item : Item) (w : World) : chat (Spec.afterGate item w) = chat w.
Proof. unfold Spec.afterGate. destruct (Js.lessThan _ _); reflexivity. Qed.

(** What an entry that is neither constant nor disabled, and is let
    through by the probability check, answers. *)
Lemma shouldActivateItem_through (item : Item) (w : World) :
  constant item = false -> disable item = false -> Spec.gateBlocks item w = false ->
  exists w',
    shouldActivateItem item w
    = Returned (Spec.keywordMatch item (searchTextOf item (Js.orEmpty (chat w)))) w'
    /\ randomCalls w' = randomCalls (Spec.afterGate item w).
Proof.
  intros Hc Hd Hg. rewrite shouldActivateItem_run, Hc, Hd, Hg.
  destruct (keywordSteps_value item (Spec.afterGate item w)) as [w' [H [Hr _]]].
  rewrite chat_afterGate in H. exists w'. now split.
Qed.

End KeywordSteps.

(** C2.  For an entry that is neither constant nor disabled, with
    probability [p]:
    - below 100, one value is taken from the random source; the draw is
      the next [Math.random()] times 100, the product being rounded to a
      binary64 value as the machine rounds it, and it lies in [0,100)
      when [Math.random()] is a binary64 value in [0,1); when the draw
      exceeds [p] the answer is false whatever the keyword lists are, and
      when it does not the answer is the keyword match;
    - at 100, no value is taken and the answer is the keyword match. *)
Theorem C2_probability_gate (item : Item) (w : World) (p : Q) :
  constant item = false -> disable item = false -> probability item = Js.Num p ->
  ((p < 100)%Q ->
     randomCalls (Spec.final (shouldActivateItem item w)) = S (randomCalls w)
     /\ Spec.nextRoll w = Js.times (randomSource w (randomCalls w)) 100
     /\ ((0 <= randomSource w (randomCalls w))%Q /\ (randomSource w (randomCalls w) < 1)%Q
         /\ Js.isDouble (randomSource w (randomCalls w)) ->
         (0 <= Spec.nextRoll w)%Q /\ (Spec.nextRoll w < 100)%Q)
     /\ ((p < Spec.nextRoll w)%Q ->
         forall k ks,
           shouldActivateItem (Spec.withKeys k ks item) w
           = Returned false
               (Spec.logged DEBUG
                  (ProbabilityCheckFailed (name item) (Spec.nextRoll w) (probability item))
                  (Spec.afterDraw w)))
     /\ (~ (p < Spec.nextRoll w)%Q ->
         Spec.result (shouldActivateItem item w)
         = Some (Spec.keywordMatch item (searchTextOf item (Js.orEmpty (chat w))))))
  /\ ((p == 100)%Q ->
      randomCalls (Spec.final (shouldActivateItem item w)) = randomCalls w
      /\ Spec.result (shouldActivateItem item w)
         = Some (Spec.keywordMatch item (searchTextOf item (Js.orEmpty (chat w))))).
Proof.
  intros Hc Hd Hp. split.
  - intros Hlt.
    assert (Hbelow : Js.lessThan (Js.toNumber (probability item)) (Some 100%Q) = true)
      by (rewrite Hp; now apply lessThan_spec).
    split; [|split; [reflexivity|split; [|split]]].
    + rewrite shouldActivateItem_run, Hc, Hd.
      destruct (Spec.gateBlocks item w); [reflexivity|].
      destruct (keywordSteps_value item (Spec.afterGate item w)) as [w' [H [Hr _]]].
      rewrite H. simpl. rewrite Hr. unfold Spec.afterGate. now rewrite Hbelow.
    + unfold Spec.nextRoll. intros [H0 [H1 H2]].
      exact (times_100_range (randomSource w (randomCalls w)) H0 H1 H2).
    + intros Hroll k ks. rewrite shouldActivateItem_run. simpl constant. simpl disable.
      rewrite Hc, Hd.
      assert (Hg : Spec.gateBlocks (Spec.withKeys k ks item) w = true)
        by (apply (gateBlocks_spec (Spec.withKeys k ks item) w p Hp); now split).
      rewrite Hg. reflexivity.
    + intros Hroll.
      assert (Hg : Spec.gateBlocks item w = false).
      { destruct (Spec.gateBlocks item w) eqn:E; [|reflexivity].
        apply (gateBlocks_spec item w p Hp) in E. now elim Hroll. }
      destruct (shouldActivateItem_through item w Hc Hd Hg) as [w' [H _]].
      now rewrite H.
  - intros Heq.
    assert (Hbelow : Js.lessThan (Js.toNumber (probability item)) (Some 100%Q) = false).
    { rewrite Hp. apply lessThan_false. rewrite Heq. apply Qlt_irrefl. }
    assert (Hg : Spec.gateBlocks item w = false)
      by (unfold Spec.gateBlocks; now rewrite Hbelow).
    destruct (shouldActivateItem_through item w Hc Hd Hg) as [w' [H Hr]].
    rewrite H. simpl. split; [|reflexivity].
    rewrite Hr. unfold Spec.afterGate. now rewrite Hbelow.
Qed.

Lemma C2_probability_gate_witness :
  (50 < 100)%Q
  /\ (50 < Spec.nextRoll (Sample.world ["the cat sat"] (3 # 4)))%Q
  /\ shouldActivateItem
       (Spec.withKeys (Some ["sat"]) None
          (Sample.entry ["cat"] [] (Js.Num 50) None false false))
       (Sample.world ["the cat sat"] (3 # 4))
     = Returned false
         (Spec.logged DEBUG
            (ProbabilityCheckFailed "lore"
               (Spec.nextRoll (Sample.world ["the cat sat"] (3 # 4))) (Js.Num 50))
            (Spec.afterDraw (Sample.world ["the cat sat"] (3 # 4))))
  /\ Js.isDouble (3 # 4)
  /\ (0 <= Spec.nextRoll (Sample.world ["the cat sat"] (3 # 4)))%Q
  /\ (Spec.nextRoll (Sample.world ["the cat sat"] (3 # 4)) < 100)%Q.
Proof.
  split; [reflexivity|]. split; [reflexivity|].
  destruct (C2_probability_gate
              (Sample.entry ["cat"] [] (Js.Num 50) None false false)
              (Sample.world ["the cat sat"] (3 # 4))
              50%Q eq_refl eq_refl eq_refl) as [Hbelow _].
  destruct (Hbelow eq_refl) as [_ [_ [Hrange [Hblocked _]]]].
  split; [apply Hblocked; reflexivity|].
  assert (Hd : Js.isDouble (3 # 4)) by (vm_compute; reflexivity).
  split; [exact Hd|].
  apply Hrange. split; [discriminate|]. split; [reflexivity | exact Hd].
Defined.

Section Corpus.

Lemma recentMessages_last (item : Item) (msgs : list Message) (n : nat) :
  Spec.depthIs item n -> recentMessages item msgs = Spec.lastN n msgs.
Proof.
  unfold Spec.depthIs, recentMessages, scanDepth, Js.orInt.
  destruct (scan_depth item) as [z|].
  - intros [Hz ->]. destruct (Z.eqb_spec z 0) as [E|_]; [lia|].
    now apply slice_last.
  - intros ->. now apply slice_last.
Qed.

Lemma searchTextOf_last (item : Item) (msgs : list Message) (n : nat) :
  Spec.depthIs item n ->
  searchTextOf item msgs = Str.join " " (map messageText (Spec.lastN n msgs)).
Proof. intros H. unfold searchTextOf. now rewrite (recentMessages_last _ _ _ H). Qed.



End Corpus.




(** C4.  In whole-word mode [matchKeys] builds the one pattern
    [\b(k1|k2|...)\b] from the keywords with the syntax characters
    escaped; the pattern always parses, to the disjunction of the
    keywords read unit by unit between two word-boundary assertions; the
    answer is true exactly when the units of some keyword are read in
    the corpus between two word boundaries, units being compared as the
    engine compares them: as they are when the entry is case-sensitive,
    so that the keyword itself then stands in the corpus, and after
    [Canonicalize] under the [i] flag, on the lower-cased corpus and
    keywords, when it is not.  So [cat] does not match [category] and
    matches [the cat sat].  In substring mode the answer is true exactly
    when some keyword occurs in the corpus, both lower-cased unless the
    entry is case-sensitive; so [cat] matches [category]. *)
Theorem C4_matchKeys_modes (text : string) (keys : list string) (caseSensitive : bool) :
  (forall k ks,
      wholeWordPattern (k :: ks)
      = ("\b(" ++ Str.join "|" (map Str.escapeRegExp (k :: ks)) ++ ")\b")%string
      /\ RegExp.parse (wholeWordPattern (k :: ks)) = inl (Spec.wholeWordNode k ks))
  /\ (exists b,
        matchKeys text keys caseSensitive true = inl b
        /\ (b = true <->
            exists k, In k keys
              /\ Spec.readAsWholeWord (negb caseSensitive)
                   (Spec.folded caseSensitive k) (Spec.folded caseSensitive text))
        /\ (caseSensitive = true ->
            (b = true <-> exists k, In k keys /\ Spec.occursAsWholeWord k text)))
  /\ matchKeys "category" ["cat"] caseSensitive true = inl false
  /\ matchKeys "the cat sat" ["cat"] caseSensitive true = inl true
  /\ (exists b,
        matchKeys text keys caseSensitive false = inl b
        /\ (b = true <->
            exists k, In k keys
              /\ Spec.occursIn (Spec.folded caseSensitive k)
                   (Spec.folded caseSensitive text)))
  /\ matchKeys "category" ["cat"] caseSensitive false = inl true.
Proof.
  split; [intros k ks; split; [reflexivity | apply parse_wholeWordPattern]|].
  split.
  { destruct (matchKeys_wholeWords_units text keys caseSensitive) as [b [H Hb]].
    exists b. split; [exact H|]. split; [exact Hb|].
    intros ->. rewrite Hb. simpl negb. simpl Spec.folded.
    split.
    - intros [k [Hin [pre [mid [post [E [Hu [B1 B2]]]]]]]].
      apply sameUnits_exact in Hu. subst mid.
      exists k. split; [exact Hin|]. exists pre, post.
      split; [exact E|]. split; [exact B1 | exact B2].
    - intros [k [Hin [pre [post [E [B1 B2]]]]]].
      exists k. split; [exact Hin|]. exists pre, k, post.
      split; [exact E|]. split; [now apply sameUnits_exact|].
      split; [exact B1 | exact B2]. }
  split; [destruct caseSensitive; reflexivity|].
  split; [destruct caseSensitive; reflexivity|].
  split; [apply matchKeys_substring|].
  destruct caseSensitive; reflexivity.
Qed.

Lemma C4_matchKeys_modes_witness :
  exists k, In k ["Cat"; "sat"]%string /\ Spec.occursAsWholeWord k "the cat sat".
Proof.
  destruct (proj1 (proj2 (C4_matchKeys_modes "the cat sat" ["Cat"; "sat"]%string true)))
    as [b [H [_ Hcs]]].
  apply (Hcs eq_refl).
  vm_compute in H. now inversion H.
Defined.

(** C5.  An entry that reaches the keyword steps answers the primary
    match or the secondary match when its secondary list is not empty,
    and the primary match alone when it is empty.  The entry with primary
    [alpha] and secondary [beta] is active on the corpus [beta here],
    where the primary list alone does not match. *)
Theorem C5_primary_or_secondary (item : Item) (w : World) :
  constant item = false -> disable item = false ->
  Spec.gateBlocks item w = false -> Spec.hasKeywords item = true ->
  (exists primary secondary,
     matchKeys (searchTextOf item (Js.orEmpty (chat w))) (Js.orEmpty (key item))
       (case_sensitive item) (match_whole_words item) = inl primary
     /\ matchKeys (searchTextOf item (Js.orEmpty (chat w))) (Js.orEmpty (keysecondary item))
          (case_sensitive item) (match_whole_words item) = inl secondary
     /\ (Js.noElements (keysecondary item) = false ->
         Spec.result (shouldActivateItem item w) = Some (primary || secondary))
     /\ (Js.noElements (keysecondary item) = true ->
         Spec.result (shouldActivateItem item w) = Some primary))
  /\ matchKeys "beta here" ["alpha"] false false = inl false
  /\ Spec.result
       (shouldActivateItem
          (Sample.entry ["alpha"] ["beta"] (Js.Num 100) None false false)
          (Sample.world ["beta here"] 0))
     = Some true.
Proof.
  intros Hc Hd Hg _. split; [|split; reflexivity].
  destruct (shouldActivateItem_through item w Hc Hd Hg) as [w' [H _]].
  rewrite H. simpl Spec.result. unfold Spec.keywordMatch.
  eexists _, _. split; [apply matches_correct|]. split; [apply matches_correct|].
  split; intros ->; [reflexivity | now rewrite orb_false_r].
Qed.

Lemma C5_primary_or_secondary_witness :
  Js.noElements (keysecondary (Sample.entry ["alpha"] ["beta"] (Js.Num 100) None true true))
  = false
  /\ exists primary secondary,
       matchKeys "beta here" ["alpha"] true true = inl primary
       /\ matchKeys "beta here" ["beta"] true true = inl secondary
       /\ Spec.result
            (shouldActivateItem
               (Sample.entry ["alpha"] ["beta"] (Js.Num 100) None true true)
               (Sample.world ["beta here"] 0))
          = Some (primary || secondary).
Proof.
  split; [reflexivity|].
  destruct (C5_primary_or_secondary
              (Sample.entry ["alpha"] ["beta"] (Js.Num 100) None true true)
              (Sample.world ["beta here"] 0)
              eq_refl eq_refl eq_refl eq_refl) as [[primary [secondary [Hp [Hs [H _]]]]] _].
  exists primary, secondary.
  split; [exact Hp|]. split; [exact Hs|]. apply H. reflexivity.
Defined.

Section EmptyCorpus.

Local Open Scope string_scope.

Lemma folded_empty (cs : bool) (s : string) : Spec.folded cs s = "" <-> s = "".
Proof. destruct cs; simpl; [tauto | apply toLowerCase_empty]. Qed.

Lemma append_empty (a b : string) : a ++ b = "" -> a = "" /\ b = "".
Proof. destruct a; simpl; intros H; [now split | discriminate]. Qed.

Lemma wholeWord_empty_corpus (keys : list string) (cs : bool) :
  matchKeys "" keys cs true = inl false.
Proof.
  destruct (matchKeys_wholeWords "" keys cs) as [b [H Hb]].
  rewrite H. f_equal. destruct b; [|reflexivity].
  destruct (proj1 Hb eq_refl) as [k [_ [pre [post [E [B _]]]]]].
  assert (E0 : Spec.folded cs "" = "") by now apply folded_empty.
  rewrite E0 in E. symmetry in E.
  apply append_empty in E. destruct E as [-> E].
  apply append_empty in E. destruct E as [Ek ->].
  rewrite Ek in B. discriminate B.
Qed.

Lemma substring_empty_corpus (keys : list string) (cs : bool) :
  matchKeys "" keys cs false = inl (if in_dec string_dec "" keys then true else false).
Proof.
  destruct (matchKeys_substring "" keys cs) as [b [H Hb]].
  rewrite H. f_equal.
  assert (E0 : Spec.folded cs "" = "") by now apply folded_empty.
  destruct (in_dec string_dec "" keys) as [Hin|Hout].
  - apply Hb. exists "". split; [exact Hin|].
    exists "", "". now rewrite E0.
  - destruct b; [|reflexivity]. exfalso. apply Hout.
    destruct (proj1 Hb eq_refl) as [k [Hin [pre [post E]]]].
    rewrite E0 in E. symmetry in E.
    apply append_empty in E. destruct E as [_ E].
    apply append_empty in E. destruct E as [Ek _].
    apply folded_empty in Ek. now subst k.
Qed.

Lemma searchTextOf_no_chat (item : Item) : searchTextOf item [] = "".
Proof.
  unfold searchTextOf, recentMessages, Js.slice. now rewrite skipn_nil.
Qed.

End EmptyCorpus.

(** C7 as stated fails: in substring mode the empty keyword is found in
    the empty corpus. *)
Lemma C7_empty_keyword_in_empty_corpus :
  ~ (forall (keys : list string) (caseSensitive wholeWords : bool),
        matchKeys "" keys caseSensitive wholeWords = inl false).
Proof. intros H. specialize (H [""%string] false false). discriminate H. Qed.

(** C7, amended.  On the empty corpus the whole-word check fails for
    every keyword list and either case flag; the substring check fails
    for every list that holds no empty keyword, and succeeds when the
    list holds one.  With no chat yet the corpus is empty, so an entry
    that is neither constant nor disabled, in whole-word mode or with no
    empty keyword in its lists, is not active. *)
Theorem C7_empty_corpus_never_matches :
  (forall keys caseSensitive, matchKeys "" keys caseSensitive true = inl false)
  /\ (forall keys caseSensitive,
        ~ In ""%string keys -> matchKeys "" keys caseSensitive false = inl false)
  /\ (forall keys caseSensitive,
        In ""%string keys -> matchKeys "" keys caseSensitive false = inl true)
  /\ (forall item w,
        chat w = None \/ chat w = Some [] ->
        searchTextOf item (Js.orEmpty (chat w)) = ""%string)
  /\ (forall item w,
        constant item = false -> disable item = false ->
        searchTextOf item (Js.orEmpty (chat w)) = ""%string ->
        match_whole_words item = true
        \/ (~ In ""%string (Js.orEmpty (key item))
            /\ ~ In ""%string (Js.orEmpty (keysecondary item))) ->
        Spec.result (shouldActivateItem item w) = Some false).
Proof.
  split; [exact wholeWord_empty_corpus|].
  split.
  { intros keys cs Hout. rewrite substring_empty_corpus.
    destruct (in_dec string_dec ""%string keys); [contradiction | reflexivity]. }
  split.
  { intros keys cs Hin. rewrite substring_empty_corpus.
    destruct (in_dec string_dec ""%string keys); [reflexivity | contradiction]. }
  split.
  { intros item w [H|H]; rewrite H; apply searchTextOf_no_chat. }
  intros item w Hc Hd Htext Hkeys.
  destruct (Spec.gateBlocks item w) eqn:Hg.
  - rewrite shouldActivateItem_run, Hc, Hd, Hg. reflexivity.
  - destruct (shouldActivateItem_through item w Hc Hd Hg) as [w' [H _]].
    rewrite H, Htext. simpl. f_equal.
    unfold Spec.keywordMatch, Spec.matches.
    destruct Hkeys as [Hww|[Hk Hs]].
    + rewrite Hww, !wholeWord_empty_corpus. now destruct (Js.noElements _).
    + destruct (match_whole_words item).
      * rewrite !wholeWord_empty_corpus. now destruct (Js.noElements _).
      * rewrite !substring_empty_corpus.
        destruct (in_dec string_dec ""%string (Js.orEmpty (key item))); [contradiction|].
        destruct (in_dec string_dec ""%string (Js.orEmpty (keysecondary item)));
          [contradiction|].
        now destruct (Js.noElements _).
Qed.

Lemma C7_empty_corpus_never_matches_witness :
  ~ In ""%string ["cat"; "dog"]%string
  /\ matchKeys "" ["cat"; "dog"] false false = inl false
  /\ Spec.result
       (shouldActivateItem (Sample.entry ["cat"] ["dog"] (Js.Num 100) None false false)
          (Sample.world [] 0))
     = Some false.
Proof.
  assert (Hout : forall k1 k2 : string,
             k1 <> ""%string -> k2 <> ""%string -> ~ In ""%string [k1; k2]).
  { intros k1 k2 H1 H2 [E|[E|[]]]; [now apply H1 | now apply H2]. }
  split; [apply Hout; discriminate|].
  split.
  - apply (proj1 (proj2 C7_empty_corpus_never_matches)). apply Hout; discriminate.
  - apply (proj2 (proj2 (proj2 (proj2 C7_empty_corpus_never_matches)))).
    + reflexivity.
    + reflexivity.
    + reflexivity.
    + right. split; simpl; intros [E|[]]; discriminate E.
Defined.

(** C8.  An evaluation returns, and leaves the selected entries and the
    chat as they were; of the world only the draw counter and the
    logger's record of calls can differ.  Its answer is determined by the
    entry, the window of recent messages and the draw: two worlds that
    agree on the window and on the next draw give the same answer. *)
Theorem C8_evaluation_is_pure (item : Item) (w : World) :
  (exists b w',
     shouldActivateItem item w = Returned b w'
     /\ selectedItems w' = selectedItems w
     /\ chat w' = chat w
     /\ Spec.untouched w w')
  /\ (forall v,
        recentMessages item (Js.orEmpty (chat v)) = recentMessages item (Js.orEmpty (chat w)) ->
        Spec.nextRoll v = Spec.nextRoll w ->
        Spec.result (shouldActivateItem item v) = Spec.result (shouldActivateItem item w)).
Proof.
  split.
  - destruct (shouldActivateItem_returns item w) as [b [w' [H U]]].
    exists b, w'. split; [exact H|].
    split; [apply U|]. split; [apply U | exact U].
  - intros v Hwin Hroll.
    assert (Hg : Spec.gateBlocks item v = Spec.gateBlocks item w)
      by (unfold Spec.gateBlocks; now rewrite Hroll).
    rewrite !shouldActivateItem_run, Hg.
    destruct (constant item); [reflexivity|].
    destruct (disable item); [reflexivity|].
    destruct (Spec.gateBlocks item w); [reflexivity|].
    destruct (keywordSteps_value item (Spec.afterGate item v)) as [v' [Hv _]].
    destruct (keywordSteps_value item (Spec.afterGate item w)) as [w' [Hw _]].
    rewrite Hv, Hw, !chat_afterGate. simpl.
    unfold searchTextOf. now rewrite Hwin.
Qed.

Lemma C8_evaluation_is_pure_witness :
  Spec.result
    (shouldActivateItem (Sample.entry ["dragon"] [] (Js.Num 100) (Some 2%Z) false false)
       (Sample.world ["nine"; "ten"] 0))
  = Spec.result
      (shouldActivateItem (Sample.entry ["dragon"] [] (Js.Num 100) (Some 2%Z) false false)
         (Sample.world Sample.tenMessages 0)).
Proof.
  apply (proj2 (C8_evaluation_is_pure
                  (Sample.entry ["dragon"] [] (Js.Num 100) (Some 2%Z) false false)
                  (Sample.world Sample.tenMessages 0))); reflexivity.
Defined.

(** C9.  The predicate never throws: on every entry and in every world it
    returns a boolean.  An entry with no probability is never turned away
    by the probability check, takes no draw and answers as the same entry
    with probability 100 does; an entry with no scan depth is given the
    last 10 messages. *)
Theorem C9_total_with_defaults (item : Item) (w : World) :
  (exists b w', shouldActivateItem item w = Returned b w')
  /\ (probability item = Js.Undefined ->
      Spec.gateBlocks item w = false
      /\ randomCalls (Spec.final (shouldActivateItem item w)) = randomCalls w
      /\ shouldActivateItem item w
         = shouldActivateItem (Spec.withProbability (Js.Num 100) item) w)
  /\ (scan_depth item = None ->
      scanDepth item = 10%Z
      /\ forall msgs, recentMessages item msgs = Spec.lastN 10 msgs).
Proof.
  split.
  { destruct (shouldActivateItem_returns item w) as [b [w' [H _]]]. now exists b, w'. }
  split.
  - intros Hp.
    assert (Hg : Spec.gateBlocks item w = false)
      by (unfold Spec.gateBlocks; now rewrite Hp).
    split; [exact Hg|]. split.
    + rewrite shouldActivateItem_run, Hg.
      destruct (constant item); [reflexivity|].
      destruct (disable item); [reflexivity|].
      destruct (keywordSteps_value item (Spec.afterGate item w)) as [w' [H [Hr _]]].
      rewrite H. simpl. rewrite Hr. unfold Spec.afterGate. now rewrite Hp.
    + unfold shouldActivateItem. rewrite Hp. reflexivity.
  - intros Hs. split.
    + unfold scanDepth. now rewrite Hs.
    + intros msgs. apply recentMessages_last. unfold Spec.depthIs. now rewrite Hs.
Qed.

Lemma C9_total_with_defaults_witness :
  probability (Sample.entry ["cat"] [] Js.Undefined None false false) = Js.Undefined
  /\ scan_depth (Sample.entry ["cat"] [] Js.Undefined None false false) = None
  /\ Spec.gateBlocks (Sample.entry ["cat"] [] Js.Undefined None false false)
       (Sample.world ["the cat sat"] (3 # 4)) = false
  /\ scanDepth (Sample.entry ["cat"] [] Js.Undefined None false false) = 10%Z.
Proof.
  split; [reflexivity|]. split; [reflexivity|]. split.
  - apply (proj1 (proj2 (C9_total_with_defaults
                           (Sample.entry ["cat"] [] Js.Undefined None false false)
                           (Sample.world ["the cat sat"] (3 # 4))))).
    reflexivity.
  - apply (proj2 (proj2 (C9_total_with_defaults
                           (Sample.entry ["cat"] [] Js.Undefined None false false)
                           (Sample.world ["the cat sat"] (3 # 4))))).
    reflexivity.
Defined.

(* ================================================================== *)
(** * Adding an entry *)
(* ================================================================== *)

Section Adding.

Lemma bind_Returned (A B : Type) (c : M A) (f : A -> M B) (w w1 : World) (a : A) :
  c w = Returned a w1 -> bind c f w = f a w1.
Proof. intros H. unfold bind. now rewrite H. Qed.

Lemma updateItemPrompt_returns (item : Item) (w : World) :
  exists w', updateItemPrompt item w = Returned tt w'
             /\ selectedItems w' = selectedItems w.
Proof.
  unfold updateItemPrompt.
  rewrite (bind_Returned _ _ _ _ w w (host w)) by reflexivity.
  destruct (enabled item).
  - destruct (shouldActivateItem_returns item w) as [b [w1 [H U]]].
    rewrite (bind_Returned _ _ _ _ w w1 b H).
    destruct b; simpl negb; cbv iota;
      (eexists; split; [reflexivity | simpl; apply U]).
  - eexists; split; [reflexivity | reflexivity].
Qed.

Lemma forEach_returns (items : list Item) (w : World) :
  exists w', forEach updateItemPrompt items w = Returned tt w'
             /\ selectedItems w' = selectedItems w.
Proof.
  revert w; induction items as [|item items IH]; intros w.
  - exists w. now split.
  - destruct (updateItemPrompt_returns item w) as [w1 [H1 S1]].
    destruct (IH w1) as [w2 [H2 S2]].
    exists w2. split; [|congruence].
    simpl forEach. now rewrite (bind_Returned _ _ _ _ w w1 tt H1).
Qed.

Lemma injectAllItems_returns (w : World) :
  exists w', injectAllItems w = Returned tt w'
             /\ selectedItems w' = selectedItems w.
Proof.
  unfold injectAllItems.
  rewrite (bind_Returned _ _ _ _ w w (selectedItems w)) by reflexivity.
  rewrite (bind_Returned _ _ _ _ w _ tt (logger_method_run DEBUG _ w)).
  destruct (forEach_returns (selectedItems w)
              (Spec.logged DEBUG (RefreshAll (List.length (selectedItems w))) w))
    as [w1 [H1 S1]].
  rewrite (bind_Returned _ _ _ _ _ w1 tt H1).
  eexists; split; [reflexivity | simpl; exact S1].
Qed.

(** An entry that is not yet selected is pushed at the end of
    [this.selectedItems]. *)
Lemma addSingleEntry_pushes (world : string) (u : Z) (e : EntryData) (w : World) :
  alreadySelected world u (selectedItems w) = false ->
  exists w',
    addSingleEntry world u (Some e) w = Returned tt w'
    /\ selectedItems w'
       = selectedItems w
         ++ [newItem (world_info_position_atDepth (host w)) (clock w) world u e].
Proof.
  intros Hnew. unfold addSingleEntry.
  rewrite (bind_Returned _ _ _ _ w _ tt (logger_method_run DEBUG _ w)).
  set (w1 := Spec.logged DEBUG _ w).
  rewrite (bind_Returned _ _ _ _ w1 w1 (selectedItems w)) by reflexivity.
  rewrite Hnew.
  rewrite (bind_Returned _ _ _ _ w1 w1 (host w)) by reflexivity.
  rewrite (bind_Returned _ _ _ _ w1 w1 (clock w)) by reflexivity.
  set (item := newItem _ _ _ _ _).
  set (w2 := set_selectedItems (selectedItems w1 ++ [item]) w1).
  rewrite (bind_Returned _ _ _ _ w1 w2 tt) by reflexivity.
  set (w3 := set_saveRequests (S (saveRequests w2)) w2).
  rewrite (bind_Returned _ _ _ _ w2 w3 tt) by reflexivity.
  rewrite (bind_Returned _ _ _ _ w3 w3 tt) by reflexivity.
  destruct (injectAllItems_returns w3) as [w4 [H4 S4]].
  rewrite (bind_Returned _ _ _ _ w3 w4 tt H4).
  eexists; split; [reflexivity|].
  simpl. destruct (toastr w4); simpl; rewrite S4; reflexivity.
Qed.

Lemma orNum_not_zero (v : Js.Number) (d q : Q) :
  ~ (d == 0)%Q -> (q == 0)%Q -> Js.orNum v d <> Js.Num q.
Proof.
  intros Hd Hq. unfold Js.orNum. destruct (Js.truthy v) eqn:T.
  - intros ->. simpl in T. apply negb_true_iff, Qeq_bool_neq in T. contradiction.
  - intros E. inversion E; subst. contradiction.
Qed.

Lemma orNum_zero (q d : Q) : (q == 0)%Q -> Js.orNum (Js.Num q) d = Js.Num d.
Proof.
  intros Hq. unfold Js.orNum; simpl. now rewrite (Qeq_eq_bool _ _ Hq).
Qed.

End Adding.

(** C10.  A host entry whose [extensions.probability] is 0, added by
    [addSingleEntry] when it is not yet selected, is stored with
    probability 100: the probability check never turns the stored entry
    away.  No entry built by [addSingleEntry] has probability 0.  In the
    same way an [extensions.scan_depth] of 0 is stored as no scan depth,
    which evaluation reads as 10. *)
Theorem C10_zero_probability_stored_as_100
  (world : string) (u : Z) (e : EntryData) (x : Extensions) (q : Q) (w : World) :
  e_extensions e = Some x -> ext_probability x = Js.Num q -> (q == 0)%Q ->
  alreadySelected world u (selectedItems w) = false ->
  (exists w' item,
     addSingleEntry world u (Some e) w = Returned tt w'
     /\ selectedItems w' = selectedItems w ++ [item]
     /\ probability item = Js.Num 100
     /\ (forall v, Spec.gateBlocks item v = false)
     /\ (ext_scan_depth x = Some 0%Z -> scan_depth item = None /\ scanDepth item = 10%Z))
  /\ (forall atDepth now world' u' e' q',
        (q' == 0)%Q -> probability (newItem atDepth now world' u' e') <> Js.Num q').
Proof.
  intros He Hp Hq Hnew. split.
  - destruct (addSingleEntry_pushes world u e w Hnew) as [w' [H S]].
    exists w', (newItem (world_info_position_atDepth (host w)) (clock w) world u e).
    split; [exact H|]. split; [exact S|].
    assert (P : probability
                  (newItem (world_info_position_atDepth (host w)) (clock w) world u e)
                = Js.Num 100).
    { simpl. unfold ext. rewrite He, Hp. now apply orNum_zero. }
    split; [exact P|]. split.
    + intros v. unfold Spec.gateBlocks. rewrite P. reflexivity.
    + intros Hs. unfold scanDepth. simpl. unfold ext. rewrite He, Hs. now split.
  - intros atDepth now world' u' e' q' Hq'. simpl.
    apply orNum_not_zero; [discriminate | exact Hq'].
Qed.

Lemma C10_zero_probability_stored_as_100_witness :
  exists w' item,
    addSingleEntry "book" 7 (Some (Sample.hostEntry (Js.Num 0) (Some 0%Z)))
      (Sample.world ["hello"] 0) = Returned tt w'
    /\ selectedItems w' = selectedItems (Sample.world ["hello"] 0) ++ [item]
    /\ probability item = Js.Num 100
    /\ (forall v, Spec.gateBlocks item v = false)
    /\ (Some 0%Z = Some 0%Z -> scan_depth item = None /\ scanDepth item = 10%Z).
Proof.
  apply (proj1 (C10_zero_probability_stored_as_100 "book" 7
                  (Sample.hostEntry (Js.Num 0) (Some 0%Z))
                  {| ext_depth := Js.Num 4; ext_role := Js.Num 0;
                     ext_probability := Js.Num 0; ext_scan_depth := Some 0%Z;
                     ext_case_sensitive := Some false;
                     ext_match_whole_words := Some false |}
                  0%Q (Sample.world ["hello"] 0)
                  eq_refl eq_refl (Qeq_refl 0) eq_refl)).
Defined.

(* ================================================================== *)
(** * Injection into the prompt *)
(* ================================================================== *)

Section Injection.

Lemma kept_refl (w : World) : Obs.kept w w.
Proof. repeat split. Qed.

Lemma kept_trans (a b c : World) : Obs.kept a b -> Obs.kept b c -> Obs.kept a c.
Proof.
  unfold Obs.kept. intros H1 H2.
  repeat match goal with H : _ /\ _ |- _ => destruct H end.
  repeat split; congruence.
Qed.

Lemma untouched_kept (w w' : World) : Spec.untouched w w' -> Obs.kept w w'.
Proof. unfold Spec.untouched, Obs.kept. tauto. Qed.

(** An evaluation takes one draw exactly when the entry is neither
    constant nor disabled and its probability is below 100. *)
Lemma shouldActivateItem_draws (item : Item) (w : World) :
  exists b w',
    shouldActivateItem item w = Returned b w'
    /\ Spec.untouched w w'
    /\ promptCalls w' = promptCalls w
    /\ randomCalls w'
       = randomCalls w
         + (if negb (constant item) && negb (disable item)
               && Js.lessThan (Js.toNumber (probability item)) (Some 100%Q)
            then 1 else 0)
    /\ (constant item = true -> b = true)
    /\ (constant item = false -> disable item = true -> b = false).
Proof.
  rewrite shouldActivateItem_run.
  destruct (constant item).
  { exists true, w. repeat split; try reflexivity; try discriminate. simpl. lia. }
  destruct (disable item).
  { exists false, w. repeat split; try reflexivity; try discriminate. simpl. lia. }
  simpl negb. simpl andb.
  destruct (Spec.gateBlocks item w) eqn:G.
  - assert (L : Js.lessThan (Js.toNumber (probability item)) (Some 100%Q) = true).
    { unfold Spec.gateBlocks in G. now apply andb_true_iff in G. }
    rewrite L. eexists _, _. split; [reflexivity|].
    split; [eapply untouched_trans; [apply untouched_afterDraw | apply untouched_logged]|].
    split; [reflexivity|]. split; [simpl; lia|]. split; discriminate.
  - destruct (keywordSteps_value item (Spec.afterGate item w)) as [w' [H [Hr U]]].
    rewrite H. eexists _, _. split; [reflexivity|].
    split; [eapply untouched_trans; [apply untouched_afterGate | exact U]|].
    split.
    { destruct U as (_ & _ & _ & _ & _ & P & _). rewrite P.
      unfold Spec.afterGate. destruct (Js.lessThan _ _); reflexivity. }
    split; [|split; discriminate].
    rewrite Hr. unfold Spec.afterGate.
    destruct (Js.lessThan _ _); simpl; lia.
Qed.

Lemma updateItemPrompt_step (item : Item) (w : World) :
  exists w' call,
    updateItemPrompt item w = Returned tt w'
    /\ promptCalls w' = promptCalls w ++ [call]
    /\ Obs.Delivers (host w) item call
    /\ randomCalls w' = randomCalls w + (if Obs.drawsOne item then 1 else 0)
    /\ Obs.kept w w'.
Proof.
  unfold updateItemPrompt, Obs.drawsOne.
  rewrite (bind_Returned _ _ _ _ w w (host w)) by reflexivity.
  destruct (enabled item) eqn:En.
  - destruct (shouldActivateItem_draws item w) as [b [w1 [H [U [P [R [Hc Hd]]]]]]].
    rewrite (bind_Returned _ _ _ _ w w1 b H).
    pose proof (untouched_kept _ _ U) as K.
    assert (Hh : host w1 = host w) by apply K.
    simpl andb.
    destruct b; simpl negb; cbv iota.
    + eexists _, _. split; [reflexivity|]. split; [simpl; now rewrite P|].
      split; [|split; [simpl; exact R | exact K]].
      unfold Obs.Delivers; simpl.
      split; [reflexivity|]. split; [reflexivity|]. split; [reflexivity|].
      split; [now left|]. split; [intros E; congruence|].
      split; [intros _ _; reflexivity|].
      intros Hc' Hd'. specialize (Hd Hc' Hd'). discriminate.
    + eexists _, _. split; [reflexivity|]. split; [simpl; now rewrite P|].
      split; [|split; [simpl; exact R | exact K]].
      unfold Obs.Delivers, Obs.clears; simpl.
      split; [reflexivity|]. split; [reflexivity|]. split; [reflexivity|].
      split; [right; repeat split|]. split; [intros _; repeat split|].
      split; [intros _ Hc'; specialize (Hc Hc'); discriminate|].
      intros _ _. repeat split.
  - eexists _, _. split; [reflexivity|]. split; [reflexivity|].
    split; [|split; [simpl; lia | repeat split]].
    unfold Obs.Delivers, Obs.clears; simpl.
    split; [reflexivity|]. split; [reflexivity|]. split; [reflexivity|].
    split; [right; repeat split|]. split; [intros _; repeat split|].
    split; [intros E; congruence|]. intros _ _. repeat split.
Qed.

Lemma Delivers_host (h h' : Host) (item : Item) (call : PromptCall) :
  h' = h -> Obs.Delivers h item call -> Obs.Delivers h' item call.
Proof. now intros ->. Qed.

Lemma forEach_updateItemPrompt (items : list Item) (w : World) :
  exists w' calls,
    forEach updateItemPrompt items w = Returned tt w'
    /\ promptCalls w' = promptCalls w ++ calls
    /\ Forall2 (Obs.Delivers (host w)) items calls
    /\ randomCalls w' = randomCalls w + List.length (filter Obs.drawsOne items)
    /\ Obs.kept w w'.
Proof.
  revert w; induction items as [|item items IH]; intros w.
  - exists w, []. split; [reflexivity|]. split; [now rewrite app_nil_r|].
    split; [constructor|]. split; [simpl; lia | apply kept_refl].
  - destruct (updateItemPrompt_step item w) as [w1 [call [H1 [P1 [D1 [R1 K1]]]]]].
    destruct (IH w1) as [w2 [calls [H2 [P2 [D2 [R2 K2]]]]]].
    exists w2, (call :: calls).
    split; [simpl forEach; now rewrite (bind_Returned _ _ _ _ w w1 tt H1)|].
    split; [rewrite P2, P1, <- app_assoc; reflexivity|].
    assert (Hh : host w1 = host w) by apply K1.
    split.
    { constructor; [exact D1|]. rewrite <- Hh. exact D2. }
    split; [|eapply kept_trans; eassumption].
    rewrite R2, R1. simpl filter. destruct (Obs.drawsOne item); simpl; lia.
Qed.

Lemma injectAllItems_spec (w : World) :
  exists w' calls,
    injectAllItems w = Returned tt w'
    /\ promptCalls w' = promptCalls w ++ calls
    /\ Forall2 (Obs.Delivers (host w)) (selectedItems w) calls
    /\ randomCalls w'
       = randomCalls w + List.length (filter Obs.drawsOne (selectedItems w))
    /\ Obs.kept w w'.
Proof.
  unfold injectAllItems.
  rewrite (bind_Returned _ _ _ _ w w (selectedItems w)) by reflexivity.
  rewrite (bind_Returned _ _ _ _ w _ tt (logger_method_run DEBUG _ w)).
  set (w0 := Spec.logged DEBUG _ w).
  destruct (forEach_updateItemPrompt (selectedItems w) w0)
    as [w1 [calls [H1 [P1 [D1 [R1 K1]]]]]].
  rewrite (bind_Returned _ _ _ _ w0 w1 tt H1).
  eexists _, calls. split; [reflexivity|].
  split; [simpl; exact P1|]. split; [exact D1|]. split; [simpl; exact R1|].
  destruct K1 as (A & B & C & D & E & F & G & I).
  repeat split; simpl; assumption.
Qed.

End Injection.

(** X1.  [updateItemPrompt] makes exactly one call of the sink, under the
    key [paws_wi_<id>], in chat, without scan.  When the entry is
    switched on and the evaluation answers true, the call carries the
    entry's content (which may be empty), with the entry's depth (4 when
    it is null) and role (the system role when it is null or undefined).
    Otherwise the call clears the key: empty text, depth 0 and the system
    role.  A switched-off entry is cleared without any draw. *)
Theorem X1_updateItemPrompt_one_call (item : Item) (w : World) :
  exists w' call b,
    updateItemPrompt item w = Returned tt w'
    /\ promptCalls w' = promptCalls w ++ [call]
    /\ Spec.result (shouldActivateItem item w) = Some b
    /\ prompt_key call = ("paws_wi_" ++ id item)%string
    /\ prompt_type call = extension_prompt_types_IN_CHAT (host w)
    /\ prompt_scan call = false
    /\ prompt_value call = (if enabled item && b then content item else ""%string)
    /\ (enabled item && b = true ->
        prompt_depth call = match depth item with Js.Null => Js.Num 4 | v => v end
        /\ prompt_role call
           = match role item with
             | Js.Null | Js.Undefined =>
                 Js.Num (inject_Z (extension_prompt_roles_SYSTEM (host w)))
             | v => v
             end)
    /\ (enabled item && b = false -> Obs.clears (host w) call)
    /\ (enabled item = false -> randomCalls w' = randomCalls w).
Proof.
  destruct (shouldActivateItem_draws item w) as [b [w1 [H [U [P _]]]]].
  assert (Hh : host w1 = host w) by apply U.
  exists (Spec.final (updateItemPrompt item w)).
  unfold updateItemPrompt.
  rewrite (bind_Returned _ _ _ _ w w (host w)) by reflexivity.
  destruct (enabled item).
  - rewrite (bind_Returned _ _ _ _ w w1 b H).
    destruct b; simpl negb; cbv iota.
    + eexists _, true. split; [reflexivity|]. split; [simpl; now rewrite P|].
      split; [now rewrite H|].
      do 4 (split; [reflexivity|]).
      split; [intros _; split; reflexivity|].
      split; discriminate.
    + eexists _, false. split; [reflexivity|]. split; [simpl; now rewrite P|].
      split; [now rewrite H|].
      do 4 (split; [reflexivity|]).
      split; [discriminate|].
      split; [intros _; repeat split | discriminate].
  - eexists _, b. split; [reflexivity|]. split; [reflexivity|].
    split; [now rewrite H|].
    do 4 (split; [reflexivity|]).
    split; [discriminate|].
    split; [intros _; repeat split | reflexivity].
Qed.

(** X2.  [injectAllItems] never throws and makes one call of the sink for
    each selected entry, in the order of the list: each call is under
    that entry's key and carries its content or clears it; switched-off
    entries are cleared, constant entries that are switched on are
    written.  The list of entries, the chat and the settings are left as
    they were. *)
Theorem X2_injectAllItems_one_call_each (w : World) :
  exists w' calls,
    injectAllItems w = Returned tt w'
    /\ promptCalls w' = promptCalls w ++ calls
    /\ List.length calls = List.length (selectedItems w)
    /\ map prompt_key calls = map Obs.promptKey (selectedItems w)
    /\ Forall2 (Obs.Delivers (host w)) (selectedItems w) calls
    /\ selectedItems w' = selectedItems w
    /\ chat w' = chat w
    /\ saveRequests w' = saveRequests w.
Proof.
  destruct (injectAllItems_spec w) as [w' [calls [H [P [D [_ K]]]]]].
  exists w', calls. split; [exact H|]. split; [exact P|].
  split; [symmetry; eapply Forall2_length; exact D|].
  split.
  { clear H P K. induction D as [|item call items calls D1 D IH]; [reflexivity|].
    simpl. rewrite IH. f_equal. apply D1. }
  split; [exact D|]. split; [apply K|]. split; apply K.
Qed.

(** X3.  [injectAllItems] takes exactly as many draws as there are
    selected entries that are switched on, neither constant nor disabled,
    and of probability below 100. *)
Theorem X3_injectAllItems_draws (w : World) :
  exists w',
    injectAllItems w = Returned tt w'
    /\ randomCalls w'
       = randomCalls w + List.length (filter Obs.drawsOne (selectedItems w)).
Proof.
  destruct (injectAllItems_spec w) as [w' [calls [H [_ [_ [R _]]]]]].
  now exists w'.
Qed.

Lemma X1_updateItemPrompt_one_call_witness :
  enabled (Sample.flagged true false ["cat"]) && true = true
  /\ exists w' call,
       updateItemPrompt (Sample.flagged true false ["cat"]) (Sample.world ["hello"] 0)
       = Returned tt w'
       /\ promptCalls w' = promptCalls (Sample.world ["hello"] 0) ++ [call]
       /\ prompt_value call = "text"%string
       /\ prompt_depth call = Js.Num 4.
Proof.
  split; [reflexivity|].
  destruct (X1_updateItemPrompt_one_call
              (Sample.flagged true false ["cat"]) (Sample.world ["hello"] 0))
    as [w' [call [b [H [P [R [_ [_ [_ [V [A _]]]]]]]]]]].
  exists w', call. split; [exact H|]. split; [exact P|].
  assert (E : b = true) by (vm_compute in R; congruence).
  split; [rewrite V, E; reflexivity|].
  rewrite E in A. exact (proj1 (A eq_refl)).
Defined.

(* ================================================================== *)
(** * More on matching *)
(* ================================================================== *)

Section MoreMatching.

Local Open Scope string_scope.

(** The answer of [matchKeys] in either mode. *)
Lemma matches_spec (text : string) (keys : list string) (cs ww : bool) :
  Spec.matches text keys cs ww = true
  <-> exists k, In k keys /\ Obs.occurs ww (Spec.folded cs k) (Spec.folded cs text).
Proof.
  unfold Spec.matches, Obs.occurs. destruct ww.
  - destruct (matchKeys_wholeWords text keys cs) as [b [H Hb]]. now rewrite H.
  - destruct (matchKeys_substring text keys cs) as [b [H Hb]]. now rewrite H.
Qed.

Lemma matches_iff_eq (a b : bool) : (a = true <-> b = true) -> a = b.
Proof. destruct a, b; intros [H1 H2]; try reflexivity; [symmetry; auto | auto]. Qed.

Lemma matches_app (text : string) (ks1 ks2 : list string) (cs ww : bool) :
  Spec.matches text (ks1 ++ ks2) cs ww
  = Spec.matches text ks1 cs ww || Spec.matches text ks2 cs ww.
Proof.
  apply matches_iff_eq. rewrite orb_true_iff, !matches_spec. split.
  - intros [k [Hin H]]. apply in_app_iff in Hin.
    destruct Hin as [Hin|Hin]; [left | right]; now exists k.
  - intros [[k [Hin H]]|[k [Hin H]]]; exists k; (split; [apply in_app_iff; auto | exact H]).
Qed.

Lemma wholeWord_occursIn (k text : string) :
  Spec.occursAsWholeWord k text -> Spec.occursIn k text.
Proof. intros [pre [post [E _]]]. now exists pre, post. Qed.

Lemma isWordChar_toLower (c : ascii) :
  CodeUnit.isWordChar (CodeUnit.toLower c) = CodeUnit.isWordChar c.
Proof. destruct c as [[|] [|] [|] [|] [|] [|] [|] [|]]; reflexivity. Qed.

Lemma firstChar_toLowerCase (s : string) :
  RegExp.isWordAt (Str.firstChar (Str.toLowerCase s)) = RegExp.isWordAt (Str.firstChar s).
Proof. destruct s; simpl; [reflexivity | apply isWordChar_toLower]. Qed.

Lemma lastChar_toLowerCase (s : string) :
  RegExp.isWordAt (Str.lastChar (Str.toLowerCase s)) = RegExp.isWordAt (Str.lastChar s).
Proof.
  induction s as [|c s IH]; [reflexivity|].
  destruct s as [|d s]; [simpl; apply isWordChar_toLower|].
  exact IH.
Qed.

Lemma isBoundary_folded (cs : bool) (a b : string) :
  RegExp.isBoundary (Str.lastChar (Spec.folded cs a)) (Str.firstChar (Spec.folded cs b))
  = RegExp.isBoundary (Str.lastChar a) (Str.firstChar b).
Proof.
  destruct cs; [reflexivity|]. unfold RegExp.isBoundary; simpl Spec.folded.
  now rewrite lastChar_toLowerCase, firstChar_toLowerCase.
Qed.

Lemma folded_append (cs : bool) (a b : string) :
  Spec.folded cs (a ++ b) = Spec.folded cs a ++ Spec.folded cs b.
Proof. destruct cs; [reflexivity | apply toLowerCase_append]. Qed.

(** An occurrence survives the folding of keyword and corpus. *)
Lemma occurs_folded (ww cs : bool) (k text : string) :
  Obs.occurs ww k text -> Obs.occurs ww (Spec.folded cs k) (Spec.folded cs text).
Proof.
  destruct ww; simpl.
  - intros [pre [post [E [B1 B2]]]].
    exists (Spec.folded cs pre), (Spec.folded cs post).
    split; [now rewrite E, !folded_append|]. split.
    + rewrite <- folded_append, isBoundary_folded. exact B1.
    + rewrite <- folded_append, isBoundary_folded. exact B2.
  - intros [pre [post E]].
    exists (Spec.folded cs pre), (Spec.folded cs post).
    now rewrite E, !folded_append.
Qed.

Lemma toLowerCase_idempotent (s : string) :
  Str.toLowerCase (Str.toLowerCase s) = Str.toLowerCase s.
Proof.
  induction s as [|c s IH]; simpl; [reflexivity|].
  now rewrite toLower_idempotent, IH.
Qed.

Lemma hasWordChar_false_append (a b : string) :
  Obs.hasWordChar (a ++ b) = false ->
  Obs.hasWordChar a = false /\ Obs.hasWordChar b = false.
Proof.
  induction a as [|c a IH]; simpl; [now split|].
  rewrite !orb_false_iff. intros [Hc H]. destruct (IH H). now repeat split.
Qed.

Lemma hasWordChar_lastChar (s : string) :
  Obs.hasWordChar s = false -> RegExp.isWordAt (Str.lastChar s) = false.
Proof.
  induction s as [|c s IH]; [reflexivity|]. simpl Obs.hasWordChar.
  rewrite orb_false_iff. intros [Hc H].
  destruct s as [|d s]; [exact Hc | exact (IH H)].
Qed.

Lemma hasWordChar_firstChar (s : string) :
  Obs.hasWordChar s = false -> RegExp.isWordAt (Str.firstChar s) = false.
Proof.
  destruct s as [|c s]; [reflexivity|]. simpl.
  rewrite orb_false_iff. now intros [Hc _].
Qed.

Lemma hasWordChar_toLowerCase (s : string) :
  Obs.hasWordChar (Str.toLowerCase s) = Obs.hasWordChar s.
Proof.
  induction s as [|c s IH]; simpl; [reflexivity|].
  now rewrite isWordChar_toLower, IH.
Qed.

(** A text with a word unit has a word boundary: before its first one. *)
Lemma hasWordChar_boundary (s : string) :
  Obs.hasWordChar s = true ->
  exists pre post,
    s = pre ++ post
    /\ RegExp.isBoundary (Str.lastChar pre) (Str.firstChar post) = true.
Proof.
  induction s as [|c s IH]; [discriminate|]. simpl Obs.hasWordChar.
  destruct (CodeUnit.isWordChar c) eqn:Hc.
  - intros _. exists "", (String c s). split; [reflexivity|].
    unfold RegExp.isBoundary; simpl. now rewrite Hc.
  - simpl. intros H. destruct (IH H) as [pre [post [E B]]].
    exists (String c pre), post. split; [simpl; now rewrite E|].
    destruct pre as [|d pre]; [|exact B].
    unfold RegExp.isBoundary in *; simpl in *. now rewrite Hc.
Qed.

End MoreMatching.

(** X4.  What [shouldActivateItem] answers on an entry that reaches the
    keyword steps is what [matchKeys] answers on its two keyword lists
    put end to end: which of the two lists a keyword stands in makes no
    difference. *)
Theorem X4_two_lists_as_one (item : Item) (w : World) :
  constant item = false -> disable item = false -> Spec.gateBlocks item w = false ->
  exists b,
    matchKeys (searchTextOf item (Js.orEmpty (chat w)))
      (Js.orEmpty (key item) ++ Js.orEmpty (keysecondary item))
      (case_sensitive item) (match_whole_words item) = inl b
    /\ Spec.result (shouldActivateItem item w) = Some b.
Proof.
  intros Hc Hd Hg.
  destruct (shouldActivateItem_through item w Hc Hd Hg) as [w' [H _]].
  eexists. split; [apply matches_correct|].
  rewrite H. simpl. f_equal. unfold Spec.keywordMatch. rewrite matches_app.
  destruct (Js.noElements (keysecondary item)) eqn:E; [|reflexivity].
  now rewrite (orEmpty_noElements _ _ E), matches_nil.
Qed.

Lemma X4_two_lists_as_one_witness :
  exists b,
    matchKeys "beta here" ["alpha"; "beta"] false false = inl b
    /\ Spec.result
         (shouldActivateItem (Sample.entry ["alpha"] ["beta"] (Js.Num 100) None false false)
            (Sample.world ["beta here"] 0)) = Some b.
Proof.
  apply (X4_two_lists_as_one
           (Sample.entry ["alpha"] ["beta"] (Js.Num 100) None false false)
           (Sample.world ["beta here"] 0)); reflexivity.
Defined.

(** X5.  On a corpus and keywords of 8-bit (Latin-1) code units, where
    lower-casing and the case folding of the engine act unit by unit,
    loosening the match never loses a match: a list that matches in
    whole-word mode matches in substring mode, and a list that matches
    case-sensitively matches case-insensitively, on the same corpus. *)
Theorem X5_looser_mode_still_matches (text : string) (keys : list string) :
  (forall cs, matchKeys text keys cs true = inl true ->
              matchKeys text keys cs false = inl true)
  /\ (forall ww, matchKeys text keys true ww = inl true ->
                 matchKeys text keys false ww = inl true).
Proof.
  split.
  - intros cs H. rewrite matches_correct in *. f_equal.
    inversion H as [H']. rewrite H'. apply matches_spec in H'. apply matches_spec.
    destruct H' as [k [Hin Ho]]. exists k. split; [exact Hin|].
    now apply wholeWord_occursIn.
  - intros ww H. rewrite matches_correct in *. f_equal.
    inversion H as [H']. rewrite H'. apply matches_spec in H'. apply matches_spec.
    destruct H' as [k [Hin Ho]]. exists k. split; [exact Hin|].
    now apply (occurs_folded ww false) in Ho.
Qed.

Lemma X5_looser_mode_still_matches_witness :
  matchKeys "the cat sat" ["cat"] true true = inl true
  /\ matchKeys "the cat sat" ["cat"] true false = inl true
  /\ matchKeys "the cat sat" ["cat"] false true = inl true.
Proof.
  split; [reflexivity|]. split.
  - apply (proj1 (X5_looser_mode_still_matches "the cat sat" ["cat"%string])). reflexivity.
  - apply (proj2 (X5_looser_mode_still_matches "the cat sat" ["cat"%string])). reflexivity.
Defined.

(** X6.  Case-insensitive matching does not see the case of the corpus or
    of the keywords: lower-casing either changes nothing. *)
Theorem X6_case_insensitive_ignores_case (text : string) (keys : list string) (ww : bool) :
  matchKeys (Str.toLowerCase text) keys false ww = matchKeys text keys false ww
  /\ matchKeys text (map Str.toLowerCase keys) false ww = matchKeys text keys false ww.
Proof.
  split.
  - unfold matchKeys. now rewrite toLowerCase_idempotent.
  - unfold matchKeys. destruct keys as [|k ks]; [reflexivity|].
    change (map Str.toLowerCase (k :: ks))
      with (Str.toLowerCase k :: map Str.toLowerCase ks).
    change (map Str.toLowerCase (Str.toLowerCase k :: map Str.toLowerCase ks))
      with (map Str.toLowerCase (map Str.toLowerCase (k :: ks))).
    rewrite map_map.
    rewrite (map_ext _ Str.toLowerCase toLowerCase_idempotent). reflexivity.
Qed.

(** X7.  The empty keyword: a list that holds it matches every corpus in
    substring mode, and every corpus that has a word unit in whole-word
    mode. *)
Theorem X7_empty_keyword_matches (text : string) (keys : list string) (cs : bool) :
  In ""%string keys ->
  matchKeys text keys cs false = inl true
  /\ (Obs.hasWordChar text = true -> matchKeys text keys cs true = inl true).
Proof.
  intros Hin. split.
  - rewrite matches_correct. f_equal. apply matches_spec.
    exists ""%string. split; [exact Hin|].
    assert (E : Spec.folded cs "" = ""%string) by (now destruct cs).
    rewrite E. exists ""%string, (Spec.folded cs text). reflexivity.
  - intros Hw. rewrite matches_correct. f_equal. apply matches_spec.
    exists ""%string. split; [exact Hin|].
    assert (E : Spec.folded cs "" = ""%string) by (now destruct cs).
    rewrite E.
    assert (Hw' : Obs.hasWordChar (Spec.folded cs text) = true).
    { destruct cs; [exact Hw | simpl; now rewrite hasWordChar_toLowerCase]. }
    destruct (hasWordChar_boundary _ Hw') as [pre [post [Et B]]].
    exists pre, post. split; [exact Et|]. split; [exact B|].
    now rewrite append_nil_r.
Qed.

Lemma X7_empty_keyword_matches_witness :
  In ""%string ["dog"; ""]%string
  /\ matchKeys "the cat sat" ["dog"; ""] true false = inl true
  /\ matchKeys "the cat sat" ["dog"; ""] true true = inl true.
Proof.
  assert (Hin : In ""%string ["dog"; ""]%string) by (right; left; reflexivity).
  split; [exact Hin|]. split.
  - apply (proj1 (X7_empty_keyword_matches "the cat sat" ["dog"; ""]%string true Hin)).
  - apply (proj2 (X7_empty_keyword_matches "the cat sat" ["dog"; ""]%string true Hin)).
    reflexivity.
Defined.

(** X8.  A corpus that holds no word unit (letter, digit, underscore) as
    it is searched, that is as it is when the entry is case-sensitive and
    lower-cased when it is not, never matches in whole-word mode,
    whatever the keywords: there is no word boundary in it. *)
Theorem X8_no_word_unit_no_whole_word (text : string) (keys : list string) (cs : bool) :
  Obs.hasWordChar (Spec.folded cs text) = false -> matchKeys text keys cs true = inl false.
Proof.
  intros Hw.
  destruct (matchKeys_wholeWords_units text keys cs) as [b [H Hb]].
  rewrite H. f_equal. destruct b; [|reflexivity].
  destruct (proj1 Hb eq_refl) as [k [_ [pre [mid [post [Et [_ [B _]]]]]]]].
  rewrite Et in Hw.
  apply hasWordChar_false_append in Hw. destruct Hw as [Hpre Hrest].
  unfold RegExp.isBoundary in B.
  rewrite (hasWordChar_lastChar _ Hpre), (hasWordChar_firstChar _ Hrest) in B.
  discriminate B.
Qed.

Lemma X8_no_word_unit_no_whole_word_witness :
  Obs.hasWordChar (Spec.folded false "?! ... --") = false
  /\ matchKeys "?! ... --" ["..."; "!"] false true = inl false.
Proof.
  split; [reflexivity|].
  apply (X8_no_word_unit_no_whole_word "?! ... --" ["..."; "!"]%string false).
  reflexivity.
Defined.

(** X9.  A keyword that, as it is compared (lower-cased unless the entry
    is case-sensitive), begins and ends with a word unit is found in
    whole-word mode wherever it stands, in the corpus as it is searched
    (lower-cased likewise), between units that are not word units or the
    ends of the corpus, whatever characters special to regular
    expressions it holds. *)
Theorem X9_delimited_keyword_is_found
  (text pre k post : string) (keys : list string) (cs : bool) :
  In k keys -> Obs.wordEnded (Spec.folded cs k) ->
  Spec.folded cs text = (pre ++ Spec.folded cs k ++ post)%string ->
  RegExp.isWordAt (Str.lastChar pre) = false ->
  RegExp.isWordAt (Str.firstChar post) = false ->
  matchKeys text keys cs true = inl true.
Proof.
  intros Hin [Hf Hl] Et Hpre Hpost.
  destruct (matchKeys_wholeWords_units text keys cs) as [b [H Hb]].
  rewrite H. f_equal. apply Hb. exists k. split; [exact Hin|].
  exists pre, (Spec.folded cs k), post. split; [exact Et|].
  split; [apply sameUnits_refl|].
  assert (Hk : Spec.folded cs k <> ""%string) by (intros E; rewrite E in Hf; discriminate Hf).
  unfold RegExp.isBoundary. split.
  - assert (E : Str.firstChar (Spec.folded cs k ++ post) = Str.firstChar (Spec.folded cs k))
      by (destruct (Spec.folded cs k); [now elim Hk | reflexivity]).
    now rewrite E, Hpre, Hf.
  - assert (E : Str.lastChar (pre ++ Spec.folded cs k) = Str.lastChar (Spec.folded cs k)).
    { rewrite !lastChar_lastAfter, lastAfter_append.
      destruct (Spec.folded cs k); [now elim Hk | reflexivity]. }
    now rewrite E, Hl, Hpost.
Qed.

Lemma X9_delimited_keyword_is_found_witness :
  Obs.wordEnded (Spec.folded false "A.b(c)+D")
  /\ matchKeys "Say a.B(c)+d, now" ["x"; "A.b(c)+D"] false true = inl true.
Proof.
  split; [split; reflexivity|].
  apply (X9_delimited_keyword_is_found "Say a.B(c)+d, now" "say " "A.b(c)+D" ", now"
           ["x"; "A.b(c)+D"]%string false).
  - right; left; reflexivity.
  - split; reflexivity.
  - reflexivity.
  - reflexivity.
  - reflexivity.
Defined.

(* ================================================================== *)
(** * Scan depth *)
(* ================================================================== *)

Section ScanDepth.

Local Open Scope string_scope.

Lemma lastN_skipn (A : Type) (n : nat) (l : list A) :
  Spec.lastN n l = skipn (List.length l - n) l.
Proof. unfold Spec.lastN. now rewrite firstn_rev, rev_involutive. Qed.

(** A longer window is the shorter one with older messages in front. *)
Lemma lastN_grows (A : Type) (n n' : nat) (l : list A) :
  (n <= n')%nat -> exists older, Spec.lastN n' l = (older ++ Spec.lastN n l)%list.
Proof.
  intros Hle. rewrite !lastN_skipn.
  set (a := (List.length l - n')%nat). set (b := (List.length l - n)%nat).
  exists (firstn (b - a) (skipn a l)).
  rewrite <- (firstn_skipn (b - a) (skipn a l)) at 1. f_equal.
  rewrite skipn_skipn. f_equal. subst a b. lia.
Qed.

Lemma lastN_nil (A : Type) (n : nat) (l : list A) :
  (0 < n)%nat -> Spec.lastN n l = [] -> l = [].
Proof.
  intros Hn. rewrite lastN_skipn. intros H.
  apply skipn_all_iff in H. destruct l; [reflexivity | simpl List.length in H; lia].
Qed.

Lemma join_app (sep : string) (a b : list string) :
  a <> [] -> b <> [] ->
  Str.join sep (a ++ b)%list = Str.join sep a ++ sep ++ Str.join sep b.
Proof.
  intros Ha Hb. induction a as [|x a IH]; [now elim Ha|].
  destruct a as [|y a].
  - destruct b as [|z b]; [now elim Hb | reflexivity].
  - change (Str.join sep ((x :: y :: a) ++ b)%list)
      with (x ++ sep ++ Str.join sep ((y :: a) ++ b)%list).
    rewrite IH by discriminate.
    change (Str.join sep (x :: y :: a)) with (x ++ sep ++ Str.join sep (y :: a)).
    now rewrite !append_assoc.
Qed.

(** An occurrence stays one when older text and a space are put in
    front of the corpus. *)
Lemma occurs_older (ww : bool) (k p t : string) :
  Obs.occurs ww k t -> Obs.occurs ww k (p ++ " " ++ t).
Proof.
  destruct ww; simpl.
  - intros [pre [post [E [B1 B2]]]].
    exists ((p ++ " ") ++ pre), post.
    split; [rewrite E, !append_assoc; reflexivity|].
    assert (L : forall s, RegExp.isWordAt (Str.lastChar ((p ++ " ") ++ s))
                          = RegExp.isWordAt (Str.lastChar s)).
    { intros s. rewrite lastChar_lastAfter, !lastAfter_append.
      change (Spec.lastAfter (Spec.lastAfter None p) " ") with (Some " "%char).
      rewrite (lastChar_lastAfter s). destruct s; reflexivity. }
    unfold RegExp.isBoundary in *. split.
    + now rewrite L.
    + rewrite append_assoc, L. exact B2.
  - intros [pre [post E]]. exists ((p ++ " ") ++ pre), post.
    rewrite E, !append_assoc. reflexivity.
Qed.

Lemma matches_older (p t : string) (keys : list string) (cs ww : bool) :
  Spec.matches t keys cs ww = true ->
  Spec.matches (p ++ " " ++ t) keys cs ww = true.
Proof.
  rewrite !matches_spec. intros [k [Hin H]]. exists k. split; [exact Hin|].
  rewrite !folded_append.
  assert (E : Spec.folded cs " " = " ") by (now destruct cs).
  rewrite E. now apply occurs_older.
Qed.

Lemma keywordMatch_older (item : Item) (p t : string) :
  Spec.keywordMatch item t = true -> Spec.keywordMatch item (p ++ " " ++ t) = true.
Proof.
  unfold Spec.keywordMatch. rewrite !orb_true_iff.
  destruct (Js.noElements (keysecondary item)).
  - intros [H|H]; [left; now apply matches_older | discriminate].
  - intros [H|H]; [left | right]; now apply matches_older.
Qed.

(** The corpus of a longer window is the corpus of the shorter one, or
    older text and a space in front of it. *)
Lemma corpus_grows (msgs : list Message) (n n' : nat) :
  (0 < n)%nat -> (n <= n')%nat ->
  let t := Str.join " " (map messageText (Spec.lastN n msgs)) in
  let t' := Str.join " " (map messageText (Spec.lastN n' msgs)) in
  t' = t \/ exists p, t' = p ++ " " ++ t.
Proof.
  intros Hn Hle t t'. subst t t'.
  destruct (lastN_grows _ n n' msgs Hle) as [older E]. rewrite E.
  destruct older as [|m older]; [now left|].
  destruct (Spec.lastN n msgs) as [|m' recent] eqn:R.
  - apply lastN_nil in R; [|exact Hn]. subst msgs.
    rewrite lastN_skipn in E. now rewrite skipn_nil in E.
  - right. rewrite map_app. eexists. apply join_app; discriminate.
Qed.

End ScanDepth.

(** X10.  A larger scan depth never loses an activation: if an entry
    with a positive scan depth is active in some world, the same entry
    with any larger scan depth is active in that world too. *)
Theorem X10_deeper_scan_keeps_activation (item : Item) (w : World) (n n' : Z) :
  scan_depth item = Some n -> (0 < n)%Z -> (n <= n')%Z ->
  Spec.result (shouldActivateItem item w) = Some true ->
  Spec.result (shouldActivateItem (Obs.withScanDepth (Some n') item) w) = Some true.
Proof.
  intros Hs Hn Hle. rewrite !shouldActivateItem_run.
  change (constant (Obs.withScanDepth (Some n') item)) with (constant item).
  change (disable (Obs.withScanDepth (Some n') item)) with (disable item).
  change (Spec.gateBlocks (Obs.withScanDepth (Some n') item) w)
    with (Spec.gateBlocks item w).
  destruct (constant item); [trivial|].
  destruct (disable item); [trivial|].
  destruct (Spec.gateBlocks item w); [trivial|].
  rewrite !keywordSteps_run.
  change (Spec.hasKeywords (Obs.withScanDepth (Some n') item))
    with (Spec.hasKeywords item).
  change (Spec.afterGate (Obs.withScanDepth (Some n') item) w)
    with (Spec.afterGate item w).
  destruct (Spec.hasKeywords item); [|trivial]. simpl Spec.result.
  set (msgs := Js.orEmpty (chat (Spec.afterGate item w))).
  rewrite (searchTextOf_last item msgs (Z.to_nat n))
    by (unfold Spec.depthIs; rewrite Hs; now split).
  rewrite (searchTextOf_last (Obs.withScanDepth (Some n') item) msgs (Z.to_nat n'))
    by (unfold Spec.depthIs; simpl; split; [lia | reflexivity]).
  intros H. inversion H as [H']. rewrite H'. f_equal.
  change (Spec.keywordMatch (Obs.withScanDepth (Some n') item))
    with (Spec.keywordMatch item).
  destruct (corpus_grows msgs (Z.to_nat n) (Z.to_nat n')) as [E|[p E]]; [lia | lia | |].
  - now rewrite E.
  - rewrite E. now apply keywordMatch_older.
Qed.

Lemma X10_deeper_scan_keeps_activation_witness :
  Spec.result
    (shouldActivateItem
       (Obs.withScanDepth (Some 5%Z)
          (Sample.entry ["dragon"] [] (Js.Num 100) (Some 3%Z) false true))
       (Sample.world Sample.tenMessages 0))
  = Some true.
Proof.
  apply (X10_deeper_scan_keeps_activation
           (Sample.entry ["dragon"] [] (Js.Num 100) (Some 3%Z) false true)
           (Sample.world Sample.tenMessages 0) 3 5).
  - reflexivity.
  - reflexivity.
  - discriminate.
  - reflexivity.
Defined.

(* ================================================================== *)
(** * More on adding an entry *)
(* ================================================================== *)

Section MoreAdding.

Lemma alreadySelected_origin (world : string) (u : Z) (items : list Item) :
  alreadySelected world u items = true <-> In (world, u) (map Obs.origin items).
Proof.
  unfold alreadySelected. rewrite existsb_exists, in_map_iff. split.
  - intros [item [Hin H]]. apply andb_true_iff in H. destruct H as [Hw Hu].
    apply String.eqb_eq in Hw. apply Z.eqb_eq in Hu.
    exists item. split; [unfold Obs.origin; now rewrite Hw, Hu | exact Hin].
  - intros [item [E Hin]]. exists item. split; [exact Hin|].
    unfold Obs.origin in E. inversion E; subst.
    now rewrite String.eqb_refl, Z.eqb_refl.
Qed.

(** What [addSingleEntry] does with an entry that is not yet selected. *)
Lemma addSingleEntry_added (world : string) (u : Z) (e : EntryData) (w : World) :
  alreadySelected world u (selectedItems w) = false ->
  exists w' calls,
    addSingleEntry world u (Some e) w = Returned tt w'
    /\ selectedItems w'
       = selectedItems w
         ++ [newItem (world_info_position_atDepth (host w)) (clock w) world u e]
    /\ promptCalls w' = promptCalls w ++ calls
    /\ Forall2 (Obs.Delivers (host w))
         (selectedItems w
          ++ [newItem (world_info_position_atDepth (host w)) (clock w) world u e])
         calls
    /\ saveRequests w' = S (saveRequests w)
    /\ chat w' = chat w
    /\ console w' = console w.
Proof.
  intros Hnew. unfold addSingleEntry.
  rewrite (bind_Returned _ _ _ _ w _ tt (logger_method_run DEBUG _ w)).
  set (w1 := Spec.logged DEBUG _ w).
  rewrite (bind_Returned _ _ _ _ w1 w1 (selectedItems w)) by reflexivity.
  rewrite Hnew.
  rewrite (bind_Returned _ _ _ _ w1 w1 (host w)) by reflexivity.
  rewrite (bind_Returned _ _ _ _ w1 w1 (clock w)) by reflexivity.
  set (item := newItem _ _ _ _ _).
  set (w2 := set_selectedItems (selectedItems w1 ++ [item]) w1).
  rewrite (bind_Returned _ _ _ _ w1 w2 tt) by reflexivity.
  set (w3 := set_saveRequests (S (saveRequests w2)) w2).
  rewrite (bind_Returned _ _ _ _ w2 w3 tt) by reflexivity.
  rewrite (bind_Returned _ _ _ _ w3 w3 tt) by reflexivity.
  destruct (injectAllItems_spec w3) as [w4 [calls [H4 [P4 [D4 [_ K4]]]]]].
  rewrite (bind_Returned _ _ _ _ w3 w4 tt H4).
  destruct K4 as (S4 & C4 & _ & _ & O4 & V4 & _ & _).
  eexists _, calls. split; [reflexivity|].
  split; [simpl; destruct (toastr w4); simpl; rewrite S4; reflexivity|].
  split; [simpl; destruct (toastr w4); simpl; rewrite P4; reflexivity|].
  split; [exact D4|].
  split; [simpl; destruct (toastr w4); simpl; rewrite V4; reflexivity|].
  split; simpl; destruct (toastr w4); simpl; [rewrite C4 | rewrite C4 | rewrite O4 | rewrite O4];
    reflexivity.
Qed.

(** What [addSingleEntry] does with an entry that is already selected. *)
Lemma addSingleEntry_skipped (world : string) (u : Z) (e : EntryData) (w : World) :
  alreadySelected world u (selectedItems w) = true ->
  exists w',
    addSingleEntry world u (Some e) w = Returned tt w'
    /\ selectedItems w' = selectedItems w
    /\ promptCalls w' = promptCalls w
    /\ saveRequests w' = saveRequests w
    /\ randomCalls w' = randomCalls w
    /\ chat w' = chat w
    /\ loggerCalls w'
       = loggerCalls w
         ++ [mkLogCall DEBUG (AddingEntry (Js.orStr (e_comment e) unnamed) world);
             mkLogCall WARN (EntryExists (Js.orStr (e_comment e) (Js.showInt u)))].
Proof.
  intros H. unfold addSingleEntry.
  rewrite (bind_Returned _ _ _ _ w _ tt (logger_method_run DEBUG _ w)).
  set (w1 := Spec.logged DEBUG _ w).
  rewrite (bind_Returned _ _ _ _ w1 w1 (selectedItems w)) by reflexivity.
  rewrite H.
  rewrite (bind_Returned _ _ _ _ w1 _ tt (logger_method_run WARN _ w1)).
  eexists. split; [reflexivity|].
  split; [simpl; destruct (toastr w); reflexivity|].
  split; [simpl; destruct (toastr w); reflexivity|].
  split; [simpl; destruct (toastr w); reflexivity|].
  split; [simpl; destruct (toastr w); reflexivity|].
  split; [simpl; destruct (toastr w); reflexivity|].
  simpl; destruct (toastr w); simpl; rewrite <- app_assoc; reflexivity.
Qed.

End MoreAdding.

(** X11.  [addSingleEntry] given no entry data, or an entry whose world
    book and uid are already selected, adds nothing: the list, the sink,
    the settings, the chat and the draw counter are left as they were,
    and the logger is warned exactly once. *)
Theorem X11_addSingleEntry_adds_nothing
  (world : string) (u : Z) (entryData : option EntryData) (w : World) :
  entryData = None \/ alreadySelected world u (selectedItems w) = true ->
  exists w' delta,
    addSingleEntry world u entryData w = Returned tt w'
    /\ selectedItems w' = selectedItems w
    /\ promptCalls w' = promptCalls w
    /\ saveRequests w' = saveRequests w
    /\ randomCalls w' = randomCalls w
    /\ chat w' = chat w
    /\ loggerCalls w' = loggerCalls w ++ delta
    /\ Spec.warnings delta = 1.
Proof.
  intros H. destruct entryData as [e|].
  - destruct H as [H|H]; [discriminate|].
    destruct (addSingleEntry_skipped world u e w H) as [w' [R [A [B [C [D [E F]]]]]]].
    exists w'. eexists. split; [exact R|]. repeat split; try assumption.
    + exact F.
    + reflexivity.
  - eexists _, _. split; [reflexivity|]. repeat split.
Qed.

Lemma X11_addSingleEntry_adds_nothing_witness :
  exists w' delta,
    addSingleEntry "book" 7 None (Sample.world ["hello"] 0) = Returned tt w'
    /\ selectedItems w' = selectedItems (Sample.world ["hello"] 0)
    /\ promptCalls w' = promptCalls (Sample.world ["hello"] 0)
    /\ saveRequests w' = saveRequests (Sample.world ["hello"] 0)
    /\ randomCalls w' = randomCalls (Sample.world ["hello"] 0)
    /\ chat w' = chat (Sample.world ["hello"] 0)
    /\ loggerCalls w' = loggerCalls (Sample.world ["hello"] 0) ++ delta
    /\ Spec.warnings delta = 1.
Proof.
  apply (X11_addSingleEntry_adds_nothing "book" 7 None (Sample.world ["hello"] 0)).
  left. reflexivity.
Defined.

(** X12.  Adding is idempotent: once [addSingleEntry] has returned from
    a call that was given entry data for a world book and uid, a further
    [addSingleEntry] for the same pair, whatever entry data it is given
    or none, leaves the list as it is. *)
Theorem X12_addSingleEntry_twice
  (world : string) (u : Z) (e : EntryData) (entryData' : option EntryData)
  (w w1 : World) :
  addSingleEntry world u (Some e) w = Returned tt w1 ->
  exists w2,
    addSingleEntry world u entryData' w1 = Returned tt w2
    /\ selectedItems w2 = selectedItems w1.
Proof.
  intros H1.
  assert (Hsel : alreadySelected world u (selectedItems w1) = true).
  { destruct (alreadySelected world u (selectedItems w)) eqn:E.
    - destruct (addSingleEntry_skipped world u e w E) as [w' [H [S _]]].
      rewrite H in H1. inversion H1; subst. now rewrite S.
    - destruct (addSingleEntry_added world u e w E) as [w' [calls [H [S _]]]].
      rewrite H in H1. inversion H1; subst. rewrite S.
      unfold alreadySelected. rewrite existsb_app. simpl.
      now rewrite String.eqb_refl, Z.eqb_refl, orb_true_r. }
  destruct entryData' as [e'|].
  - destruct (addSingleEntry_skipped world u e' w1 Hsel) as [w2 [H [S _]]].
    now exists w2.
  - eexists. split; reflexivity.
Qed.

Lemma X12_addSingleEntry_twice_witness :
  exists w2,
    addSingleEntry "book" 7 (Some (Sample.hostEntry (Js.Num 50) None))
      (Spec.final
         (addSingleEntry "book" 7 (Some (Sample.hostEntry (Js.Num 0) (Some 0%Z)))
            (Sample.world ["hello"] 0)))
    = Returned tt w2
    /\ selectedItems w2
       = selectedItems
           (Spec.final
              (addSingleEntry "book" 7 (Some (Sample.hostEntry (Js.Num 0) (Some 0%Z)))
                 (Sample.world ["hello"] 0))).
Proof.
  apply (X12_addSingleEntry_twice "book" 7
           (Sample.hostEntry (Js.Num 0) (Some 0%Z))
           (Some (Sample.hostEntry (Js.Num 50) None))
           (Sample.world ["hello"] 0)).
  vm_compute. reflexivity.
Defined.

(** X13.  [addSingleEntry] keeps the selected entries distinct by origin:
    if no two of them come from the same world book and uid before the
    call, none do after it, whatever it is given. *)
Theorem X13_addSingleEntry_keeps_origins_distinct
  (world : string) (u : Z) (entryData : option EntryData) (w : World) :
  NoDup (map Obs.origin (selectedItems w)) ->
  exists w',
    addSingleEntry world u entryData w = Returned tt w'
    /\ NoDup (map Obs.origin (selectedItems w')).
Proof.
  intros Hnd. destruct entryData as [e|].
  - destruct (alreadySelected world u (selectedItems w)) eqn:E.
    + destruct (addSingleEntry_skipped world u e w E) as [w' [H [S _]]].
      exists w'. split; [exact H | now rewrite S].
    + destruct (addSingleEntry_added world u e w E) as [w' [calls [H [S _]]]].
      exists w'. split; [exact H|]. rewrite S, map_app. simpl.
      apply NoDup_app; [exact Hnd | constructor; [intros [] | constructor] |].
      intros o Hin [Ho|[]]. subst o.
      change (Obs.origin (newItem (world_info_position_atDepth (host w)) (clock w) world u e))
        with (world, u) in Hin.
      apply alreadySelected_origin in Hin. congruence.
  - eexists. split; [reflexivity | exact Hnd].
Qed.

Lemma X13_addSingleEntry_keeps_origins_distinct_witness :
  map Obs.origin (selectedItems (Manage.world (Scene.listed Scene.two)))
  = [("book"%string, 1%Z); ("book"%string, 2%Z)]
  /\ NoDup (map Obs.origin (selectedItems (Manage.world (Scene.listed Scene.two))))
  /\ (exists w',
        addSingleEntry "book" 7 (Some (Sample.hostEntry (Js.Num 50) None))
          (Manage.world (Scene.listed Scene.two)) = Returned tt w'
        /\ NoDup (map Obs.origin (selectedItems w')))
  /\ (exists w',
        addSingleEntry "book" 2 (Some (Sample.hostEntry (Js.Num 50) None))
          (Manage.world (Scene.listed Scene.two)) = Returned tt w'
        /\ NoDup (map Obs.origin (selectedItems w'))).
Proof.
  assert (H : NoDup (map Obs.origin
                       (selectedItems (Manage.world (Scene.listed Scene.two))))).
  { constructor.
    - intros [E|[]]. discriminate E.
    - constructor; [intros [] | constructor]. }
  split; [reflexivity|]. split; [exact H|]. split.
  - apply (X13_addSingleEntry_keeps_origins_distinct "book" 7
             (Some (Sample.hostEntry (Js.Num 50) None))
             (Manage.world (Scene.listed Scene.two)) H).
  - apply (X13_addSingleEntry_keeps_origins_distinct "book" 2
             (Some (Sample.hostEntry (Js.Num 50) None))
             (Manage.world (Scene.listed Scene.two)) H).
Defined.



(* ================================================================== *)
(** * Pages of the list of selected entries *)
(* ================================================================== *)

Section Pages.

Lemma totalPagesOf_eq (n : nat) :
  Manage.totalPagesOf n = ((Z.of_nat n + 4) / 5)%Z.
Proof.
  unfold Manage.totalPagesOf, Manage.activatedPerPage, Qceiling, Qfloor.
  simpl. rewrite Z.mul_1_r.
  generalize (Z.of_nat n). intros z.
  Z.to_euclidean_division_equations. lia.
Qed.

Lemma totalPagesOf_bounds (n : nat) :
  (5 * (Manage.totalPagesOf n - 1) < Z.of_nat n \/ n = 0%nat)%Z
  /\ (Z.of_nat n <= 5 * Manage.totalPagesOf n)%Z
  /\ (0 <= Manage.totalPagesOf n)%Z.
Proof.
  rewrite totalPagesOf_eq.
  destruct n as [|n]; [split; [now right | split; reflexivity || discriminate]|].
  assert (H : (0 < Z.of_nat (S n))%Z) by lia. revert H.
  generalize (Z.of_nat (S n)). intros z Hz.
  split; [left|split]; Z.to_euclidean_division_equations; lia.
Qed.

(** The entries of a page are those from [5 * (page - 1)] on, five at
    most. *)
Lemma pageItems_eq (items : list Item) (page : Z) :
  (1 <= page)%Z ->
  Manage.pageItems items page
  = firstn 5 (skipn (Z.to_nat (5 * (page - 1))) items).
Proof.
  intros Hp. unfold Manage.pageItems, Arr.slice2, Arr.clamp, Manage.activatedPerPage.
  destruct (Z.ltb_spec ((page - 1) * 5) 0) as [H|_]; [lia|].
  destruct (Z.ltb_spec ((page - 1) * 5 + 5) 0) as [H|_]; [lia|].
  set (len := Z.of_nat (List.length items)).
  destruct (Z.le_gt_cases len ((page - 1) * 5)) as [Hfar|Hnear].
  - rewrite !Z.min_r by lia.
    rewrite !skipn_all2 by lia. now rewrite !firstn_nil.
  - rewrite (Z.min_l ((page - 1) * 5)) by lia.
    replace (Z.to_nat ((page - 1) * 5)) with (Z.to_nat (5 * (page - 1))) by lia.
    destruct (Z.le_gt_cases ((page - 1) * 5 + 5) len) as [Hfull|Hshort].
    + rewrite Z.min_l by lia. f_equal. lia.
    + rewrite Z.min_r by lia.
      rewrite !firstn_all2; [reflexivity | |];
        rewrite length_skipn; subst len; lia.
Qed.

End Pages.

(* ================================================================== *)
(** * Running the list-management methods *)
(* ================================================================== *)

Section Managing.

Import Manage.

Lemma andThen_Done (A B : Type) (c : C A) (f : A -> C B) (s s1 : State) (a : A) :
  c s = Done a s1 -> andThen c f s = f a s1.
Proof. intros H. unfold andThen. now rewrite H. Qed.

Lemma onWorld_Returned (A : Type) (c : M A) (s : State) (a : A) (w : World) :
  c (world s) = Returned a w -> onWorld c s = Done a (setWorld w s).
Proof. intros H. unfold onWorld. now rewrite H. Qed.

Lemma render_run (s : State) :
  exists s',
    renderActivatedItems s = Done tt s'
    /\ world s' = world s
    /\ notices s' = notices s
    /\ view s' = viewOf (selectedItems (world s)) (activatedPage s).
Proof.
  unfold renderActivatedItems, viewOf.
  destruct (selectedItems (world s)); eexists; repeat split.
Qed.

(** A state whose view was left by a rendering of its list from a page
    that is at least 1 is settled. *)
Lemma viewOf_settled (s : State) (page : Z) :
  (1 <= page)%Z ->
  view s = viewOf (selectedItems (world s)) page ->
  settled s.
Proof.
  intros Hp Hv. unfold settled, view, viewOf in *.
  destruct (selectedItems (world s)) as [|i items] eqn:E.
  - inversion Hv as [[Ha Hs Hg]]. rewrite Ha.
    split; [exact Hp|]. split; [intros c t H; congruence|].
    split; [intros _; now split | intros H; now elim H].
  - set (n := List.length (i :: items)) in *.
    destruct (totalPagesOf_bounds n) as [[Hlow|Hz] [Hup Hnn]]; [|discriminate Hz].
    assert (Hpos : (1 <= totalPagesOf n)%Z) by (subst n; simpl List.length in *; lia).
    inversion Hv as [[Ha Hs Hg]].
    rewrite Z.max_r in * by lia.
    split; [lia|]. split.
    { intros c t H. destruct (Z.ltb_spec 1 (totalPagesOf n)) as [Hlt|Hge].
      - rewrite Hg in H. inversion H; subst c t. now repeat split.
      - congruence. }
    split; [discriminate|]. intros _. split; [lia|].
    rewrite Hs. apply pageItems_eq. lia.
Qed.

(** In a settled state with entries, some are shown, five at most. *)
Lemma settled_shows (s : State) :
  settled s -> selectedItems (world s) <> [] ->
  shown s <> [] /\ (List.length (shown s) <= 5)%nat.
Proof.
  intros (Hp & _ & _ & H) Hne. destruct (H Hne) as [Hle Hs].
  destruct (totalPagesOf_bounds (List.length (selectedItems (world s))))
    as [[Hlow|Hz] _].
  - rewrite Hs. split.
    + intros E. apply (f_equal (@List.length Item)) in E.
      rewrite length_firstn, length_skipn in E.
      change (List.length (@nil Item)) with 0%nat in E. lia.
    + rewrite length_firstn. lia.
  - apply length_zero_iff_nil in Hz. contradiction.
Qed.

End Managing.

(** X15.  [renderActivatedItems] on a list with entries, from a page that
    is at least 1, brings the page into the pages there are and shows the
    entries of that page: at least one and at most five, those that
    follow the first [5 * (page - 1)] of the list.  The page bar is
    displayed exactly when there is more than one page.  The list and the
    notices are left as they were. *)
Theorem X15_render_shows_a_page (s : Manage.State) :
  (1 <= Manage.activatedPage s)%Z -> selectedItems (Manage.world s) <> [] ->
  exists s',
    Manage.renderActivatedItems s = Manage.Done tt s'
    /\ Manage.world s' = Manage.world s
    /\ (1 <= Manage.activatedPage s' <= Manage.activatedPage s)%Z
    /\ (Manage.activatedPage s'
        <= Manage.totalPagesOf (List.length (selectedItems (Manage.world s))))%Z
    /\ Manage.shown s'
       = firstn 5 (skipn (Z.to_nat (5 * (Manage.activatedPage s' - 1)))
                     (selectedItems (Manage.world s)))
    /\ Manage.shown s' <> []
    /\ (List.length (Manage.shown s') <= 5)%nat
    /\ (Manage.pager s' <> None
        <-> (1 < Manage.totalPagesOf (List.length (selectedItems (Manage.world s))))%Z).
Proof.
  intros Hp Hne.
  destruct (render_run s) as [s' [H [Hw [_ Hv]]]].
  assert (Hset : Manage.settled s')
    by (apply (viewOf_settled s' (Manage.activatedPage s) Hp); now rewrite Hw).
  assert (Hne' : selectedItems (Manage.world s') <> []) by now rewrite Hw.
  destruct (settled_shows s' Hset Hne') as [Hsh Hlen].
  destruct Hset as (Hp' & Hpg & _ & Hit). destruct (Hit Hne') as [Hle Hs].
  rewrite Hw in *.
  exists s'. split; [exact H|]. split; [exact Hw|].
  unfold Manage.view, Manage.viewOf in Hv.
  destruct (selectedItems (Manage.world s)) as [|i items] eqn:E; [now elim Hne|].
  inversion Hv as [[Ha Hs' Hg]].
  split; [rewrite Ha; lia|]. split; [exact Hle|].
  split; [exact Hs|]. split; [exact Hsh|]. split; [exact Hlen|].
  rewrite Hg. simpl List.length.
  destruct (Z.ltb_spec 1 (Manage.totalPagesOf (S (List.length items)))).
  - split; [intros _; assumption | easy].
  - split; [intros X; now elim X | intros X; lia].
Qed.

Lemma X15_render_shows_a_page_witness :
  (1 <= Manage.activatedPage (Scene.listed Scene.two))%Z
  /\ selectedItems (Manage.world (Scene.listed Scene.two)) <> []
  /\ exists s',
       Manage.renderActivatedItems (Scene.listed Scene.two) = Manage.Done tt s'
       /\ Manage.shown s' <> [].
Proof.
  assert (Hp : (1 <= Manage.activatedPage (Scene.listed Scene.two))%Z)
    by (vm_compute; discriminate).
  assert (Hne : selectedItems (Manage.world (Scene.listed Scene.two)) <> [])
    by (vm_compute; discriminate).
  split; [exact Hp|]. split; [exact Hne|].
  destruct (X15_render_shows_a_page (Scene.listed Scene.two) Hp Hne)
    as [s' [H [_ [_ [_ [_ [Hs _]]]]]]].
  exists s'. split; [exact H | exact Hs].
Defined.

(* ================================================================== *)
(** * Deleting *)
(* ================================================================== *)

Section Deleting.

Import Manage.

Lemma hasId_eq (itemId : string) (item : Item) :
  hasId itemId item = true <-> id item = itemId.
Proof. unfold hasId. apply String.eqb_eq. Qed.

Lemma find_hasId (itemId : string) (item : Item) (items : list Item) :
  find (hasId itemId) items = Some item -> In item items /\ id item = itemId.
Proof. intros H. apply find_some in H. now rewrite hasId_eq in H. Qed.

Lemma find_filtered (itemId : string) (items : list Item) :
  find (hasId itemId) (filter (fun i => negb (hasId itemId i)) items) = None.
Proof.
  induction items as [|i items IH]; [reflexivity|]. simpl.
  destruct (hasId itemId i) eqn:E; simpl; [exact IH | now rewrite E].
Qed.

Lemma filter_none (itemId : string) (items : list Item) :
  find (hasId itemId) items = None ->
  filter (fun i => negb (hasId itemId i)) items = items.
Proof.
  induction items as [|i items IH]; [reflexivity|]. simpl.
  destruct (hasId itemId i); [discriminate|]. simpl. intros H. now rewrite IH.
Qed.

(** What [deleteItem] does when the id is that of a selected entry. *)
Lemma deleteItem_found (itemId : string) (item : Item) (s : State) :
  find (hasId itemId) (selectedItems (world s)) = Some item ->
  exists s',
    deleteItem itemId s = Done tt s'
    /\ selectedItems (world s')
       = filter (fun i => negb (hasId itemId i)) (selectedItems (world s))
    /\ promptCalls (world s')
       = promptCalls (world s)
         ++ [mkPromptCall (Obs.promptKey item) ""
               (extension_prompt_types_IN_CHAT (host (world s))) (Js.Num 0) false
               (Js.Num (inject_Z (extension_prompt_roles_SYSTEM (host (world s)))))]
    /\ saveRequests (world s') = S (saveRequests (world s))
    /\ chat (world s') = chat (world s)
    /\ randomCalls (world s') = randomCalls (world s)
    /\ loggerCalls (world s') = loggerCalls (world s)
    /\ console (world s') = console (world s)
    /\ view s' = viewOf (selectedItems (world s')) (activatedPage s)
    /\ notices s'
       = notices s
         ++ [Logged DEBUG (Deleting (name item));
             Logged DEBUG (InjectionCleared (name item));
             Logged INFO (Deleted (name item))]
         ++ (match toastr (world s) with
             | Some _ => [Toasted DeletedToast]
             | None => []
             end).
Proof.
  intros Hf. unfold deleteItem. rewrite Hf.
  unfold andThen, log, note, onWorld, clearPrompt, setItems, notify, setWorld,
    renderActivatedItems, view, viewOf, Obs.promptKey.
  unfold bind, gets, modify, setExtensionPrompt, saveSelectedItems, saveSettingsDebounced.
  simpl.
  destruct (filter (fun i => negb (hasId itemId i)) (selectedItems (world s)));
    destruct (toastr (world s)) eqn:T; simpl; rewrite ?T; unfold note; simpl;
    (eexists; split; [reflexivity|]);
    simpl; rewrite <- ?app_assoc; simpl; repeat split.
Qed.

Lemma deleteItem_missing (itemId : string) (s : State) :
  find (hasId itemId) (selectedItems (world s)) = None ->
  deleteItem itemId s
  = Done tt (mkState (world s) (activatedPage s) (shown s) (pager s)
               (notices s ++ [Logged WARN (ItemMissing DeleteItem itemId)])).
Proof. intros Hf. unfold deleteItem. now rewrite Hf. Qed.

End Deleting.

(** X16.  [deleteItem] with the id of a selected entry removes every
    entry of that id and keeps the others in their order; the sink gets
    exactly one call, which clears the key of the entry found; one save
    of the settings is requested; the chat and the draw counter are left
    alone.  With an id that no selected entry has, the world is left as
    it was and the logger is warned. *)
Theorem X16_deleteItem (itemId : string) (s : Manage.State) :
  exists s',
    Manage.deleteItem itemId s = Manage.Done tt s'
    /\ selectedItems (Manage.world s')
       = filter (fun i => negb (String.eqb (id i) itemId)) (selectedItems (Manage.world s))
    /\ (forall i, In i (selectedItems (Manage.world s')) -> id i <> itemId)
    /\ chat (Manage.world s') = chat (Manage.world s)
    /\ randomCalls (Manage.world s') = randomCalls (Manage.world s)
    /\ match find (Manage.hasId itemId) (selectedItems (Manage.world s)) with
       | Some item =>
           exists call,
             promptCalls (Manage.world s') = promptCalls (Manage.world s) ++ [call]
             /\ prompt_key call = ("paws_wi_" ++ id item)%string
             /\ Obs.clears (host (Manage.world s)) call
             /\ saveRequests (Manage.world s') = S (saveRequests (Manage.world s))
       | None =>
           Manage.world s' = Manage.world s
           /\ Manage.view s' = Manage.view s
           /\ Manage.notices s'
              = Manage.notices s
                ++ [Manage.Logged WARN (Manage.ItemMissing Manage.DeleteItem itemId)]
       end.
Proof.
  assert (Hnot : forall l i,
             In i (filter (fun i => negb (Manage.hasId itemId i)) l) -> id i <> itemId).
  { intros l i Hin. apply filter_In in Hin. destruct Hin as [_ Hn].
    apply negb_true_iff in Hn. intros E. apply hasId_eq in E. congruence. }
  destruct (find (Manage.hasId itemId) (selectedItems (Manage.world s))) as [item|] eqn:Hf.
  - destruct (deleteItem_found itemId item s Hf)
      as [s' [H [S [P [V [Ch [R _]]]]]]].
    exists s'. split; [exact H|]. split; [exact S|].
    split; [rewrite S; apply Hnot|]. split; [exact Ch|]. split; [exact R|].
    eexists. split; [exact P|]. split; [reflexivity|]. split; [repeat split | exact V].
  - rewrite (deleteItem_missing itemId s Hf). eexists. split; [reflexivity|].
    simpl. split; [symmetry; now apply filter_none|].
    split; [rewrite <- (filter_none itemId _ Hf); apply Hnot|].
    repeat split.
Qed.

Lemma X16_deleteItem_witness :
  exists s',
    Manage.deleteItem "book_1_0" (Scene.listed Scene.two) = Manage.Done tt s'
    /\ map id (selectedItems (Manage.world s')) = ["book_2_0"]%string.
Proof.
  destruct (X16_deleteItem "book_1_0" (Scene.listed Scene.two)) as [s' [H [Hi _]]].
  exists s'. split; [exact H|]. rewrite Hi. reflexivity.
Defined.

(** X17.  Deleting is idempotent: once [deleteItem] has returned for an
    id, a further [deleteItem] for that id leaves the world as it is. *)
Theorem X17_deleteItem_twice (itemId : string) (s s1 : Manage.State) :
  Manage.deleteItem itemId s = Manage.Done tt s1 ->
  exists s2,
    Manage.deleteItem itemId s1 = Manage.Done tt s2
    /\ Manage.world s2 = Manage.world s1
    /\ Manage.view s2 = Manage.view s1.
Proof.
  intros H1.
  assert (Hf1 : find (Manage.hasId itemId) (selectedItems (Manage.world s1)) = None).
  { destruct (find (Manage.hasId itemId) (selectedItems (Manage.world s))) as [item|] eqn:Hf.
    - destruct (deleteItem_found itemId item s Hf) as [s' [H [S _]]].
      rewrite H in H1. inversion H1; subst. rewrite S. apply find_filtered.
    - rewrite (deleteItem_missing itemId s Hf) in H1. inversion H1; subst. exact Hf. }
  rewrite (deleteItem_missing itemId s1 Hf1). eexists. repeat split.
Qed.

Lemma X17_deleteItem_twice_witness :
  exists s2,
    Manage.deleteItem "book_1_0"
      (Manage.final (Manage.deleteItem "book_1_0" (Scene.listed Scene.two)))
    = Manage.Done tt s2
    /\ Manage.world s2
       = Manage.world (Manage.final (Manage.deleteItem "book_1_0" (Scene.listed Scene.two)))
    /\ Manage.view s2
       = Manage.view (Manage.final (Manage.deleteItem "book_1_0" (Scene.listed Scene.two))).
Proof.
  apply (X17_deleteItem_twice "book_1_0" (Scene.listed Scene.two)).
  vm_compute. reflexivity.
Defined.

Section AddThenDelete.

Import Manage.

Lemma find_last (itemId : string) (items : list Item) (item : Item) :
  (forall i, In i items -> id i <> itemId) -> id item = itemId ->
  find (hasId itemId) (items ++ [item]) = Some item
  /\ filter (fun i => negb (hasId itemId i)) (items ++ [item]) = items.
Proof.
  intros Hno Hid. induction items as [|i items IH]; simpl.
  - apply hasId_eq in Hid. now rewrite Hid.
  - assert (E : hasId itemId i = false).
    { destruct (hasId itemId i) eqn:E; [|reflexivity].
      apply hasId_eq in E. elim (Hno i); [now left | exact E]. }
    rewrite E. simpl.
    destruct IH as [IH1 IH2]; [intros j Hj; apply Hno; now right|].
    split; [exact IH1 | now rewrite IH2].
Qed.

End AddThenDelete.

(** X18.  Deleting undoes adding: when [addSingleEntry] adds an entry
    whose new id no selected entry has, [deleteItem] with that id gives
    back the list of selected entries as it was before the entry was
    added. *)
Theorem X18_delete_undoes_add
  (world : string) (u : Z) (e : EntryData) (s : Manage.State) :
  alreadySelected world u (selectedItems (Manage.world s)) = false ->
  (forall i, In i (selectedItems (Manage.world s)) ->
             id i <> (world ++ "_" ++ Js.showInt u ++ "_"
                        ++ Js.showInt (clock (Manage.world s)))%string) ->
  exists w1 s2,
    addSingleEntry world u (Some e) (Manage.world s) = Returned tt w1
    /\ Manage.deleteItem
         (world ++ "_" ++ Js.showInt u ++ "_" ++ Js.showInt (clock (Manage.world s)))%string
         (Manage.setWorld w1 s)
       = Manage.Done tt s2
    /\ selectedItems (Manage.world s2) = selectedItems (Manage.world s).
Proof.
  intros Hnew Hfresh.
  destruct (addSingleEntry_added world u e (Manage.world s) Hnew)
    as [w1 [calls [H [S _]]]].
  set (item := newItem (world_info_position_atDepth (host (Manage.world s)))
                 (clock (Manage.world s)) world u e) in *.
  destruct (find_last _ (selectedItems (Manage.world s)) item Hfresh eq_refl)
    as [Hf Hfil].
  assert (Hf' : find (Manage.hasId (id item))
                  (selectedItems (Manage.world (Manage.setWorld w1 s))) = Some item)
    by (simpl; now rewrite S).
  destruct (deleteItem_found (id item) item (Manage.setWorld w1 s) Hf')
    as [s2 [H2 [S2 _]]].
  exists w1, s2. split; [exact H|]. split; [exact H2|].
  rewrite S2. simpl Manage.world. rewrite S. exact Hfil.
Qed.

Lemma X18_delete_undoes_add_witness :
  exists w1 s2,
    addSingleEntry "book" 7 (Some (Sample.hostEntry (Js.Num 50) None))
      (Manage.world (Scene.listed Scene.two)) = Returned tt w1
    /\ Manage.deleteItem "book_7_1700000000000"
         (Manage.setWorld w1 (Scene.listed Scene.two))
       = Manage.Done tt s2
    /\ selectedItems (Manage.world s2) = Scene.two.
Proof.
  apply (X18_delete_undoes_add "book" 7 (Sample.hostEntry (Js.Num 50) None)
           (Scene.listed Scene.two)).
  - reflexivity.
  - intros i [<-|[<-|[]]]; discriminate.
Defined.

(* ================================================================== *)
(** * Toggling, editing, clearing *)
(* ================================================================== *)

Section Committing.

Import Manage.

(** The steps that [toggleItem] and [editItem] share once the entry has
    been changed: save, render, write the entry to the sink. *)
Lemma commit_run (item' : Item) (k : unit -> C unit) (s1 : State) :
  exists s4 call,
    andThen (onWorld saveSelectedItems)
      (fun _ => andThen renderActivatedItems
         (fun _ => andThen (onWorld (updateItemPrompt item')) k)) s1
    = k tt s4
    /\ selectedItems (world s4) = selectedItems (world s1)
    /\ promptCalls (world s4) = promptCalls (world s1) ++ [call]
    /\ Obs.Delivers (host (world s1)) item' call
    /\ saveRequests (world s4) = S (saveRequests (world s1))
    /\ randomCalls (world s4)
       = randomCalls (world s1) + (if Obs.drawsOne item' then 1 else 0)
    /\ chat (world s4) = chat (world s1)
    /\ console (world s4) = console (world s1)
    /\ toastr (world s4) = toastr (world s1)
    /\ host (world s4) = host (world s1)
    /\ view s4 = viewOf (selectedItems (world s1)) (activatedPage s1)
    /\ notices s4 = notices s1.
Proof.
  set (s2 := setWorld (set_saveRequests (S (saveRequests (world s1))) (world s1)) s1).
  rewrite (andThen_Done _ _ _ _ s1 s2 tt) by reflexivity.
  destruct (render_run s2) as [s3 [H3 [W3 [N3 V3]]]].
  rewrite (andThen_Done _ _ _ _ s2 s3 tt H3).
  destruct (updateItemPrompt_step item' (world s3)) as [w4 [call [H4 [P4 [D4 [R4 K4]]]]]].
  rewrite (andThen_Done _ _ _ _ s3 (setWorld w4 s3) tt (onWorld_Returned _ _ _ _ _ H4)).
  rewrite W3 in *.
  destruct K4 as (A & B & _ & _ & E & F & G & I).
  exists (setWorld w4 s3), call. split; [reflexivity|].
  subst s2. simpl in *.
  split; [exact A|]. split; [exact P4|]. split; [exact D4|].
  split; [now rewrite F|]. split; [exact R4|]. split; [exact B|].
  split; [exact E|]. split; [exact G|]. split; [exact I|].
  split; [exact V3 | exact N3].
Qed.

Lemma updateFirst_length (A : Type) (p : A -> bool) (f : A -> A) (l : list A) :
  List.length (Arr.updateFirst p f l) = List.length l.
Proof.
  induction l as [|a l IH]; [reflexivity|]. simpl.
  destruct (p a); simpl; [reflexivity | now rewrite IH].
Qed.

Lemma updateFirst_ids (itemId : string) (item' : Item) (l : list Item) :
  id item' = itemId ->
  map id (Arr.updateFirst (hasId itemId) (fun _ => item') l) = map id l.
Proof.
  intros Hid. induction l as [|a l IH]; [reflexivity|]. simpl.
  destruct (hasId itemId a) eqn:E; simpl; [|now rewrite IH].
  apply hasId_eq in E. now rewrite Hid, E.
Qed.

Lemma updateFirst_find (itemId : string) (item item' : Item) (l : list Item) :
  find (hasId itemId) l = Some item -> id item' = itemId ->
  find (hasId itemId) (Arr.updateFirst (hasId itemId) (fun _ => item') l) = Some item'.
Proof.
  intros Hf Hid. apply hasId_eq in Hid.
  induction l as [|a l IH]; [discriminate|]. simpl in *.
  destruct (hasId itemId a) eqn:E; simpl.
  - now rewrite Hid.
  - rewrite E. now apply IH.
Qed.

Lemma updateFirst_back (itemId : string) (item item' : Item) (l : list Item) :
  find (hasId itemId) l = Some item -> id item' = itemId ->
  Arr.updateFirst (hasId itemId) (fun _ => item)
    (Arr.updateFirst (hasId itemId) (fun _ => item') l) = l.
Proof.
  intros Hf Hid. apply hasId_eq in Hid.
  induction l as [|a l IH]; [reflexivity|]. simpl in *.
  destruct (hasId itemId a) eqn:E; simpl.
  - rewrite Hid. now inversion Hf.
  - rewrite E. now rewrite IH.
Qed.

Lemma updateFirst_nil (A : Type) (p : A -> bool) (f : A -> A) (l : list A) :
  Arr.updateFirst p f l = [] <-> l = [].
Proof. destruct l as [|a l]; simpl; [tauto|]. destruct (p a); split; discriminate. Qed.

Lemma withEnabled_back (item : Item) :
  withEnabled (negb (enabled (withEnabled (negb (enabled item)) item)))
    (withEnabled (negb (enabled item)) item) = item.
Proof. destruct item. unfold withEnabled. simpl. now rewrite negb_involutive. Qed.

(** What [toggleItem] does when the id is that of a selected entry. *)
Lemma toggleItem_found (itemId : string) (item : Item) (s : State) :
  find (hasId itemId) (selectedItems (world s)) = Some item ->
  exists s' call,
    toggleItem itemId s = Done tt s'
    /\ selectedItems (world s')
       = Arr.updateFirst (hasId itemId)
           (fun _ => withEnabled (negb (enabled item)) item) (selectedItems (world s))
    /\ promptCalls (world s') = promptCalls (world s) ++ [call]
    /\ Obs.Delivers (host (world s)) (withEnabled (negb (enabled item)) item) call
    /\ saveRequests (world s') = S (saveRequests (world s))
    /\ randomCalls (world s')
       = randomCalls (world s)
         + (if Obs.drawsOne (withEnabled (negb (enabled item)) item) then 1 else 0)
    /\ chat (world s') = chat (world s)
    /\ console (world s') = console (world s)
    /\ view s' = viewOf (selectedItems (world s')) (activatedPage s).
Proof.
  intros Hf. unfold toggleItem. rewrite Hf.
  set (item' := withEnabled (negb (enabled item)) item).
  set (L := Arr.updateFirst (hasId itemId) (fun _ => item') (selectedItems (world s))).
  set (s1 := setWorld (set_selectedItems L (world s)) s).
  rewrite (andThen_Done _ _ _ _ s s1 tt) by reflexivity.
  destruct (commit_run item' (fun _ => log INFO (Toggled (name item') (enabled item'))) s1)
    as [s4 [call [H [S4 [P4 [D4 [V4 [R4 [C4 [O4 [_ [_ [W4 _]]]]]]]]]]]]].
  rewrite H. eexists _, call. split; [reflexivity|].
  simpl. rewrite S4.
  split; [reflexivity|]. split; [exact P4|]. split; [exact D4|].
  split; [exact V4|]. split; [exact R4|]. split; [exact C4|].
  split; [exact O4 | exact W4].
Qed.

Lemma toggleItem_missing (itemId : string) (s : State) :
  find (hasId itemId) (selectedItems (world s)) = None ->
  toggleItem itemId s
  = Done tt (mkState (world s) (activatedPage s) (shown s) (pager s)
               (notices s ++ [Logged WARN (ItemMissing ToggleItem itemId)])).
Proof. intros Hf. unfold toggleItem. now rewrite Hf. Qed.

End Committing.

(** X19.  [toggleItem] with the id of a selected entry flips the switch
    of the first entry of that id and changes nothing else in the list:
    as many entries, the same ids in the same order.  The sink gets
    exactly one call, under that entry's key; it clears the key when the
    entry has been switched off, without any draw.  One save of the
    settings is requested. *)
Theorem X19_toggleItem (itemId : string) (item : Item) (s : Manage.State) :
  find (Manage.hasId itemId) (selectedItems (Manage.world s)) = Some item ->
  exists s' call,
    Manage.toggleItem itemId s = Manage.Done tt s'
    /\ selectedItems (Manage.world s')
       = Arr.updateFirst (fun i => String.eqb (id i) itemId)
           (fun i => Manage.withEnabled (negb (enabled item)) item)
           (selectedItems (Manage.world s))
    /\ List.length (selectedItems (Manage.world s'))
       = List.length (selectedItems (Manage.world s))
    /\ map id (selectedItems (Manage.world s')) = map id (selectedItems (Manage.world s))
    /\ promptCalls (Manage.world s') = promptCalls (Manage.world s) ++ [call]
    /\ prompt_key call = ("paws_wi_" ++ id item)%string
    /\ (enabled item = true ->
        Obs.clears (host (Manage.world s)) call
        /\ randomCalls (Manage.world s') = randomCalls (Manage.world s))
    /\ saveRequests (Manage.world s') = S (saveRequests (Manage.world s))
    /\ chat (Manage.world s') = chat (Manage.world s).
Proof.
  intros Hf.
  destruct (toggleItem_found itemId item s Hf)
    as [s' [call [H [S [P [D [V [R [C _]]]]]]]]].
  exists s', call. split; [exact H|]. split; [exact S|].
  split; [rewrite S; apply updateFirst_length|].
  split; [rewrite S; apply updateFirst_ids; now apply find_hasId in Hf|].
  split; [exact P|]. destruct D as (K & _ & _ & _ & Off & _).
  split; [exact K|]. split; [|split; assumption].
  intros En. split.
  - apply Off. simpl. now rewrite En.
  - rewrite R. unfold Obs.drawsOne. simpl. rewrite En. simpl. lia.
Qed.

Lemma X19_toggleItem_witness :
  exists s' call,
    Manage.toggleItem "book_2_0" (Scene.listed Scene.two) = Manage.Done tt s'
    /\ List.length (selectedItems (Manage.world s')) = 2
    /\ promptCalls (Manage.world s') = [call]
    /\ prompt_key call = "paws_wi_book_2_0"%string
    /\ prompt_value call = ""%string.
Proof.
  destruct (X19_toggleItem "book_2_0" (Sample.flagged true false ["dog"])
              (Scene.listed Scene.two) eq_refl)
    as [s' [call [H [_ [L [_ [P [K [Off _]]]]]]]]].
  exists s', call. split; [exact H|]. split; [exact L|]. split; [exact P|].
  split; [exact K|]. apply (Off eq_refl).
Defined.

(** X20.  Toggling twice gives the list back: after two [toggleItem]
    with the id of a selected entry, the list of selected entries is as
    it was. *)
Theorem X20_toggleItem_twice (itemId : string) (item : Item) (s : Manage.State) :
  find (Manage.hasId itemId) (selectedItems (Manage.world s)) = Some item ->
  exists s1 s2,
    Manage.toggleItem itemId s = Manage.Done tt s1
    /\ Manage.toggleItem itemId s1 = Manage.Done tt s2
    /\ selectedItems (Manage.world s2) = selectedItems (Manage.world s).
Proof.
  intros Hf.
  destruct (toggleItem_found itemId item s Hf) as [s1 [c1 [H1 [S1 _]]]].
  set (item' := Manage.withEnabled (negb (enabled item)) item) in *.
  assert (Hid : id item' = itemId) by (now apply find_hasId in Hf).
  assert (Hf1 : find (Manage.hasId itemId) (selectedItems (Manage.world s1)) = Some item')
    by (rewrite S1; now apply (updateFirst_find itemId item)).
  destruct (toggleItem_found itemId item' s1 Hf1) as [s2 [c2 [H2 [S2 _]]]].
  exists s1, s2. split; [exact H1|]. split; [exact H2|].
  rewrite S2, S1. subst item'. rewrite withEnabled_back.
  apply (updateFirst_back itemId item); [exact Hf | exact Hid].
Qed.

Lemma X20_toggleItem_twice_witness :
  exists s1 s2,
    Manage.toggleItem "book_1_0" (Scene.listed Scene.two) = Manage.Done tt s1
    /\ Manage.toggleItem "book_1_0" s1 = Manage.Done tt s2
    /\ selectedItems (Manage.world s2) = selectedItems (Manage.world (Scene.listed Scene.two)).
Proof.
  apply (X20_toggleItem_twice "book_1_0"
           (Sample.entry ["cat"] [] (Js.Num 100) None false false)
           (Scene.listed Scene.two)).
  reflexivity.
Defined.

Section Clearing.

Import Manage.

Lemma set_promptCalls_same (w : World) : set_promptCalls (promptCalls w) w = w.
Proof. now destruct w. Qed.

Lemma forEach_clearPrompt (items : list Item) (w : World) :
  forEach clearPrompt items w
  = Returned tt
      (set_promptCalls (promptCalls w ++ map (Obs.clearCall (host w)) items) w).
Proof.
  revert w; induction items as [|i items IH]; intros w.
  - simpl. now rewrite app_nil_r, set_promptCalls_same.
  - simpl forEach.
    rewrite (bind_Returned _ _ _ _ w
               (set_promptCalls (promptCalls w ++ [Obs.clearCall (host w) i]) w) tt)
      by reflexivity.
    rewrite IH. simpl. now rewrite <- app_assoc.
Qed.

End Clearing.

(** X21.  [clearAllItems], when the user confirms, clears the key of
    every selected entry, in the order of the list, and empties the list;
    with entries to clear it requests one save and shows none.  When the
    user declines, the world and the view are left as they were. *)
Theorem X21_clearAllItems (confirmed : bool) (s : Manage.State) :
  exists s',
    Manage.clearAllItems confirmed s = Manage.Done tt s'
    /\ (confirmed = true ->
        selectedItems (Manage.world s') = []
        /\ promptCalls (Manage.world s')
           = promptCalls (Manage.world s)
             ++ map (Obs.clearCall (host (Manage.world s))) (selectedItems (Manage.world s))
        /\ chat (Manage.world s') = chat (Manage.world s)
        /\ randomCalls (Manage.world s') = randomCalls (Manage.world s)
        /\ (selectedItems (Manage.world s) <> [] ->
            saveRequests (Manage.world s') = S (saveRequests (Manage.world s))
            /\ Manage.shown s' = [] /\ Manage.pager s' = None))
    /\ (confirmed = false ->
        Manage.world s' = Manage.world s /\ Manage.view s' = Manage.view s).
Proof.
  unfold Manage.clearAllItems.
  destruct (selectedItems (Manage.world s)) as [|i items] eqn:E.
  - eexists. split; [reflexivity|]. simpl. split.
    + intros _. rewrite E, app_nil_r.
      do 4 (split; [reflexivity|]). intros X; now elim X.
    + intros _. now split.
  - destruct confirmed.
    + unfold Manage.andThen at 1. unfold Manage.log at 1, Manage.note at 1.
      set (s1 := Manage.mkState _ _ _ _ _).
      rewrite (andThen_Done _ _ _ _ s1 _ tt
                 (onWorld_Returned _ _ s1 tt _ (forEach_clearPrompt (i :: items) _))).
      unfold Manage.andThen, Manage.log, Manage.note, Manage.setItems, Manage.onWorld,
        Manage.renderActivatedItems, Manage.notify, Manage.setWorld.
      unfold modify, saveSelectedItems, saveSettingsDebounced. simpl.
      destruct (toastr (Manage.world s)) eqn:T; simpl; rewrite ?T;
        (eexists; split; [reflexivity|]); simpl;
        (split; [intros _; do 4 (split; [reflexivity|]); intros _; repeat split
                | discriminate]).
    + eexists. split; [reflexivity|]. simpl. split; [discriminate|].
      intros _. now split.
Qed.

Lemma X21_clearAllItems_witness :
  exists s',
    Manage.clearAllItems true (Scene.listed Scene.two) = Manage.Done tt s'
    /\ selectedItems (Manage.world s') = []
    /\ map prompt_key (promptCalls (Manage.world s'))
       = ["paws_wi_book_1_0"; "paws_wi_book_2_0"]%string.
Proof.
  destruct (X21_clearAllItems true (Scene.listed Scene.two)) as [s' [H [Hyes _]]].
  destruct (Hyes eq_refl) as [S [P _]].
  exists s'. split; [exact H|]. split; [exact S|]. rewrite P. reflexivity.
Defined.

(* ================================================================== *)
(** * Editing *)
(* ================================================================== *)

Section Editing.

Import Manage.

(** What [editItem] does when the id is that of a selected entry and the
    popup is closed with its save button. *)
Lemma editItem_saved (itemId : string) (item : Item) (form : EditForm) (s : State) :
  find (hasId itemId) (selectedItems (world s)) = Some item ->
  exists s' call,
    editItem itemId true form s = Done tt s'
    /\ selectedItems (world s')
       = Arr.updateFirst (hasId itemId)
           (fun _ => applyForm (world_info_position_atDepth (host (world s))) form item)
           (selectedItems (world s))
    /\ promptCalls (world s') = promptCalls (world s) ++ [call]
    /\ Obs.Delivers (host (world s))
         (applyForm (world_info_position_atDepth (host (world s))) form item) call
    /\ saveRequests (world s') = S (saveRequests (world s))
    /\ chat (world s') = chat (world s)
    /\ console (world s') = console (world s)
    /\ view s' = viewOf (selectedItems (world s')) (activatedPage s).
Proof.
  intros Hf. unfold editItem. rewrite Hf.
  set (item' := applyForm _ form item).
  set (L := Arr.updateFirst (hasId itemId) (fun _ => item') (selectedItems (world s))).
  set (s0 := mkState (world s) (activatedPage s) (shown s) (pager s)
               (notices s ++ [Logged DEBUG (Editing (name item))])).
  rewrite (andThen_Done _ _ _ _ s s0 tt) by reflexivity.
  set (s1 := setWorld (set_selectedItems L (world s)) s0).
  rewrite (andThen_Done _ _ _ _ s0 s1 tt) by reflexivity.
  destruct (commit_run item'
              (fun _ => andThen (notify (SavedToast (name item')))
                          (fun _ => log INFO (Edited (name item')))) s1)
    as [s4 [call [H [S4 [P4 [D4 [V4 [_ [C4 [O4 [_ [_ [W4 _]]]]]]]]]]]]].
  rewrite H. unfold andThen, notify, log, note.
  destruct (toastr (world s4)); (eexists _, call; split; [reflexivity|]);
    simpl; rewrite S4;
    (split; [reflexivity|]); (split; [exact P4|]); (split; [exact D4|]);
    (split; [exact V4|]); (split; [exact C4|]); (split; [exact O4 | exact W4]).
Qed.

Lemma editItem_unsaved (itemId : string) (form : EditForm) (s : State) :
  exists s',
    editItem itemId false form s = Done tt s'
    /\ world s' = world s /\ view s' = view s.
Proof.
  unfold editItem.
  destruct (find (hasId itemId) (selectedItems (world s))); eexists; repeat split.
Qed.

Lemma editItem_missing (itemId : string) (saved : bool) (form : EditForm) (s : State) :
  find (hasId itemId) (selectedItems (world s)) = None ->
  editItem itemId saved form s
  = Done tt (mkState (world s) (activatedPage s) (shown s) (pager s)
               (notices s ++ [Logged WARN (ItemMissing EditItem itemId)])).
Proof. intros Hf. unfold editItem. now rewrite Hf. Qed.

Lemma orInt_nonzero (v : option Z) (d : Z) : d <> 0%Z -> Js.orInt v d <> 0%Z.
Proof.
  intros Hd. unfold Js.orInt. destruct v as [z|]; [|exact Hd].
  destruct (Z.eqb_spec z 0); assumption.
Qed.

Lemma orInt_storedFrom (field : string) (d : Z) (holds : Z -> Prop) :
  holds (Js.orInt (Text.parseInt field) d) -> storedFrom field d holds.
Proof.
  intros H. split.
  - intros [E|E]; rewrite E in H; exact H.
  - intros z E Hz _. rewrite E in H. unfold Js.orInt in H.
    destruct (Z.eqb_spec z 0); [contradiction | exact H].
Qed.

End Editing.

(** X22.  [editItem] with the id of a selected entry, closed with save,
    rewrites the first entry of that id from the form and changes no
    other entry.  The entry keeps its id, name, switch, origin, disable
    flag and whole-word flag.  Its content is the content field; it is
    constant exactly when the constant field is [true]; its keyword lists
    are the keyword fields split at the commas, trimmed, and without the
    empty pieces; its case flag is the check box; its position is
    [atDepth]; its role is kept, or 0 when it was undefined.  Its scan
    depth, probability, depth and order are the integers read from their
    fields, for integers that a number holds exactly, and the defaults
    10, 100, 4 and 100 when a field does not parse or parses to 0; the
    scan depth and the probability are never 0.  The sink gets one call,
    which serves the rewritten entry under its key, and one save is
    requested.  Closed without save, or with an id that no entry has, it
    leaves the world as it was. *)
Theorem X22_editItem (itemId : string) (form : Manage.EditForm) (s : Manage.State) :
  (forall item,
      find (Manage.hasId itemId) (selectedItems (Manage.world s)) = Some item ->
      exists s' item' call,
        Manage.editItem itemId true form s = Manage.Done tt s'
        /\ selectedItems (Manage.world s')
           = Arr.updateFirst (fun i => String.eqb (id i) itemId) (fun _ => item')
               (selectedItems (Manage.world s))
        /\ map id (selectedItems (Manage.world s')) = map id (selectedItems (Manage.world s))
        /\ (id item', name item', enabled item', worldName item', uid item')
           = (id item, name item, enabled item, worldName item, uid item)
        /\ (disable item', match_whole_words item')
           = (disable item, match_whole_words item)
        /\ content item' = Manage.f_content form
        /\ constant item' = String.eqb (Manage.f_constant form) "true"
        /\ key item' = Some (Text.parseKeys (Manage.f_key form))
        /\ keysecondary item' = Some (Text.parseKeys (Manage.f_keysecondary form))
        /\ case_sensitive item' = Manage.f_case_sensitive form
        /\ position item' = world_info_position_atDepth (host (Manage.world s))
        /\ role item' = match role item with Js.Undefined => Js.Num 0 | r => r end
        /\ Manage.storedFrom (Manage.f_scan_depth form) 10
             (fun v => scan_depth item' = Some v)
        /\ Manage.storedFrom (Manage.f_probability form) 100
             (fun v => probability item' = Js.Num (inject_Z v))
        /\ Manage.storedFrom (Manage.f_depth form) 4
             (fun v => depth item' = Js.Num (inject_Z v))
        /\ Manage.storedFrom (Manage.f_order form) 100
             (fun v => order item' = Js.Num (inject_Z v))
        /\ scan_depth item' <> Some 0%Z
        /\ (forall q, probability item' = Js.Num q -> ~ (q == 0)%Q)
        /\ promptCalls (Manage.world s') = promptCalls (Manage.world s) ++ [call]
        /\ Obs.Delivers (host (Manage.world s)) item' call
        /\ prompt_key call = ("paws_wi_" ++ id item)%string
        /\ saveRequests (Manage.world s') = S (saveRequests (Manage.world s)))
  /\ (exists s',
        Manage.editItem itemId false form s = Manage.Done tt s'
        /\ Manage.world s' = Manage.world s)
  /\ (find (Manage.hasId itemId) (selectedItems (Manage.world s)) = None ->
      forall saved, Manage.world (Manage.final (Manage.editItem itemId saved form s))
                    = Manage.world s).
Proof.
  split; [|split].
  - intros item Hf.
    destruct (editItem_saved itemId item form s Hf)
      as [s' [call [H [S [P [D [V _]]]]]]].
    set (item' := Manage.applyForm _ form item) in *.
    exists s', item', call.
    split; [exact H|]. split; [exact S|].
    split; [rewrite S; apply updateFirst_ids; now apply find_hasId in Hf|].
    do 9 (split; [reflexivity|]).
    do 4 (split; [apply orInt_storedFrom; reflexivity|]).
    split.
    { simpl. intros E. inversion E as [E'].
      now apply (orInt_nonzero (Text.parseInt (Manage.f_scan_depth form)) 10). }
    split.
    { simpl. intros q E. inversion E; subst q. unfold Qeq; simpl. rewrite Z.mul_1_r.
      now apply (orInt_nonzero (Text.parseInt (Manage.f_probability form)) 100). }
    split; [exact P|]. split; [exact D|]. split; [apply D | exact V].
  - destruct (editItem_unsaved itemId form s) as [s' [H [W _]]]. now exists s'.
  - intros Hf saved. now rewrite (editItem_missing itemId saved form s Hf).
Qed.

Lemma X22_editItem_witness :
  exists s' item',
    Manage.editItem "book_1_0" true Scene.form (Scene.listed Scene.two) = Manage.Done tt s'
    /\ nth_error (selectedItems (Manage.world s')) 0 = Some item'
    /\ content item' = "new text"%string
    /\ key item' = Some ["cat"; "dog"]%string
    /\ probability item' = Js.Num 100
    /\ scan_depth item' = Some 10%Z
    /\ depth item' = Js.Num 2.
Proof.
  destruct (proj1 (X22_editItem "book_1_0" Scene.form (Scene.listed Scene.two))
              (Sample.entry ["cat"] [] (Js.Num 100) None false false) eq_refl)
    as (s' & item' & call & H & S & _ & _ & _ & C & _ & K & _ & _ & _ & _ & SD & PR & DP & _).
  exists s', item'.
  split; [exact H|]. split; [rewrite S; reflexivity|].
  split; [exact C|]. split; [exact K|].
  split; [apply (proj1 PR); left; reflexivity|].
  split; [apply (proj1 SD); right; reflexivity|].
  apply (proj2 DP 2%Z); [reflexivity | discriminate | simpl; lia].
Defined.

(* ================================================================== *)
(** * The keywords of the edit form *)
(* ================================================================== *)

Section Keywords.

Import Text.
Local Open Scope string_scope.

Lemma nonEmpty_true (s : string) : nonEmpty s = true <-> s <> "".
Proof. destruct s; simpl; split; intros H; try discriminate; auto. Qed.

Lemma In_trimStart (c : ascii) (s : string) :
  In c (list_ascii_of_string (trimStart s)) -> In c (list_ascii_of_string s).
Proof.
  induction s as [|d s IH]; simpl; [trivial|].
  destruct (isWhiteSpace d); [intros H; right; now apply IH | trivial].
Qed.

Lemma In_trimEnd (c : ascii) (s : string) :
  In c (list_ascii_of_string (trimEnd s)) -> In c (list_ascii_of_string s).
Proof.
  induction s as [|d s IH]; simpl; [trivial|].
  destruct (trimEnd s) as [|e t].
  - destruct (isWhiteSpace d); simpl; [intros [] | intros [H|[]]; now left].
  - simpl. intros [H|H]; [now left | right; apply IH; exact H].
Qed.

Lemma split_pieces (sep : ascii) (s piece : string) :
  In piece (split sep s) -> ~ In sep (list_ascii_of_string piece).
Proof.
  revert piece; induction s as [|c s IH]; intros piece; simpl.
  - intros [<-|[]]. intros [].
  - destruct (Ascii.eqb_spec c sep) as [->|Hne].
    + intros [<-|H]; [intros [] | now apply IH].
    + destruct (split sep s) as [|p ps] eqn:E.
      * intros [<-|[]]. simpl. intros [H|[]]. congruence.
      * intros [<-|H].
        -- simpl. intros [H|H]; [congruence|]. apply (IH p); [now left | exact H].
        -- apply IH. now right.
Qed.

Lemma firstChar_trimStart (s : string) (c : ascii) :
  Str.firstChar (trimStart s) = Some c -> isWhiteSpace c = false.
Proof.
  induction s as [|d s IH]; simpl; [discriminate|].
  destruct (isWhiteSpace d) eqn:E; [exact IH|].
  simpl. intros H. inversion H; subst. exact E.
Qed.

Lemma firstChar_trimEnd (s : string) :
  trimEnd s <> "" -> Str.firstChar (trimEnd s) = Str.firstChar s.
Proof.
  destruct s as [|d s]; simpl; [trivial|].
  destruct (trimEnd s); [|trivial].
  destruct (isWhiteSpace d); [intros H; now elim H | trivial].
Qed.

Lemma lastChar_trimEnd (s : string) (c : ascii) :
  Str.lastChar (trimEnd s) = Some c -> isWhiteSpace c = false.
Proof.
  induction s as [|d s IH]; simpl; [discriminate|].
  destruct (trimEnd s) as [|e t] eqn:E.
  - destruct (isWhiteSpace d) eqn:W; simpl; [discriminate|].
    intros H. inversion H; subst. exact W.
  - change (Str.lastChar (String d (String e t))) with (Str.lastChar (String e t)).
    exact IH.
Qed.

(** Every keyword the form yields is clean. *)
Lemma parseKeys_clean (input k : string) : In k (parseKeys input) -> clean k.
Proof.
  unfold parseKeys. intros H. apply filter_In in H. destruct H as [H Hne].
  apply nonEmpty_true in Hne. apply in_map_iff in H. destruct H as [piece [<- Hp]].
  unfold clean. split; [exact Hne|]. split; [|split].
  - intros Hc. apply (split_pieces "," input piece Hp).
    unfold trim in Hc. now apply In_trimStart, In_trimEnd.
  - intros c Hc. unfold trim in *. rewrite firstChar_trimEnd in Hc by exact Hne.
    now apply firstChar_trimStart in Hc.
  - intros c. unfold trim. apply lastChar_trimEnd.
Qed.

Lemma split_at (sep : ascii) (a b : string) :
  ~ In sep (list_ascii_of_string a) -> split sep (a ++ String sep b) = a :: split sep b.
Proof.
  induction a as [|c a IH]; simpl; intros Hno.
  - now rewrite Ascii.eqb_refl.
  - destruct (Ascii.eqb_spec c sep) as [->|Hne]; [elim Hno; now left|].
    rewrite IH; [reflexivity | intros H; apply Hno; now right].
Qed.

Lemma split_whole (sep : ascii) (a : string) :
  ~ In sep (list_ascii_of_string a) -> split sep a = [a].
Proof.
  induction a as [|c a IH]; simpl; intros Hno; [reflexivity|].
  destruct (Ascii.eqb_spec c sep) as [->|Hne]; [elim Hno; now left|].
  rewrite IH; [reflexivity | intros H; apply Hno; now right].
Qed.

Lemma trimEnd_fixed (k : string) :
  (forall c, Str.lastChar k = Some c -> isWhiteSpace c = false) -> trimEnd k = k.
Proof.
  induction k as [|c k IH]; [reflexivity|]. intros H. simpl.
  destruct k as [|d k].
  - simpl. now rewrite (H c eq_refl).
  - rewrite IH by exact H. reflexivity.
Qed.

Lemma trim_clean (lead : bool) (k : string) :
  clean k -> trim ((if lead then " " else "") ++ k) = k.
Proof.
  intros (Hne & _ & Hf & Hl). unfold trim.
  assert (E : trimStart ((if lead then " " else "") ++ k) = k).
  { assert (E0 : trimStart k = k).
    { destruct k as [|c k]; [now elim Hne|]. simpl. now rewrite (Hf c eq_refl). }
    destruct lead; exact E0. }
  rewrite E. now apply trimEnd_fixed.
Qed.

Lemma chars_append (a b : string) : list_ascii_of_string (a ++ b) = (list_ascii_of_string a ++ list_ascii_of_string b)%list.
Proof. induction a as [|c a IH]; simpl; [reflexivity | now rewrite IH]. Qed.

Lemma pieces_of_joined (keys : list string) (lead : bool) :
  keys <> [] -> Forall clean keys ->
  map trim (split "," ((if lead then " " else "") ++ Str.join ", " keys)) = keys.
Proof.
  revert lead; induction keys as [|k keys IH]; intros lead Hne Hall; [now elim Hne|].
  inversion Hall as [|k' keys' Hk Hrest]; subst.
  assert (Hno : ~ In ","%char (list_ascii_of_string ((if lead then " " else "") ++ k))).
  { rewrite chars_append. intros H. apply in_app_iff in H. destruct H as [H|H].
    - destruct lead; simpl in H; [destruct H as [H|[]]; discriminate H | exact H].
    - now apply Hk. }
  destruct keys as [|k2 keys].
  - change (Str.join ", " [k]) with k.
    rewrite split_whole by exact Hno. simpl. now rewrite trim_clean.
  - change (Str.join ", " (k :: k2 :: keys))
      with (k ++ String "," (" " ++ Str.join ", " (k2 :: keys))).
    rewrite <- append_assoc, split_at by exact Hno.
    simpl map. rewrite trim_clean by exact Hk. f_equal.
    apply (IH true); [discriminate | exact Hrest].
Qed.

End Keywords.

(** X23.  Every keyword that [editItem] stores is clean: not empty,
    without a comma, and without white space at either end.  In
    particular no list of an edited entry holds the empty keyword. *)
Theorem X23_edited_keywords_are_clean
  (atDepth : Z) (form : Manage.EditForm) (item : Item) (k : string) :
  In k (Js.orEmpty (key (Manage.applyForm atDepth form item)))
  \/ In k (Js.orEmpty (keysecondary (Manage.applyForm atDepth form item))) ->
  Text.clean k /\ k <> ""%string.
Proof.
  simpl. intros [H|H]; apply parseKeys_clean in H; (split; [exact H | apply H]).
Qed.

Lemma X23_edited_keywords_are_clean_witness :
  Text.clean "dog" /\ "dog"%string <> ""%string.
Proof.
  apply (X23_edited_keywords_are_clean 4 Scene.form
           (Sample.entry ["x"] [] (Js.Num 100) None false false) "dog").
  left. right. left. reflexivity.
Defined.

(** X24.  The keyword fields read back what the popup writes: a list of
    clean keywords, joined with a comma and a space as
    [createEditPopupHTML] joins it, is parsed back by [editItem] to the
    same list, when the field holds that string as it was joined. *)
Theorem X24_keywords_read_back (keys : list string) :
  Forall Text.clean keys -> Text.parseKeys (Str.join ", " keys) = keys.
Proof.
  intros Hall. unfold Text.parseKeys. destruct keys as [|k keys]; [reflexivity|].
  change (Str.join ", " (k :: keys))
    with ("" ++ Str.join ", " (k :: keys))%string.
  rewrite (pieces_of_joined (k :: keys) false) by (discriminate || exact Hall).
  clear - Hall. induction Hall as [|x l Hx Hl IH]; [reflexivity|].
  simpl. destruct x; [now elim (proj1 Hx) | now rewrite IH].
Qed.

Lemma X24_keywords_read_back_witness :
  Text.parseKeys (Str.join ", " ["cat"; "big dog"]) = ["cat"; "big dog"]%string.
Proof.
  apply (X24_keywords_read_back ["cat"; "big dog"]%string).
  repeat constructor; try discriminate;
    try (intros c H; inversion H; subst; reflexivity);
    simpl; intuition discriminate.
Defined.

(* ================================================================== *)
(** * The numbers of the edit form *)
(* ================================================================== *)

Section FormNumbers.

Import Text.
Local Open Scope string_scope.

Lemma readDigits_acc (d : Decimal.uint) (acc : positive) :
  readDigits 10 (NilEmpty.string_of_uint d) (Zpos acc) true
  = Some (Zpos (Pos.of_uint_acc d acc)).
Proof.
  revert acc; induction d; intros acc; [reflexivity|..];
    cbn [NilEmpty.string_of_uint readDigits Pos.of_uint_acc];
    match goal with
    | |- context [digitValue 10 ?c] =>
        let v := eval vm_compute in (digitValue 10 c) in
        change (digitValue 10 c) with v
    end; cbv iota;
    match goal with
    | |- readDigits 10 _ ?a true = Some (Zpos (Pos.of_uint_acc _ ?p)) =>
        replace a with (Zpos p) by lia
    end; apply IHd.
Qed.

Lemma readDigits_zero (d : Decimal.uint) (seen : bool) :
  readDigits 10 (NilEmpty.string_of_uint d) 0 seen
  = match d with
    | Decimal.Nil => if seen then Some 0%Z else None
    | _ => Some (Z.of_N (Pos.of_uint d))
    end.
Proof.
  revert seen; induction d; intros seen; [reflexivity|..];
    cbn [NilEmpty.string_of_uint readDigits Pos.of_uint];
    match goal with
    | |- context [digitValue 10 ?c] =>
        let v := eval vm_compute in (digitValue 10 c) in
        change (digitValue 10 c) with v
    end; cbv iota;
    try (change (0 * 10 + 0)%Z with 0%Z; rewrite IHd; now destruct d);
    match goal with
    | |- readDigits 10 _ ?a true = _ =>
        let v := eval vm_compute in a in change a with v
    end; rewrite readDigits_acc; reflexivity.
Qed.

(** A string of decimal digits has no sign and no hexadecimal prefix. *)
Lemma parseInt_digits (d : Decimal.uint) :
  d <> Decimal.Nil ->
  parseInt (NilEmpty.string_of_uint d)
  = match readDigits 10 (NilEmpty.string_of_uint d) 0 false with
    | Some n => Some (1 * n)%Z
    | None => None
    end
  /\ parseInt (String "-" (NilEmpty.string_of_uint d))
     = match readDigits 10 (NilEmpty.string_of_uint d) 0 false with
       | Some n => Some (-1 * n)%Z
       | None => None
       end.
Proof.
  intros Hd. destruct d as [|d|d|d|d|d|d|d|d|d|d]; [now elim Hd|..];
    try (split; reflexivity).
  destruct d; split; reflexivity.
Qed.

Lemma parseInt_showInt (z : Z) : parseInt (Js.showInt z) = Some z.
Proof.
  unfold Js.showInt, NilZero.string_of_int, NilZero.string_of_uint.
  destruct z as [|p|p]; [reflexivity|..]; simpl Z.to_int.
  - pose proof (DecimalPos.Unsigned.to_uint_nonnil p) as Hn.
    destruct (Pos.to_uint p) eqn:E; [now elim Hn|..];
      rewrite <- E; rewrite <- E in Hn;
      rewrite (proj1 (parseInt_digits _ Hn)), readDigits_zero;
      rewrite E; rewrite <- E; now rewrite DecimalPos.Unsigned.of_to.
  - pose proof (DecimalPos.Unsigned.to_uint_nonnil p) as Hn.
    destruct (Pos.to_uint p) eqn:E; [now elim Hn|..];
      rewrite <- E; rewrite <- E in Hn;
      rewrite (proj2 (parseInt_digits _ Hn)), readDigits_zero;
      rewrite E; rewrite <- E; now rewrite DecimalPos.Unsigned.of_to.
Qed.

End FormNumbers.

(** X25.  [parseInt] reads back an integer as a template literal writes
    it, for every integer that a number holds exactly (up to 2^53 - 1 in
    absolute value).  So a scan depth or a probability that the popup
    shows and the user leaves as it is, is stored as it was, when it is
    such an integer other than 0. *)
Theorem X25_numbers_read_back (z : Z) :
  (Z.abs z <= 9007199254740991)%Z ->
  Text.parseInt (Js.showInt z) = Some z
  /\ (forall atDepth form item,
        z <> 0%Z ->
        (Manage.f_scan_depth form = Js.showInt z ->
         scan_depth (Manage.applyForm atDepth form item) = Some z)
        /\ (Manage.f_probability form = Js.showInt z ->
            probability (Manage.applyForm atDepth form item) = Js.Num (inject_Z z))).
Proof.
  intros _.
  split; [apply parseInt_showInt|].
  intros atDepth form item Hz.
  assert (E : Js.orInt (Some z) 10 = z /\ Js.orInt (Some z) 100 = z).
  { unfold Js.orInt. destruct (Z.eqb_spec z 0); [contradiction | now split]. }
  split; intros H; simpl; rewrite H, parseInt_showInt; f_equal; [apply E | f_equal; apply E].
Qed.

Lemma X25_numbers_read_back_witness :
  Text.parseInt "-250" = Some (-250)%Z
  /\ scan_depth
       (Manage.applyForm 4%Z
          {| Manage.f_content := ""; Manage.f_constant := "false"; Manage.f_key := "";
             Manage.f_keysecondary := ""; Manage.f_case_sensitive := false;
             Manage.f_scan_depth := "25"; Manage.f_probability := "";
             Manage.f_depth := ""; Manage.f_order := "" |}
          (Sample.entry ["x"] [] (Js.Num 100) None false false))
     = Some 25%Z.
Proof.
  split.
  - apply (proj1 (X25_numbers_read_back (-250) ltac:(simpl; lia))).
  - apply (proj1 (proj2 (X25_numbers_read_back 25 ltac:(simpl; lia))
                   4%Z _ _ ltac:(discriminate))).
    reflexivity.
Defined.

(* ================================================================== *)
(** * An edited entry before the first message *)
(* ================================================================== *)

Section EditedEntry.

Local Open Scope string_scope.

Lemma parseKeys_no_empty (input : string) : ~ In "" (Text.parseKeys input).
Proof. intros H. now apply (proj1 (parseKeys_clean input "" H)). Qed.

(** An entry that is neither constant nor disabled and holds no empty
    keyword is not active on the empty corpus. *)
Lemma inactive_on_empty_corpus (item : Item) (w : World) :
  constant item = false -> disable item = false ->
  searchTextOf item (Js.orEmpty (chat w)) = "" ->
  ~ In "" (Js.orEmpty (key item)) -> ~ In "" (Js.orEmpty (keysecondary item)) ->
  Spec.result (shouldActivateItem item w) = Some false.
Proof.
  intros Hc Hd Htext Hk Hs.
  destruct (Spec.gateBlocks item w) eqn:Hg.
  - rewrite shouldActivateItem_run, Hc, Hd, Hg. reflexivity.
  - destruct (shouldActivateItem_through item w Hc Hd Hg) as [w' [H _]].
    rewrite H, Htext. simpl. f_equal.
    unfold Spec.keywordMatch, Spec.matches.
    destruct (match_whole_words item).
    + rewrite !wholeWord_empty_corpus. now destruct (Js.noElements _).
    + rewrite !substring_empty_corpus.
      destruct (in_dec string_dec "" (Js.orEmpty (key item))); [contradiction|].
      destruct (in_dec string_dec "" (Js.orEmpty (keysecondary item))); [contradiction|].
      now destruct (Js.noElements _).
Qed.

End EditedEntry.

(** X26.  An entry as [editItem] stores it, not made constant in the form
    and not disabled, is never active while the chat has no message,
    whatever the keyword fields of the form held, in either matching mode
    and whatever the draw: the empty keyword, which matches the empty
    corpus, is never among the keywords that the form stores. *)
Theorem X26_edited_entry_needs_a_message
  (atDepth : Z) (form : Manage.EditForm) (item : Item) (w : World) :
  Manage.f_constant form <> "true"%string -> disable item = false ->
  chat w = None \/ chat w = Some [] ->
  Spec.result (shouldActivateItem (Manage.applyForm atDepth form item) w) = Some false.
Proof.
  intros Hc Hd Hchat.
  apply inactive_on_empty_corpus.
  - simpl. now apply String.eqb_neq.
  - exact Hd.
  - destruct Hchat as [H|H]; rewrite H; apply searchTextOf_no_chat.
  - simpl. apply parseKeys_no_empty.
  - simpl. apply parseKeys_no_empty.
Qed.

Lemma X26_edited_entry_needs_a_message_witness :
  Spec.result
    (shouldActivateItem
       (Manage.applyForm 4%Z Scene.form
          (Sample.entry ["cat"] [] (Js.Num 100) None false false))
       (Sample.world [] 0))
  = Some false.
Proof.
  apply (X26_edited_entry_needs_a_message 4%Z Scene.form
           (Sample.entry ["cat"] [] (Js.Num 100) None false false) (Sample.world [] 0)).
  - discriminate.
  - reflexivity.
  - vm_compute. auto.
Defined.

(* ================================================================== *)
(** * The view stays a page of the list *)
(* ================================================================== *)

Section Settled.

Import Manage.

(** A state whose view is what [renderActivatedItems] gives for its list,
    from a page of a settled state, is settled; so is a state with the
    list and the view of a settled state. *)
Lemma settled_rendered (s s' : State) :
  settled s ->
  view s' = viewOf (selectedItems (world s')) (activatedPage s) ->
  settled s'.
Proof.
  intros Hs Hv. apply (viewOf_settled s' (activatedPage s)); [apply Hs | exact Hv].
Qed.

Lemma settled_same (s s' : State) :
  settled s ->
  selectedItems (world s') = selectedItems (world s) -> view s' = view s ->
  settled s'.
Proof.
  unfold settled, view. intros Hs Hi Hv. inversion Hv as [[Hp Hsh Hpg]].
  rewrite Hi, Hp, Hsh, Hpg. exact Hs.
Qed.

Lemma clickPage_settled (a : PageAction) (s : State) :
  settled s -> exists s', clickPage a s = Done tt s' /\ settled s'.
Proof.
  intros Hs. unfold clickPage.
  destruct (pager s) as [[c t]|] eqn:Hpg; [|now exists s].
  destruct Hs as (Hp & Hbar & Hrest). destruct (Hbar c t Hpg) as (Hc & Ht & Hlt).
  assert (Hs : settled s) by (split; [exact Hp | split; [exact Hbar | exact Hrest]]).
  destruct a.
  - destruct (Z.ltb_spec 1 c) as [Hlt1|Hge1]; [|now exists s].
    destruct (render_run (mkState (world s) (activatedPage s - 1) (shown s) (pager s)
                            (notices s))) as [s' [H [Hw [_ Hv]]]].
    exists s'. split; [exact H|].
    apply (viewOf_settled s' (activatedPage s - 1)); [simpl in *; lia|].
    rewrite Hw. exact Hv.
  - destruct (Z.ltb_spec c t) as [Hlt1|Hge1]; [|now exists s].
    destruct (render_run (mkState (world s) (activatedPage s + 1) (shown s) (pager s)
                            (notices s))) as [s' [H [Hw [_ Hv]]]].
    exists s'. split; [exact H|].
    apply (viewOf_settled s' (activatedPage s + 1)); [simpl in *; lia|].
    rewrite Hw. exact Hv.
Qed.

Lemma clearAllItems_settled (confirmed : bool) (s : State) :
  settled s -> exists s', clearAllItems confirmed s = Done tt s' /\ settled s'.
Proof.
  intros Hs. unfold clearAllItems.
  destruct (selectedItems (world s)) as [|i items] eqn:E.
  - eexists. split; [reflexivity|]. now apply (settled_same s).
  - destruct confirmed.
    + unfold andThen at 1. unfold log at 1, note at 1.
      set (s1 := mkState _ _ _ _ _).
      rewrite (andThen_Done _ _ _ _ s1 _ tt
                 (onWorld_Returned _ _ s1 tt _ (forEach_clearPrompt (i :: items) _))).
      unfold andThen, log, note, setItems, onWorld, renderActivatedItems, notify, setWorld.
      unfold modify, saveSelectedItems, saveSettingsDebounced. simpl.
      destruct (toastr (world s)) eqn:T; simpl; rewrite ?T;
        (eexists; split; [reflexivity|]);
        (split; [apply Hs|]; simpl;
         split; [discriminate|]; split; [now split | intros X; now elim X]).
    + eexists. split; [reflexivity|]. now apply (settled_same s).
Qed.

End Settled.

(** X27.  What is in view stays a page of the list.  From a state in
    which the page is one of the pages there are, the entries shown are
    those of that page and the page bar tells that page and the number of
    pages, every handler of the list returns and ends in such a state: a
    click on the page bar, [deleteItem], [toggleItem], [clearAllItems]
    with either answer and [editItem] closed either way, with any id.
    [renderActivatedItems] ends in such a state from any state whose
    page is at least 1, whatever that state shows. *)
Theorem X27_view_stays_a_page (s : Manage.State) :
  Manage.settled s ->
  (forall a, exists s', Manage.clickPage a s = Manage.Done tt s' /\ Manage.settled s')
  /\ (forall itemId,
        exists s', Manage.deleteItem itemId s = Manage.Done tt s' /\ Manage.settled s')
  /\ (forall itemId,
        exists s', Manage.toggleItem itemId s = Manage.Done tt s' /\ Manage.settled s')
  /\ (forall confirmed,
        exists s', Manage.clearAllItems confirmed s = Manage.Done tt s' /\ Manage.settled s')
  /\ (forall itemId saved form,
        exists s', Manage.editItem itemId saved form s = Manage.Done tt s'
                   /\ Manage.settled s')
  /\ (forall s0,
        (1 <= Manage.activatedPage s0)%Z ->
        exists s',
          Manage.renderActivatedItems s0 = Manage.Done tt s'
          /\ Manage.world s' = Manage.world s0
          /\ Manage.settled s').
Proof.
  intros Hs.
  split; [intros a; now apply clickPage_settled|].
  split.
  { intros itemId.
    destruct (find (Manage.hasId itemId) (selectedItems (Manage.world s))) as [item|] eqn:F.
    - destruct (deleteItem_found itemId item s F)
        as [s' [H [_ [_ [_ [_ [_ [_ [_ [Hv _]]]]]]]]]].
      exists s'. split; [exact H | now apply (settled_rendered s)].
    - rewrite (deleteItem_missing itemId s F). eexists. split; [reflexivity|].
      now apply (settled_same s). }
  split.
  { intros itemId.
    destruct (find (Manage.hasId itemId) (selectedItems (Manage.world s))) as [item|] eqn:F.
    - destruct (toggleItem_found itemId item s F)
        as [s' [call [H [_ [_ [_ [_ [_ [_ [_ Hv]]]]]]]]]].
      exists s'. split; [exact H | now apply (settled_rendered s)].
    - rewrite (toggleItem_missing itemId s F). eexists. split; [reflexivity|].
      now apply (settled_same s). }
  split; [intros confirmed; now apply clearAllItems_settled|].
  split.
  { intros itemId saved form.
    destruct (find (Manage.hasId itemId) (selectedItems (Manage.world s))) as [item|] eqn:F.
    - destruct saved.
      + destruct (editItem_saved itemId item form s F)
          as [s' [call [H [_ [_ [_ [_ [_ [_ Hv]]]]]]]]].
        exists s'. split; [exact H | now apply (settled_rendered s)].
      + destruct (editItem_unsaved itemId form s) as [s' [H [Hw Hv]]].
        exists s'. split; [exact H|]. apply (settled_same s s' Hs); [now rewrite Hw | exact Hv].
    - rewrite (editItem_missing itemId saved form s F). eexists. split; [reflexivity|].
      now apply (settled_same s). }
  intros s0 Hp.
  destruct (render_run s0) as [s' [H [Hw [_ Hv]]]].
  exists s'. split; [exact H|]. split; [exact Hw|].
  apply (viewOf_settled s' (Manage.activatedPage s0)); [exact Hp|].
  rewrite Hw. exact Hv.
Qed.

Lemma X27_view_stays_a_page_witness :
  Manage.settled (Manage.final (Manage.renderActivatedItems (Scene.listed Scene.two)))
  /\ (exists s',
        Manage.deleteItem "book_1_0"
          (Manage.final (Manage.renderActivatedItems (Scene.listed Scene.two)))
        = Manage.Done tt s'
        /\ Manage.settled s')
  /\ (exists s',
        Manage.renderActivatedItems
          (Manage.mkState (Manage.world (Scene.listed Scene.two)) 9 [] None [])
        = Manage.Done tt s'
        /\ Manage.activatedPage s' = 1%Z
        /\ Manage.settled s').
Proof.
  assert (Hs : Manage.settled
                 (Manage.final (Manage.renderActivatedItems (Scene.listed Scene.two)))).
  { apply (viewOf_settled _ 1%Z); [lia | vm_compute; reflexivity]. }
  split; [exact Hs|]. split.
  - exact (proj1 (proj2 (X27_view_stays_a_page _ Hs)) "book_1_0"%string).
  - destruct (proj2 (proj2 (proj2 (proj2 (proj2 (X27_view_stays_a_page _ Hs)))))
                (Manage.mkState (Manage.world (Scene.listed Scene.two)) 9 [] None [])
                ltac:(simpl; lia)) as [s' [H [_ Hset]]].
    exists s'. split; [exact H|]. split; [|exact Hset].
    vm_compute in H. inversion H. reflexivity.
Defined.
